(** * srcfacts: a shallow embedding of [srcfacts.cpp]

    The program reads a srcML document from standard input through a
    window ([std::string_view content]) over a static buffer, parses it in
    one pass and prints a table of measures.  This development embeds
    [refillContent] and [main] as Rocq functions and checks the statements
    of the specification against them.

    Conventions of the embedding.
    - A [char] is an [ascii]; a [std::string_view] is the list of the bytes
      it views.  Only the viewed bytes are observable through the
      operations of [std::string_view]; every operation whose precondition
      is violated ([operator[]] at or past [size()], [remove_prefix] of more
      than [size()], ...) ends the run in [Undefined].
    - [std::size_t] values are [Z] in [0, 2^64), with [npos = 2^64 - 1].
    - [int] values are [Z]; arithmetic that would leave the range of a
      32 bit [int] ends the run in [Undefined IntOverflow].
    - An error path of [main] (a diagnostic on [std::cerr], then
      [return 1]) is the result [Fatal].
    - The [TRACE] macro calls of the source are kept as a list of events. *)

From Stdlib Require Import ZArith List String Ascii Bool Lia.
Import ListNotations.
Local Open Scope string_scope.
Local Open Scope Z_scope.

(** ** Results of a run *)

Inductive Violation : Set :=
| OutOfView         (* string_view::operator[] with pos >= size() *)
| PrefixTooLong     (* string_view::remove_prefix(n) with n > size() *)
| SubstrOutOfRange  (* string_view::substr(pos) with pos > size(): uncaught std::out_of_range *)
| BitsetIndex       (* std::bitset<128>::operator[] with pos >= 128 *)
| IntOverflow       (* signed integer overflow *)
| BufferOverflow    (* archive_read_data writes past buffer[BUFFER_SIZE] *)
| UseAfterFree.     (* archive_read_data on an archive given to archive_read_free *)

Inductive Result (A : Type) : Type :=
| Ok (a : A)
| Fatal (cerr : list string)
| Undefined (v : Violation)
| OutOfFuel.

Arguments Ok {A} a.
Arguments Fatal {A} cerr.
Arguments Undefined {A} v.
Arguments OutOfFuel {A}.

Definition bind {A B : Type} (r : Result A) (k : A -> Result B) : Result B :=
  match r with
  | Ok a => k a
  | Fatal cerr => Fatal cerr
  | Undefined v => Undefined v
  | OutOfFuel => OutOfFuel
  end.

Notation "x <- r ;; k" := (bind r (fun x => k))
  (at level 61, r at next level, right associativity).
Notation "' pat <- r ;; k" := (bind r (fun x => match x with pat => k end))
  (at level 61, pat pattern, r at next level, right associativity).

(** ** Constants of the source *)

Definition BLOCK_SIZE : Z := 4096.
Definition BUFFER_SIZE : Z := 16 * 16 * BLOCK_SIZE.

Definition string_view : Set := list ascii.

Definition sv (s : string) : string_view := list_ascii_of_string s.

Definition LF : ascii := "010"%char.
Definition TAB : ascii := "009"%char.
Definition CR : ascii := "013"%char.
Definition DQUOTE : ascii := "034"%char.
Definition SQUOTE : ascii := "039"%char.

(* space, line feed, tab, carriage return *)
Definition WHITESPACE : string_view := [" "%char; LF; TAB; CR].
(* the bytes > space / double-quote : = line feed, tab, carriage return *)
Definition NAMEEND : string_view :=
  [">"%char; " "%char; "/"%char; DQUOTE; ":"%char; "="%char; LF; TAB; CR].

Definition xmlNameMask_bits : string :=
  "00000111111111111111111111111110100001111111111111111111111111100000001111111111011000000000000000000000000000000000000000000000".

(* std::bitset<128>(str)[pos]: the last character of [str] is bit 0.  The
   index is the [char] converted to [std::size_t]; a byte of 128 or more is
   out of range for the bitset whatever the signedness of [char]. *)
Definition xmlNameMask (c : ascii) : Result bool :=
  let pos := Z.of_N (N_of_ascii c) in
  if pos <? 128 then
    match nth_error (sv xmlNameMask_bits) (Z.to_nat (127 - pos)) with
    | Some b => Ok (Ascii.eqb b "1")
    | None => Undefined BitsetIndex
    end
  else Undefined BitsetIndex.

(** ** Integer arithmetic *)

Definition INT_MAX : Z := 2147483647.
Definition INT_MIN : Z := -2147483648.

Definition in_int (z : Z) : bool := (INT_MIN <=? z) && (z <=? INT_MAX).

(* a + b on [int] *)
Definition add_int (a b : Z) : Result Z :=
  if in_int (a + b) then Ok (a + b) else Undefined IntOverflow.

(* static_cast<int>(n) for a std::size_t n: reduction modulo 2^32 *)
Definition static_cast_int (n : Z) : Z :=
  (n + 2147483648) mod 4294967296 - 2147483648.

(* std::size_t arithmetic wraps modulo 2^64 *)
Definition size_t_wrap (n : Z) : Z := n mod 18446744073709551616.

(** ** std::string_view *)

Definition npos : Z := 18446744073709551615.

Definition size (content : string_view) : Z := Z.of_nat (List.length content).

Definition empty (content : string_view) : bool :=
  match content with [] => true | _ :: _ => false end.

(* content[pos] *)
Definition at_ (content : string_view) (pos : Z) : Result ascii :=
  if (0 <=? pos) && (pos <? size content) then
    match nth_error content (Z.to_nat pos) with
    | Some c => Ok c
    | None => Undefined OutOfView
    end
  else Undefined OutOfView.

(* content.remove_prefix(n) *)
Definition remove_prefix (n : Z) (content : string_view) : Result string_view :=
  if (0 <=? n) && (n <=? size content)
  then Ok (skipn (Z.to_nat n) content)
  else Undefined PrefixTooLong.

(* content.substr(pos, count) *)
Definition substr (content : string_view) (pos count : Z) : Result string_view :=
  if (0 <=? pos) && (pos <=? size content)
  then Ok (if count <? size content - pos
           then firstn (Z.to_nat count) (skipn (Z.to_nat pos) content)
           else skipn (Z.to_nat pos) content)
  else Undefined SubstrOutOfRange.

Definition mem (c : ascii) (set : string_view) : bool :=
  existsb (Ascii.eqb c) set.

Fixpoint sv_eqb (a b : string_view) : bool :=
  match a, b with
  | [], [] => true
  | x :: a', y :: b' => Ascii.eqb x y && sv_eqb a' b'
  | _, _ => false
  end.

Fixpoint starts_with (needle content : string_view) : bool :=
  match needle, content with
  | [], _ => true
  | x :: needle', y :: content' => Ascii.eqb x y && starts_with needle' content'
  | _ :: _, [] => false
  end.

(* the scans below walk the view from index [i] on *)
Fixpoint first_of_from (set content : string_view) (i : Z) : Z :=
  match content with
  | [] => npos
  | c :: rest => if mem c set then i else first_of_from set rest (i + 1)
  end.

Fixpoint first_not_of_from (set content : string_view) (i : Z) : Z :=
  match content with
  | [] => npos
  | c :: rest => if mem c set then first_not_of_from set rest (i + 1) else i
  end.

Fixpoint find_from (needle content : string_view) (i : Z) : Z :=
  match content with
  | [] => if empty needle then i else npos
  | _ :: rest => if starts_with needle content then i
                 else find_from needle rest (i + 1)
  end.

(* content.find_first_of(set, pos) *)
Definition find_first_of (content set : string_view) (pos : Z) : Z :=
  if (0 <=? pos) && (pos <? size content)
  then first_of_from set (skipn (Z.to_nat pos) content) pos
  else npos.

(* content.find_first_not_of(set) *)
Definition find_first_not_of (content set : string_view) : Z :=
  first_not_of_from set content 0.

(* content.find(needle) *)
Definition find (content needle : string_view) : Z :=
  find_from needle content 0.

(* content.compare(pos, n, str) == 0, used with pos <= size() only *)
Definition compare_eq (content : string_view) (pos : Z) (str : string_view) : bool :=
  if (0 <=? pos) && (pos <=? size content)
  then starts_with str (skipn (Z.to_nat pos) content)
  else false.

(* std::count(characters.cbegin(), characters.cend(), c) *)
Fixpoint count (c : ascii) (characters : string_view) : Z :=
  match characters with
  | [] => 0
  | x :: rest => (if Ascii.eqb x c then 1 else 0) + count c rest
  end.

(* content[i1] == c1 && content[i2] == c2 && ..., evaluated left to right *)
Fixpoint all_at (content : string_view) (tests : list (Z * ascii)) : Result bool :=
  match tests with
  | [] => Ok true
  | (i, c) :: rest =>
      x <- at_ content i ;;
      if Ascii.eqb x c then all_at content rest else Ok false
  end.

(* content.remove_prefix(content.find_first_not_of(WHITESPACE)) *)
Definition skip_whitespace (content : string_view) : Result string_view :=
  remove_prefix (find_first_not_of content WHITESPACE) content.

(** ** The byte source (libarchive)

    [archive_read_data] is declared in [archive.h], outside the
    repository.  Its contract is taken as: a call delivers at most the
    requested number of bytes, zero at the end of the data, or a negative
    status.  [reads] lists what the successive calls find; a [Data] item
    longer than a request is delivered over several calls. *)

Inductive ReadResult : Set :=
| Data (bytes : string_view)
| ReadError.

(* static archive *inputArchive *)
Inductive Handle : Set := Null | Live | Freed.

Record Archive : Set := {
  handle : Handle;
  open_ok : bool;           (* archive_read_open_fd(...) == ARCHIVE_OK *)
  header_ok : bool;         (* archive_read_next_header(...) == ARCHIVE_OK *)
  reads : list ReadResult
}.

Definition ARCHIVE_FATAL : Z := -30.

Definition with_handle (h : Handle) (a : Archive) : Archive :=
  {| handle := h; open_ok := open_ok a; header_ok := header_ok a; reads := reads a |}.

Definition with_reads (r : list ReadResult) (a : Archive) : Archive :=
  {| handle := handle a; open_ok := open_ok a; header_ok := header_ok a; reads := r |}.

(* archive_read_data(a, buff, s): the status and the bytes stored at buff *)
Definition archive_read_data (a : Archive) (s : Z) : Z * string_view * Archive :=
  match reads a with
  | [] => (0, [], a)
  | Data bytes :: rest =>
      if size bytes <=? s then (size bytes, bytes, with_reads rest a)
      else (s, firstn (Z.to_nat s) bytes,
            with_reads (Data (skipn (Z.to_nat s) bytes) :: rest) a)
  | ReadError :: rest => (ARCHIVE_FATAL, [], with_reads rest a)
  end.

(** [static char buffer[BUFFER_SIZE]] is zero-initialised.  The model keeps
    the bytes up to the last one written; the rest of the array still
    holds zero. *)
Definition initial_buffer : list ascii := [].

(* the whole array *)
Definition array (buffer : list ascii) : list ascii :=
  buffer ++ repeat zero (Z.to_nat BUFFER_SIZE - List.length buffer).

(* writing [bytes] at buffer + pos *)
Definition store (buffer : list ascii) (pos : Z) (bytes : string_view) : list ascii :=
  firstn (Z.to_nat pos) buffer
    ++ repeat zero (Z.to_nat pos - List.length buffer)
    ++ bytes
    ++ skipn (Z.to_nat (pos + size bytes)) buffer.

Record Refilled : Set := {
  bytesRead : Z;
  new_buffer : list ascii;
  new_content : string_view;
  new_archive : Archive;
  refill_cerr : list string
}.

(** [refillContent]: the view [content] lies inside [buffer]; the
    [std::copy] of the view onto the start of the buffer is the
    overlapping forward move it compiles to. *)
Definition refillContent (buffer : list ascii) (content : string_view)
    (inputArchive : Archive) : Result Refilled :=
  let failed a msg :=
    Ok {| bytesRead := -1; new_buffer := buffer; new_content := content;
          new_archive := a; refill_cerr := [msg] |} in
  (* libarchive input setup *)
  let setup :=
    match handle inputArchive with
    | Null =>
        let a := with_handle Live inputArchive in
        if negb (open_ok a) then inl (a, "input error: Invalid data in standard input")
        else if negb (header_ok a)
        then inl (a, "input error: Invalid data in standard input header")
        else inr a
    | _ => inr inputArchive
    end in
  match setup with
  | inl (a, msg) => failed a msg
  | inr a =>
      (* preserve prefix of unprocessed characters to start of the buffer *)
      let buffer := store buffer 0 content in
      (* read the next block *)
      match handle a with
      | Freed => Undefined UseAfterFree
      | _ =>
          let '(status, bytes, a) := archive_read_data a (BUFFER_SIZE - BLOCK_SIZE) in
          if BUFFER_SIZE <? size content + size bytes then Undefined BufferOverflow
          else
            let buffer := store buffer (size content) bytes in
            if status <? 0 then
              Ok {| bytesRead := -1; new_buffer := buffer; new_content := content;
                    new_archive := a; refill_cerr := [] |}
            else
              (* EOF *)
              let a := if status =? 0 then with_handle Freed a else a in
              (* set content to the start of the buffer *)
              Ok {| bytesRead := status; new_buffer := buffer;
                    new_content := firstn (Z.to_nat (size content + status)) buffer;
                    new_archive := a; refill_cerr := [] |}
      end
  end.

(** ** Parse events: the [TRACE] calls of [main] *)

Inductive Event : Set :=
| START_DOCUMENT
| XML_DECLARATION (version : string_view) (encoding standalone : option string_view)
| DOCTYPE (contents : string_view)
| CHARACTERS (characters : string_view)
| COMMENT (comment : string_view)
| CDATA (characters : string_view)
| PI (target data : string_view)
| END_TAG (qName prefix localName : string_view)
| START_TAG (qName prefix localName : string_view)
| NAMESPACE (prefix uri : string_view)
| ATTRIBUTE (qName prefix localName value : string_view)
| END_DOCUMENT.

(** ** The variables of [main] *)

Record State : Set := {
  buffer : list ascii;
  inputArchive : Archive;
  content : string_view;
  url : string_view;
  textSize : Z;
  loc : Z;
  exprCount : Z;
  functionCount : Z;
  classCount : Z;
  unitCount : Z;
  declCount : Z;
  commentCount : Z;
  totalBytes : Z;
  depth : Z;
  doneReading : bool;
  trace : list Event        (* most recent first *)
}.

Definition with_content (c : string_view) (s : State) : State :=
  {| buffer := buffer s; inputArchive := inputArchive s; content := c; url := url s;
     textSize := textSize s; loc := loc s; exprCount := exprCount s;
     functionCount := functionCount s; classCount := classCount s;
     unitCount := unitCount s; declCount := declCount s;
     commentCount := commentCount s; totalBytes := totalBytes s;
     depth := depth s; doneReading := doneReading s; trace := trace s |}.

Definition with_url (u : string_view) (s : State) : State :=
  {| buffer := buffer s; inputArchive := inputArchive s; content := content s; url := u;
     textSize := textSize s; loc := loc s; exprCount := exprCount s;
     functionCount := functionCount s; classCount := classCount s;
     unitCount := unitCount s; declCount := declCount s;
     commentCount := commentCount s; totalBytes := totalBytes s;
     depth := depth s; doneReading := doneReading s; trace := trace s |}.

Definition with_textSize (n : Z) (s : State) : State :=
  {| buffer := buffer s; inputArchive := inputArchive s; content := content s; url := url s;
     textSize := n; loc := loc s; exprCount := exprCount s;
     functionCount := functionCount s; classCount := classCount s;
     unitCount := unitCount s; declCount := declCount s;
     commentCount := commentCount s; totalBytes := totalBytes s;
     depth := depth s; doneReading := doneReading s; trace := trace s |}.

Definition with_loc (n : Z) (s : State) : State :=
  {| buffer := buffer s; inputArchive := inputArchive s; content := content s; url := url s;
     textSize := textSize s; loc := n; exprCount := exprCount s;
     functionCount := functionCount s; classCount := classCount s;
     unitCount := unitCount s; declCount := declCount s;
     commentCount := commentCount s; totalBytes := totalBytes s;
     depth := depth s; doneReading := doneReading s; trace := trace s |}.

Definition with_exprCount (n : Z) (s : State) : State :=
  {| buffer := buffer s; inputArchive := inputArchive s; content := content s; url := url s;
     textSize := textSize s; loc := loc s; exprCount := n;
     functionCount := functionCount s; classCount := classCount s;
     unitCount := unitCount s; declCount := declCount s;
     commentCount := commentCount s; totalBytes := totalBytes s;
     depth := depth s; doneReading := doneReading s; trace := trace s |}.

Definition with_functionCount (n : Z) (s : State) : State :=
  {| buffer := buffer s; inputArchive := inputArchive s; content := content s; url := url s;
     textSize := textSize s; loc := loc s; exprCount := exprCount s;
     functionCount := n; classCount := classCount s;
     unitCount := unitCount s; declCount := declCount s;
     commentCount := commentCount s; totalBytes := totalBytes s;
     depth := depth s; doneReading := doneReading s; trace := trace s |}.

Definition with_classCount (n : Z) (s : State) : State :=
  {| buffer := buffer s; inputArchive := inputArchive s; content := content s; url := url s;
     textSize := textSize s; loc := loc s; exprCount := exprCount s;
     functionCount := functionCount s; classCount := n;
     unitCount := unitCount s; declCount := declCount s;
     commentCount := commentCount s; totalBytes := totalBytes s;
     depth := depth s; doneReading := doneReading s; trace := trace s |}.

Definition with_unitCount (n : Z) (s : State) : State :=
  {| buffer := buffer s; inputArchive := inputArchive s; content := content s; url := url s;
     textSize := textSize s; loc := loc s; exprCount := exprCount s;
     functionCount := functionCount s; classCount := classCount s;
     unitCount := n; declCount := declCount s;
     commentCount := commentCount s; totalBytes := totalBytes s;
     depth := depth s; doneReading := doneReading s; trace := trace s |}.

Definition with_declCount (n : Z) (s : State) : State :=
  {| buffer := buffer s; inputArchive := inputArchive s; content := content s; url := url s;
     textSize := textSize s; loc := loc s; exprCount := exprCount s;
     functionCount := functionCount s; classCount := classCount s;
     unitCount := unitCount s; declCount := n;
     commentCount := commentCount s; totalBytes := totalBytes s;
     depth := depth s; doneReading := doneReading s; trace := trace s |}.

Definition with_commentCount (n : Z) (s : State) : State :=
  {| buffer := buffer s; inputArchive := inputArchive s; content := content s; url := url s;
     textSize := textSize s; loc := loc s; exprCount := exprCount s;
     functionCount := functionCount s; classCount := classCount s;
     unitCount := unitCount s; declCount := declCount s;
     commentCount := n; totalBytes := totalBytes s;
     depth := depth s; doneReading := doneReading s; trace := trace s |}.

Definition with_depth (n : Z) (s : State) : State :=
  {| buffer := buffer s; inputArchive := inputArchive s; content := content s; url := url s;
     textSize := textSize s; loc := loc s; exprCount := exprCount s;
     functionCount := functionCount s; classCount := classCount s;
     unitCount := unitCount s; declCount := declCount s;
     commentCount := commentCount s; totalBytes := totalBytes s;
     depth := n; doneReading := doneReading s; trace := trace s |}.

(* TRACE(...) *)
Definition TRACE (e : Event) (s : State) : State :=
  {| buffer := buffer s; inputArchive := inputArchive s; content := content s; url := url s;
     textSize := textSize s; loc := loc s; exprCount := exprCount s;
     functionCount := functionCount s; classCount := classCount s;
     unitCount := unitCount s; declCount := declCount s;
     commentCount := commentCount s; totalBytes := totalBytes s;
     depth := depth s; doneReading := doneReading s; trace := e :: trace s |}.

Definition LONG_MAX : Z := 9223372036854775807.

(* totalBytes += bytesRead, on [long] *)
Definition add_long (a b : Z) : Result Z :=
  if (- LONG_MAX - 1 <=? a + b) && (a + b <=? LONG_MAX) then Ok (a + b)
  else Undefined IntOverflow.

(** The block [refill content preserving unprocessed] that [main] repeats
    at the top of the element loop and in the comment and CDATA branches:
    the call, the test for a read error, [doneReading], [totalBytes]. *)
Definition refill (s : State) : Result State :=
  r <- refillContent (buffer s) (content s) (inputArchive s) ;;
  if bytesRead r <? 0 then
    Fatal (refill_cerr r ++ ["parser error : File input error"])
  else
    total <- add_long (totalBytes s) (bytesRead r) ;;
    Ok {| buffer := new_buffer r; inputArchive := new_archive r;
          content := new_content r; url := url s;
          textSize := textSize s; loc := loc s; exprCount := exprCount s;
          functionCount := functionCount s; classCount := classCount s;
          unitCount := unitCount s; declCount := declCount s;
          commentCount := commentCount s; totalBytes := total;
          depth := depth s;
          doneReading := if bytesRead r =? 0 then true else doneReading s;
          trace := trace s |}.

(** ** The prologue of [main]: XML declaration and DOCTYPE *)

Definition is_quote (c : ascii) : bool := Ascii.eqb c DQUOTE || Ascii.eqb c SQUOTE.

Definition show (text : string_view) : string := string_of_list_ascii text.

(* the optional second attribute of the declaration: encoding or standalone *)
Definition parseDeclarationAttribute2 (content : string_view)
  : Result (option string_view * option string_view * string_view) :=
  let nameEndPosition := find_first_of content (sv "= ") 0 in
  if nameEndPosition =? npos then
    Fatal ["parser error: Incomplete attribute in XML declaration"]
  else
    attr2 <- substr content 0 nameEndPosition ;;
    content <- remove_prefix nameEndPosition content ;;
    content <- skip_whitespace content ;;
    content <- remove_prefix (size (sv "=")) content ;;
    content <- skip_whitespace content ;;
    delimiter2 <- at_ content 0 ;;
    if negb (is_quote delimiter2) then
      Fatal ["parser error: Invalid end delimiter for attribute " ++ show attr2
             ++ " in XML declaration"]
    else
      content <- remove_prefix 1 content ;;
      let valueEndPosition := find content [delimiter2] in
      if valueEndPosition =? npos then
        Fatal ["parser error: Incomplete attribute " ++ show attr2
               ++ " in XML declaration"]
      else
        value <- substr content 0 valueEndPosition ;;
        ' (encoding, standalone) <-
          (if sv_eqb attr2 (sv "encoding") then Ok (Some value, None)
           else if sv_eqb attr2 (sv "standalone") then Ok (None, Some value)
           else Fatal ["parser error: Invalid attribute " ++ show attr2
                       ++ " in XML declaration"]) ;;
        content <- remove_prefix (size_t_wrap (valueEndPosition + 1)) content ;;
        content <- skip_whitespace content ;;
        Ok (encoding, standalone, content).

(* the optional third attribute: only standalone, and only once *)
Definition parseDeclarationAttribute3 (standalone : option string_view)
    (content : string_view) : Result (option string_view * string_view) :=
  let nameEndPosition := find_first_of content (sv "= ") 0 in
  if nameEndPosition =? npos then
    Fatal ["parser error: Incomplete attribute in XML declaration"]
  else
    attr2 <- substr content 0 nameEndPosition ;;
    content <- remove_prefix nameEndPosition content ;;
    content <- skip_whitespace content ;;
    content <- remove_prefix (size (sv "=")) content ;;
    content <- skip_whitespace content ;;
    delimiter2 <- at_ content 0 ;;
    if negb (is_quote delimiter2) then
      Fatal ["parser error: Invalid end delimiter for attribute " ++ show attr2
             ++ " in XML declaration"]
    else
      content <- remove_prefix 1 content ;;
      let valueEndPosition := find content [delimiter2] in
      if valueEndPosition =? npos then
        Fatal ["parser error: Incomplete attribute " ++ show attr2
               ++ " in XML declaration"]
      else
        value <- substr content 0 valueEndPosition ;;
        standalone <-
          (match standalone with
           | None => if sv_eqb attr2 (sv "standalone") then Ok (Some value)
                     else Fatal ["parser error: Invalid attribute " ++ show attr2
                                 ++ " in XML declaration"]
           | Some _ => Fatal ["parser error: Invalid attribute " ++ show attr2
                              ++ " in XML declaration"]
           end) ;;
        content <- remove_prefix (size_t_wrap (valueEndPosition + 1)) content ;;
        content <- skip_whitespace content ;;
        Ok (standalone, content).

(* parse XML declaration *)
Definition parseXMLDeclaration (s : State) : Result State :=
  let content := content s in
  content <- remove_prefix (size (sv "<?xml")) content ;;
  content <- skip_whitespace content ;;
  (* parse required version *)
  let nameEndPosition := find_first_of content (sv "= ") 0 in
  attr <- substr content 0 nameEndPosition ;;
  content <- remove_prefix nameEndPosition content ;;
  content <- skip_whitespace content ;;
  content <- remove_prefix (size (sv "=")) content ;;
  content <- skip_whitespace content ;;
  delimiter <- at_ content 0 ;;
  if negb (is_quote delimiter) then
    Fatal ["parser error: Invalid start delimiter for version in XML declaration"]
  else
    content <- remove_prefix 1 content ;;
    let valueEndPosition := find content [delimiter] in
    if valueEndPosition =? npos then
      Fatal ["parser error: Invalid end delimiter for version in XML declaration"]
    else if negb (sv_eqb attr (sv "version")) then
      Fatal ["parser error: Missing required first attribute version in XML declaration"]
    else
      version <- substr content 0 valueEndPosition ;;
      content <- remove_prefix valueEndPosition content ;;
      content <- remove_prefix 1 content ;;
      content <- skip_whitespace content ;;
      (* parse optional encoding and standalone attributes *)
      c0 <- at_ content 0 ;;
      ' (encoding, standalone, content) <-
        (if negb (Ascii.eqb c0 "?") then parseDeclarationAttribute2 content
         else Ok (None, None, content)) ;;
      c0 <- at_ content 0 ;;
      ' (standalone, content) <-
        (if negb (Ascii.eqb c0 "?") then parseDeclarationAttribute3 standalone content
         else Ok (standalone, content)) ;;
      let s := TRACE (XML_DECLARATION version encoding standalone) s in
      content <- remove_prefix (size (sv "?>")) content ;;
      content <- skip_whitespace content ;;
      Ok (with_content content s).

(* the while loop of the DOCTYPE scan; the result is the final [p] *)
Fixpoint doctypeLoop (fuel : nat) (content : string_view) (p : Z)
    (depthAngleBrackets : Z) (inSingleQuote inDoubleQuote inComment : bool)
  : Result Z :=
  match fuel with
  | O => OutOfFuel
  | S fuel =>
      let p := find_first_of content (["<"; ">"; SQUOTE; DQUOTE; "-"]%char) p in
      if p =? npos then Ok p
      else if compare_eq content p (sv "<!--") then
        doctypeLoop fuel content (p + 4) depthAngleBrackets
                    inSingleQuote inDoubleQuote true
      else if compare_eq content p (sv "-->") then
        doctypeLoop fuel content (p + 3) depthAngleBrackets
                    inSingleQuote inDoubleQuote false
      else if inComment then
        doctypeLoop fuel content (p + 1) depthAngleBrackets
                    inSingleQuote inDoubleQuote inComment
      else
        c <- at_ content p ;;
        let free := negb inSingleQuote && negb inDoubleQuote in
        ' (d, sq, dq) <-
          (if Ascii.eqb c "<" && free then
             d <- add_int depthAngleBrackets 1 ;; Ok (d, inSingleQuote, inDoubleQuote)
           else if Ascii.eqb c ">" && free then
             d <- add_int depthAngleBrackets (-1) ;; Ok (d, inSingleQuote, inDoubleQuote)
           else if Ascii.eqb c SQUOTE then
             Ok (depthAngleBrackets, negb inSingleQuote, inDoubleQuote)
           else if Ascii.eqb c DQUOTE then
             Ok (depthAngleBrackets, inSingleQuote, negb inDoubleQuote)
           else Ok (depthAngleBrackets, inSingleQuote, inDoubleQuote)) ;;
        if d =? 0 then Ok p
        else doctypeLoop fuel content (p + 1) d sq dq inComment
  end.

(* parse DOCTYPE *)
Definition parseDOCTYPE (s : State) : Result State :=
  let content := content s in
  content <- remove_prefix (size (sv "<!DOCTYPE")) content ;;
  p <- doctypeLoop (S (List.length content)) content 0 1 false false false ;;
  contents <- substr content 0 p ;;
  let s := TRACE (DOCTYPE contents) s in
  content <- remove_prefix p content ;;
  content <- remove_prefix (size (sv ">")) content ;;
  content <- skip_whitespace content ;;
  Ok (with_content content s).

(** ** The branches of the element loop *)

Inductive Control : Set := Continue | Break.

(* parse character entity references *)
Definition parseCharacterEntity (s : State) : Result State :=
  let content := content s in
  lt <- all_at content [(1, "l"); (2, "t"); (3, ";")]%char ;;
  ' (unescapedCharacter, escapedCharacter) <-
    (if lt then Ok (sv "<", sv "&lt;")
     else
       gt <- all_at content [(1, "g"); (2, "t"); (3, ";")]%char ;;
       if gt then Ok (sv ">", sv "&gt;")
       else
         amp <- all_at content [(1, "a"); (2, "m"); (3, "p"); (4, ";")]%char ;;
         if amp then Ok (sv "&", sv "&amp;")
         else Ok (sv "&", sv "&")) ;;
  content <- remove_prefix (size escapedCharacter) content ;;
  let s := TRACE (CHARACTERS unescapedCharacter) s in
  n <- add_int (textSize s) 1 ;;
  Ok (with_textSize n (with_content content s)).

(* parse character non-entity references *)
Definition parseCharacters (s : State) : Result State :=
  let content := content s in
  let characterEndPosition := find_first_of content (sv "<&") 0 in
  characters <- substr content 0 characterEndPosition ;;
  let s := TRACE (CHARACTERS characters) s in
  l <- add_int (loc s) (static_cast_int (count LF characters)) ;;
  n <- add_int (textSize s) (static_cast_int (size characters)) ;;
  content <- remove_prefix (size characters) content ;;
  Ok (with_content content (with_textSize n (with_loc l s))).

(* the search for a closing mark, with one refill when it is not in view *)
Definition findEnd (mark : string_view) (unterminated : string) (s : State)
  : Result (State * Z) :=
  let tagEndPosition := find (content s) mark in
  if tagEndPosition =? npos then
    (* refill content preserving unprocessed *)
    s <- refill s ;;
    let tagEndPosition := find (content s) mark in
    if tagEndPosition =? npos then Fatal [unterminated]
    else Ok (s, tagEndPosition)
  else Ok (s, tagEndPosition).

(* parse XML comment *)
Definition parseComment (s : State) : Result State :=
  view <- remove_prefix (size (sv "<!--")) (content s) ;;
  ' (s, tagEndPosition) <-
    findEnd (sv "-->") "parser error : Unterminated XML comment"
            (with_content view s) ;;
  comment <- substr (content s) 0 tagEndPosition ;;
  let s := TRACE (COMMENT comment) s in
  view <- remove_prefix tagEndPosition (content s) ;;
  view <- remove_prefix (size (sv "-->")) view ;;
  Ok (with_content view s).

(* parse CDATA *)
Definition parseCDATA (s : State) : Result State :=
  view <- remove_prefix (size (sv "<![CDATA[")) (content s) ;;
  ' (s, tagEndPosition) <-
    findEnd (sv "]]>") "parser error : Unterminated CDATA"
            (with_content view s) ;;
  characters <- substr (content s) 0 tagEndPosition ;;
  let s := TRACE (CDATA characters) s in
  n <- add_int (textSize s) (static_cast_int (size characters)) ;;
  l <- add_int (loc s) (static_cast_int (count LF characters)) ;;
  view <- remove_prefix tagEndPosition (content s) ;;
  view <- remove_prefix (size (sv "]]>")) view ;;
  Ok (with_content view (with_loc l (with_textSize n s))).

(* parse processing instruction *)
Definition parsePI (s : State) : Result State :=
  content <- remove_prefix (size (sv "<?")) (content s) ;;
  let tagEndPosition := find content (sv "?>") in
  if tagEndPosition =? npos then
    Fatal ["parser error: Incomplete XML declaration"]
  else
    let nameEndPosition := find_first_of content NAMEEND 0 in
    if nameEndPosition =? npos then
      Fatal ["parser error : Unterminated processing instruction"]
    else
      target <- substr content 0 nameEndPosition ;;
      data <- substr content nameEndPosition
                     (size_t_wrap (tagEndPosition - nameEndPosition)) ;;
      let s := TRACE (PI target data) s in
      content <- remove_prefix tagEndPosition content ;;
      content <- remove_prefix (size (sv "?>")) content ;;
      Ok (with_content content s).

(* the qualified name at the start of [content]: the end of the name and
   the position of its colon (0 when there is none) *)
Definition scanName (content : string_view) (nameEndPosition : Z) : Result (Z * Z) :=
  c <- at_ content nameEndPosition ;;
  if Ascii.eqb c ":" then
    Ok (find_first_of content NAMEEND (size_t_wrap (nameEndPosition + 1)),
        nameEndPosition)
  else Ok (nameEndPosition, 0).

Definition afterColon (colonPosition : Z) : Z :=
  if colonPosition =? 0 then 0 else size_t_wrap (colonPosition + 1).

(* parse end tag *)
Definition parseEndTag (s : State) : Result (Control * State) :=
  content <- remove_prefix (size (sv "</")) (content s) ;;
  c0 <- at_ content 0 ;;
  if Ascii.eqb c0 ":" then Fatal ["parser error : Invalid end tag name"]
  else
    let nameEndPosition := find_first_of content NAMEEND 0 in
    if nameEndPosition =? size content then
      name <- substr content 0 nameEndPosition ;;
      Fatal ["parser error : Unterminated end tag '" ++ show name ++ "'"]
    else
      ' (nameEndPosition, colonPosition) <- scanName content nameEndPosition ;;
      qName <- substr content 0 nameEndPosition ;;
      if empty qName then Fatal ["parser error: EndTag: invalid element name"]
      else
        prefix <- substr qName 0 colonPosition ;;
        localName <- substr qName (afterColon colonPosition) npos ;;
        let s := TRACE (END_TAG qName prefix localName) s in
        content <- remove_prefix nameEndPosition content ;;
        content <- skip_whitespace content ;;
        content <- remove_prefix (size (sv ">")) content ;;
        d <- add_int (depth s) (-1) ;;
        let s := with_depth d (with_content content s) in
        Ok (if d =? 0 then Break else Continue, s).

(* parse XML namespace *)
Definition parseNamespace (s : State) : Result State :=
  content <- remove_prefix (size (sv "xmlns")) (content s) ;;
  let nameEndPosition := find content (sv "=") in
  if nameEndPosition =? npos then Fatal ["parser error : incomplete namespace"]
  else
    c0 <- at_ content 0 ;;
    ' (content, nameEndPosition, prefixSize) <-
      (if Ascii.eqb c0 ":" then
         content <- remove_prefix (size (sv ":")) content ;;
         let nameEndPosition := size_t_wrap (nameEndPosition - 1) in
         Ok (content, nameEndPosition, nameEndPosition)
       else Ok (content, nameEndPosition, 0)) ;;
    prefix <- substr content 0 prefixSize ;;
    content <- remove_prefix nameEndPosition content ;;
    content <- remove_prefix (size (sv "=")) content ;;
    content <- skip_whitespace content ;;
    if empty content then Fatal ["parser error : incomplete namespace"]
    else
      delimiter <- at_ content 0 ;;
      if negb (is_quote delimiter) then Fatal ["parser error : incomplete namespace"]
      else
        content <- remove_prefix 1 content ;;
        let valueEndPosition := find content [delimiter] in
        if valueEndPosition =? npos then Fatal ["parser error : incomplete namespace"]
        else
          uri <- substr content 0 valueEndPosition ;;
          let s := TRACE (NAMESPACE prefix uri) s in
          content <- remove_prefix valueEndPosition content ;;
          content <- remove_prefix 1 content ;;
          content <- skip_whitespace content ;;
          Ok (with_content content s).

(* parse attribute *)
Definition parseAttribute (inEscape : bool) (s : State) : Result State :=
  let content := content s in
  let nameEndPosition := find_first_of content NAMEEND 0 in
  if nameEndPosition =? size content then
    Fatal ["parser error : Empty attribute name"]
  else
    ' (nameEndPosition, colonPosition) <- scanName content nameEndPosition ;;
    qName <- substr content 0 nameEndPosition ;;
    prefix <- substr qName 0 colonPosition ;;
    localName <- substr qName (afterColon colonPosition) npos ;;
    content <- remove_prefix nameEndPosition content ;;
    content <- skip_whitespace content ;;
    if empty content then
      Fatal ["parser error : attribute " ++ show qName ++ " incomplete attribute"]
    else
      c0 <- at_ content 0 ;;
      if negb (Ascii.eqb c0 "=") then
        Fatal ["parser error : attribute " ++ show qName ++ " missing ="]
      else
        content <- remove_prefix (size (sv "=")) content ;;
        content <- skip_whitespace content ;;
        delimiter <- at_ content 0 ;;
        if negb (is_quote delimiter) then
          Fatal ["parser error : attribute " ++ show qName ++ " missing delimiter"]
        else
          content <- remove_prefix 1 content ;;
          let valueEndPosition := find content [delimiter] in
          if valueEndPosition =? npos then
            Fatal ["parser error : attribute " ++ show qName ++ " missing delimiter"]
          else
            value <- substr content 0 valueEndPosition ;;
            let s := if sv_eqb localName (sv "url") then with_url value s else s in
            let s := TRACE (ATTRIBUTE qName prefix localName value) s in
            (* inEscape && localName == char: the value of strtol is not used *)
            content <- remove_prefix valueEndPosition content ;;
            content <- remove_prefix 1 content ;;
            content <- skip_whitespace content ;;
            Ok (with_content content s).

(* while (xmlNameMask[content[0]]) { namespace or attribute } *)
Fixpoint attributeLoop (fuel : nat) (inEscape : bool) (s : State) : Result State :=
  match fuel with
  | O => OutOfFuel
  | S fuel =>
      c0 <- at_ (content s) 0 ;;
      isName <- xmlNameMask c0 ;;
      if isName then
        xmlns <- all_at (content s)
                   [(0, "x"); (1, "m"); (2, "l"); (3, "n"); (4, "s")]%char ;;
        isNamespace <-
          (if xmlns then
             c5 <- at_ (content s) 5 ;;
             Ok (Ascii.eqb c5 ":" || Ascii.eqb c5 "=")
           else Ok false) ;;
        s <- (if isNamespace then parseNamespace s else parseAttribute inEscape s) ;;
        attributeLoop fuel inEscape s
      else Ok s
  end.

(* the counter of the element whose local name is one of the six *)
Definition countElement (localName : string_view) (s : State) : Result State :=
  if sv_eqb localName (sv "expr") then
    n <- add_int (exprCount s) 1 ;; Ok (with_exprCount n s)
  else if sv_eqb localName (sv "decl") then
    n <- add_int (declCount s) 1 ;; Ok (with_declCount n s)
  else if sv_eqb localName (sv "comment") then
    n <- add_int (commentCount s) 1 ;; Ok (with_commentCount n s)
  else if sv_eqb localName (sv "function") then
    n <- add_int (functionCount s) 1 ;; Ok (with_functionCount n s)
  else if sv_eqb localName (sv "unit") then
    n <- add_int (unitCount s) 1 ;; Ok (with_unitCount n s)
  else if sv_eqb localName (sv "class") then
    n <- add_int (classCount s) 1 ;; Ok (with_classCount n s)
  else Ok s.

(* parse start tag, up to the end of the attribute loop *)
Definition openStartTag (s : State)
  : Result (string_view * string_view * string_view * State) :=
  view <- remove_prefix (size (sv "<")) (content s) ;;
  c0 <- at_ view 0 ;;
  if Ascii.eqb c0 ":" then Fatal ["parser error : Invalid start tag name"]
  else
    let nameEndPosition := find_first_of view NAMEEND 0 in
    if nameEndPosition =? size view then
      name <- substr view 0 nameEndPosition ;;
      Fatal ["parser error : Unterminated start tag '" ++ show name ++ "'"]
    else
      ' (nameEndPosition, colonPosition) <- scanName view nameEndPosition ;;
      qName <- substr view 0 nameEndPosition ;;
      if empty qName then Fatal ["parser error: StartTag: invalid element name"]
      else
        prefix <- substr qName 0 colonPosition ;;
        localName <- substr qName (afterColon colonPosition) nameEndPosition ;;
        let s := TRACE (START_TAG qName prefix localName) s in
        let inEscape := sv_eqb localName (sv "escape") in
        s <- countElement localName s ;;
        view <- remove_prefix nameEndPosition view ;;
        view <- skip_whitespace view ;;
        s <- attributeLoop (S (List.length view)) inEscape (with_content view s) ;;
        Ok (qName, prefix, localName, s).

(* the end of the start tag: > opens the element, /> closes it at once,
   anything else is left in place *)
Definition closeStartTag (qName prefix localName : string_view) (s : State)
  : Result (Control * State) :=
  c0 <- at_ (content s) 0 ;;
  if Ascii.eqb c0 ">" then
    view <- remove_prefix (size (sv ">")) (content s) ;;
    d <- add_int (depth s) 1 ;;
    Ok (Continue, with_depth d (with_content view s))
  else
    selfClosing <-
      (if Ascii.eqb c0 "/" then
         c1 <- at_ (content s) 1 ;; Ok (Ascii.eqb c1 ">")
       else Ok false) ;;
    if selfClosing then
      view <- remove_prefix (size (sv "/>")) (content s) ;;
      let s := TRACE (END_TAG qName prefix localName) (with_content view s) in
      Ok (if depth s =? 0 then Break else Continue, s)
    else Ok (Continue, s).

(* parse start tag *)
Definition parseStartTag (s : State) : Result (Control * State) :=
  ' (qName, prefix, localName, s) <- openStartTag s ;;
  closeStartTag qName prefix localName s.

(** ** The element loop *)

Inductive Branch : Set :=
| AtEntity | AtCharacters | AtComment | AtCDATA | AtPI | AtEndTag | AtStartTag
| AtInvalid.

(* the chain of tests on the first bytes of the view *)
Definition branch (content : string_view) : Result Branch :=
  c0 <- at_ content 0 ;;
  if Ascii.eqb c0 "&" then Ok AtEntity
  else if negb (Ascii.eqb c0 "<") then Ok AtCharacters
  else
    isComment <- all_at content [(1, "!"); (2, "-"); (3, "-")]%char ;;
    if isComment then Ok AtComment
    else
      isCDATA <- all_at content
                   [(1, "!"); (2, "["); (3, "C"); (4, "D"); (5, "A"); (6, "T");
                    (7, "A"); (8, "[")]%char ;;
      if isCDATA then Ok AtCDATA
      else
        isPI <- all_at content [(1, "?")]%char ;;
        if isPI then Ok AtPI
        else
          isEndTag <- all_at content [(1, "/")]%char ;;
          if isEndTag then Ok AtEndTag
          else if Ascii.eqb c0 "<" then Ok AtStartTag
          else Ok AtInvalid.

Definition dispatch (s : State) : Result (Control * State) :=
  b <- branch (content s) ;;
  match b with
  | AtEntity => s <- parseCharacterEntity s ;; Ok (Continue, s)
  | AtCharacters => s <- parseCharacters s ;; Ok (Continue, s)
  | AtComment => s <- parseComment s ;; Ok (Continue, s)
  | AtCDATA => s <- parseCDATA s ;; Ok (Continue, s)
  | AtPI => s <- parsePI s ;; Ok (Continue, s)
  | AtEndTag => parseEndTag s
  | AtStartTag => parseStartTag s
  | AtInvalid => Fatal ["parser error : invalid XML document"]
  end.

(* one pass through the body of while (true) *)
Definition iteration (s : State) : Result (Control * State) :=
  if doneReading s then
    if empty (content s) then Ok (Break, s) else dispatch s
  else if size (content s) <? BLOCK_SIZE then
    (* refill content preserving unprocessed *)
    s <- refill s ;; dispatch s
  else dispatch s.

Fixpoint elementLoop (fuel : nat) (s : State) : Result State :=
  match fuel with
  | O => OutOfFuel
  | S fuel =>
      ' (control, s) <- iteration s ;;
      match control with
      | Break => Ok s
      | Continue => elementLoop fuel s
      end
  end.

(** ** After the root element *)

(* content.remove_prefix(first non-blank, or size() when there is none) *)
Definition skip_trailing_whitespace (content : string_view) : Result string_view :=
  let first := find_first_not_of content WHITESPACE in
  remove_prefix (if first =? npos then size content else first) content.

Fixpoint trailingComments (fuel : nat) (s : State) : Result State :=
  match fuel with
  | O => OutOfFuel
  | S fuel =>
      isComment <-
        (if empty (content s) then Ok false
         else all_at (content s) [(0, "<"); (1, "!"); (2, "-"); (3, "-")]%char) ;;
      if isComment then
        s <- parseComment s ;;
        view <- skip_trailing_whitespace (content s) ;;
        trailingComments fuel (with_content view s)
      else Ok s
  end.

(** ** [main] *)

Fixpoint pending (reads : list ReadResult) : nat :=
  match reads with
  | [] => O
  | Data bytes :: rest => (List.length bytes + pending rest)%nat
  | ReadError :: rest => pending rest
  end.

(* the bytes not yet parsed: those in view and those still in the source *)
Definition unparsed (s : State) : nat :=
  (List.length (content s) + pending (reads (inputArchive s)))%nat.

Definition initial_state (a : Archive) : State :=
  {| buffer := initial_buffer; inputArchive := a; content := []; url := [];
     textSize := 0; loc := 0; exprCount := 0; functionCount := 0;
     classCount := 0; unitCount := 0; declCount := 0; commentCount := 0;
     totalBytes := 0; depth := 0; doneReading := false; trace := [] |}.

(* [main] up to the first read and the prologue *)
Definition prologue (a : Archive) : Result State :=
  let s := TRACE START_DOCUMENT (initial_state a) in
  r <- refillContent (buffer s) (content s) (inputArchive s) ;;
  if bytesRead r <? 0 then
    Fatal (refill_cerr r ++ ["parser error : File input error"])
  else if bytesRead r =? 0 then Fatal ["parser error : Empty file"]
  else
    total <- add_long (totalBytes s) (bytesRead r) ;;
    let s :=
      {| buffer := new_buffer r; inputArchive := new_archive r;
         content := new_content r; url := url s;
         textSize := textSize s; loc := loc s; exprCount := exprCount s;
         functionCount := functionCount s; classCount := classCount s;
         unitCount := unitCount s; declCount := declCount s;
         commentCount := commentCount s; totalBytes := total;
         depth := depth s; doneReading := doneReading s; trace := trace s |} in
    view <- skip_whitespace (content s) ;;
    let s := with_content view s in
    isDeclaration <- all_at (content s)
                       [(0, "<"); (1, "?"); (2, "x"); (3, "m"); (4, "l"); (5, " ")]%char ;;
    s <- (if isDeclaration then parseXMLDeclaration s else Ok s) ;;
    isDoctype <- all_at (content s)
                   [(1, "!"); (0, "<"); (2, "D"); (3, "O"); (4, "C"); (5, "T");
                    (6, "Y"); (7, "P"); (8, "E"); (9, " ")]%char ;;
    if isDoctype then parseDOCTYPE s else Ok s.

(* [main] from the element loop to the test for extra content *)
Definition document (s : State) : Result State :=
  s <- elementLoop (S (unparsed s)) s ;;
  view <- skip_trailing_whitespace (content s) ;;
  let s := with_content view s in
  s <- trailingComments (S (unparsed s)) s ;;
  if negb (empty (content s)) then
    Fatal ["parser error : extra content at end of document"]
  else Ok (TRACE END_DOCUMENT s).

Definition parse (a : Archive) : Result State :=
  s <- prologue a ;; document s.

(* the values of the table, in the order of its rows *)
Record Report : Set := {
  report_url : string_view;
  Characters : Z;
  LOC : Z;
  Files : Z;
  Classes : Z;
  Functions : Z;
  Declarations : Z;
  Expressions : Z;
  Comments : Z
}.

(* int files = std::max(unitCount - 1, 1) *)
Definition files (unitCount : Z) : Result Z :=
  n <- add_int unitCount (-1) ;; Ok (Z.max n 1).

Definition report (s : State) : Result Report :=
  f <- files (unitCount s) ;;
  Ok {| report_url := url s; Characters := textSize s; LOC := loc s; Files := f;
        Classes := classCount s; Functions := functionCount s;
        Declarations := declCount s; Expressions := exprCount s;
        Comments := commentCount s |}.

(** The outcome of the process.  [cout] is the report when it was printed;
    [cerr] holds the diagnostics.  The statistics that a successful run
    writes to [std::clog] depend on the clock and are left out.  [main]
    is the run in an environment whose locale is installed; [main_in]
    below is the run in either environment. *)
Inductive Exit : Set :=
| Exited (status : Z) (cout : option Report) (cerr : list string)
| Crashed (v : Violation)
| Unfinished.

Definition main (a : Archive) : Exit :=
  match s <- parse a ;; report s with
  | Ok r => Exited 0 (Some r) []
  | Fatal cerr => Exited 1 None cerr
  | Undefined v => Crashed v
  | OutOfFuel => Unfinished
  end.

(** Between the computation of [files] and the first row of the table
    the source sets the locale of [std::cout] to the one the environment
    names (line 631).  The constructor of [std::locale] throws
    [std::runtime_error] when that locale is not installed; nothing in
    [main] catches it, so the run ends in [std::terminate], after a
    parse that has succeeded and before anything is written. *)
Inductive Ending : Set :=
| Ends (e : Exit)
| Terminated.

Definition main_in (locale_installed : bool) (a : Archive) : Ending :=
  match s <- parse a ;; report s with
  | Ok r => if locale_installed then Ends (Exited 0 (Some r) []) else Terminated
  | Fatal cerr => Ends (Exited 1 None cerr)
  | Undefined v => Ends (Crashed v)
  | OutOfFuel => Ends Unfinished
  end.

(** ** Byte sources *)

(* standard input holding [bytes], read by libarchive: every read is
   filled as far as the data goes *)
Definition stdin (bytes : string_view) : Archive :=
  {| handle := Null; open_ok := true; header_ok := true; reads := [Data bytes] |}.

Fixpoint chunks (fuel : nat) (k : nat) (bytes : string_view) : list ReadResult :=
  match fuel, bytes with
  | S fuel, _ :: _ => Data (firstn k bytes) :: chunks fuel k (skipn k bytes)
  | _, _ => []
  end.

(* a source that delivers [bytes] at most [k] at a time *)
Definition chunked (k : nat) (bytes : string_view) : Archive :=
  {| handle := Null; open_ok := true; header_ok := true;
     reads := chunks (List.length bytes) k bytes |}.

(** ** Measures used by the statements *)

(* the line feeds of a traced event: those of character data *)
Definition event_newlines (e : Event) : Z :=
  match e with
  | CHARACTERS characters => count LF characters
  | CDATA characters => count LF characters
  | _ => 0
  end.

(* the line feeds of the text runs and CDATA sections of a trace *)
Fixpoint newlines (t : list Event) : Z :=
  match t with
  | [] => 0
  | e :: rest => event_newlines e + newlines rest
  end.

(* the measures of the report that do not depend on the clock *)
Definition counters (s : State) : Z * Z * Z * Z * Z * Z * Z * Z * string_view :=
  (textSize s, loc s, exprCount s, declCount s, commentCount s,
   functionCount s, unitCount s, classCount s, url s).

(* what holds of the variables of [main] whenever the loop is entered *)
Definition Inv (s : State) : Prop :=
  size (content s) <= BUFFER_SIZE
  /\ loc s = newlines (trace s)
  /\ 0 <= unitCount s <= INT_MAX.

(** ** Observations of a run *)

(* the measures a run ends with *)
Definition measures (r : Result State) :=
  s <- r ;; Ok (counters s).

(* the events of a run, oldest first *)
Definition events (r : Result State) : Result (list Event) :=
  s <- r ;; Ok (rev (trace s)).

(* the nesting depth a run ends with *)
Definition final_depth (r : Result State) : Result Z :=
  s <- r ;; Ok (depth s).

(* the state in which [main] enters the element loop, the view holding
   [bytes], nothing read yet from [a] *)
Definition looking_at (bytes : string_view) (a : Archive) (done : bool) : State :=
  {| buffer := bytes; inputArchive := a; content := bytes; url := [];
     textSize := 0; loc := 0; exprCount := 0; functionCount := 0;
     classCount := 0; unitCount := 0; declCount := 0; commentCount := 0;
     totalBytes := size bytes; depth := 1; doneReading := done; trace := [] |}.

(* a source already opened that still holds [bytes] *)
Definition opened (bytes : string_view) : Archive :=
  {| handle := Live; open_ok := true; header_ok := true; reads := [Data bytes] |}.

(** ** Documents used in the statements *)

Definition xs (n : Z) : string_view := repeat "x"%char (Z.to_nat n).

(* <unit/> *)
Definition self_closing_root : string_view := sv "<unit/>".

(* <unit/><unit/> *)
Definition two_roots : string_view := (self_closing_root ++ self_closing_root)%list.

(* the four references of the entity example inside one element *)
Definition entity_document : string_view := sv "<a>&lt;&gt;&amp;&zzz;</a>".

(* the text a, line feed, b, line feed, c inside one element *)
Definition three_lines : string_view :=
  (sv "<a>a" ++ LF :: sv "b" ++ LF :: sv "c</a>")%list.

(* line feeds inside a tag, an attribute value, a comment, a text run and
   a CDATA section *)
Definition scattered_newlines : string_view :=
  (sv "<a" ++ LF :: sv "b='x" ++ LF :: sv "y'><!--" ++ LF :: sv "-->a" ++ LF
     :: sv "b" ++ LF :: sv "c<![CDATA[" ++ LF :: sv "]]></a>")%list.

(* a processing instruction of 5007 bytes after 4000 bytes of text *)
Definition pi_document : string_view :=
  (sv "<a>" ++ xs 4000 ++ sv "<?pi " ++ xs 5000 ++ sv "?></a>")%list.

(* on standard input, a processing instruction of 4103 bytes that starts
   with exactly BLOCK_SIZE bytes left of the first read, and the same
   after one more byte of text *)
Definition straddling_pi_document : string_view :=
  (sv "<a>" ++ xs (BUFFER_SIZE - 2 * BLOCK_SIZE - 3) ++ sv "<?pi " ++ xs 4096
     ++ sv "?></a>")%list.

Definition shifted_pi_document : string_view :=
  (sv "<a>" ++ xs (BUFFER_SIZE - 2 * BLOCK_SIZE - 2) ++ sv "<?pi " ++ xs 4096
     ++ sv "?></a>")%list.

(* the same with a comment and with a CDATA section *)
Definition long_comment_document : string_view :=
  (sv "<a>" ++ xs 4000 ++ sv "<!-- " ++ xs 5000 ++ sv "--></a>")%list.

Definition long_cdata_document : string_view :=
  (sv "<a>" ++ xs 4000 ++ sv "<![CDATA[" ++ xs 5000 ++ sv "]]></a>")%list.

Definition comment_document : string_view :=
  sv "<a><!-- a comment longer than chunk --></a>".

(* a root element followed by text *)
Definition trailing_text_document : string_view := sv "<a/>junk".

(* a well-formed document whose comment holds BUFFER_SIZE bytes *)
Definition megabyte_comment : string_view :=
  (sv "<a><!--" ++ xs BUFFER_SIZE ++ sv "--></a>")%list.

(* a root unit wrapping four units *)
Definition five_units : string_view :=
  sv "<unit><unit/><unit/><unit/><unit/></unit>".

(* the table of a document without url *)
Definition table (characters lines nfiles : Z) : Report :=
  {| report_url := []; Characters := characters; LOC := lines; Files := nfiles;
     Classes := 0; Functions := 0; Declarations := 0; Expressions := 0;
     Comments := 0 |}.

(* a start tag whose attribute name starts with a colon and whose value
   holds a line feed, and a comment and a line feed before the root *)
Definition tag_newline_document : string_view :=
  (sv "<a :b='x" ++ LF :: sv "y'></a>")%list.

Definition prolog_newline_document : string_view :=
  (sv "<!-- c -->" ++ LF :: sv "<a/>")%list.

(* the reference, or the lone ampersand, at the start of the view *)
Definition escaped_at (content : string_view) : string_view :=
  if starts_with (sv "&lt;") content then sv "&lt;"
  else if starts_with (sv "&gt;") content then sv "&gt;"
  else if starts_with (sv "&amp;") content then sv "&amp;"
  else sv "&".

(* the tests content[i] == x1 && content[i+1] == x2 && ... *)
Fixpoint indexed (i : Z) (needle : string_view) : list (Z * ascii) :=
  match needle with
  | [] => []
  | x :: rest => (i, x) :: indexed (i + 1) rest
  end.

(** ** Measures of a trace *)

(* the bytes of character data of an event *)
Definition event_characters (e : Event) : Z :=
  match e with
  | CHARACTERS characters => size characters
  | CDATA characters => size characters
  | _ => 0
  end.

Fixpoint characters_total (t : list Event) : Z :=
  match t with
  | [] => 0
  | e :: rest => event_characters e + characters_total rest
  end.

(* the start tags of a trace whose local name is [name] *)
Definition starts (name : string_view) (e : Event) : Z :=
  match e with
  | START_TAG _ _ localName => if sv_eqb localName name then 1 else 0
  | _ => 0
  end.

Fixpoint started (name : string_view) (t : list Event) : Z :=
  match t with
  | [] => 0
  | e :: rest => starts name e + started name rest
  end.

(* the value of the most recent attribute of a trace with local name url *)
Fixpoint last_url (t : list Event) : string_view :=
  match t with
  | [] => []
  | ATTRIBUTE _ _ localName value :: rest =>
      if sv_eqb localName (sv "url") then value else last_url rest
  | _ :: rest => last_url rest
  end.

(* the bytes the source has delivered and those it still holds *)
Definition delivered (s : State) : Z :=
  totalBytes s + Z.of_nat (pending (reads (inputArchive s))).

(* the variables of [main] agree with the events traced so far *)
Definition Measured (s : State) : Prop :=
  textSize s = characters_total (trace s)
  /\ exprCount s = started (sv "expr") (trace s)
  /\ declCount s = started (sv "decl") (trace s)
  /\ commentCount s = started (sv "comment") (trace s)
  /\ functionCount s = started (sv "function") (trace s)
  /\ unitCount s = started (sv "unit") (trace s)
  /\ classCount s = started (sv "class") (trace s)
  /\ url s = last_url (trace s).

(** ** Further documents *)

(* a unit with two url attributes and a prefixed expr element *)
Definition url_document : string_view :=
  sv "<unit url='first' src:url='second'><src:expr>a&amp;b</src:expr><decl/></unit>".

(* the bytes for which [xmlNameMask] holds a 1: letters, digits, hyphen,
   full stop and underscore *)
Definition name_byte (c : ascii) : bool :=
  let n := Z.of_N (N_of_ascii c) in
  ((48 <=? n) && (n <=? 57)) || ((65 <=? n) && (n <=? 90))
  || ((97 <=? n) && (n <=? 122))
  || Ascii.eqb c "-" || Ascii.eqb c "." || Ascii.eqb c "_".

(* a source at the start of the program, before [refillContent] has set it up *)
Definition source (open header : bool) (r : list ReadResult) : Archive :=
  {| handle := Null; open_ok := open; header_ok := header; reads := r |}.

(** ** Diagnostics *)

(* what a run that ends with status 1 has written to std::cerr *)
Inductive Diagnostic : list string -> Prop :=
| input_open :
    Diagnostic ["input error: Invalid data in standard input";
                "parser error : File input error"]
| input_header :
    Diagnostic ["input error: Invalid data in standard input header";
                "parser error : File input error"]
| file_input : Diagnostic ["parser error : File input error"]
| empty_file : Diagnostic ["parser error : Empty file"]
| version_start :
    Diagnostic ["parser error: Invalid start delimiter for version in XML declaration"]
| version_end :
    Diagnostic ["parser error: Invalid end delimiter for version in XML declaration"]
| version_missing :
    Diagnostic ["parser error: Missing required first attribute version in XML declaration"]
| declaration_incomplete :
    Diagnostic ["parser error: Incomplete attribute in XML declaration"]
| declaration_delimiter (attr : string) :
    Diagnostic ["parser error: Invalid end delimiter for attribute " ++ attr
                ++ " in XML declaration"]
| declaration_unfinished (attr : string) :
    Diagnostic ["parser error: Incomplete attribute " ++ attr
                ++ " in XML declaration"]
| declaration_invalid (attr : string) :
    Diagnostic ["parser error: Invalid attribute " ++ attr ++ " in XML declaration"]
| comment_unterminated : Diagnostic ["parser error : Unterminated XML comment"]
| cdata_unterminated : Diagnostic ["parser error : Unterminated CDATA"]
| pi_incomplete : Diagnostic ["parser error: Incomplete XML declaration"]
| end_tag_name : Diagnostic ["parser error : Invalid end tag name"]
| end_tag_empty : Diagnostic ["parser error: EndTag: invalid element name"]
| start_tag_name : Diagnostic ["parser error : Invalid start tag name"]
| start_tag_empty : Diagnostic ["parser error: StartTag: invalid element name"]
| namespace_incomplete : Diagnostic ["parser error : incomplete namespace"]
| attribute_equals (qName : string) :
    Diagnostic ["parser error : attribute " ++ qName ++ " missing ="]
| attribute_delimiter (qName : string) :
    Diagnostic ["parser error : attribute " ++ qName ++ " missing delimiter"]
| extra_content : Diagnostic ["parser error : extra content at end of document"].

(* the last character of a message *)
Fixpoint last_char (s : string) : option ascii :=
  match s with
  | EmptyString => None
  | String c EmptyString => Some c
  | String _ rest => last_char rest
  end.

(* an element left open at the end of the input *)
Definition unclosed_document : string_view := sv "<unit><unit><expr>".

(* no counter and no depth at the end of the range of [int] *)
Definition below_INT_MAX (s : State) : Prop :=
  INT_MIN <= exprCount s < INT_MAX /\ INT_MIN <= declCount s < INT_MAX
  /\ INT_MIN <= commentCount s < INT_MAX /\ INT_MIN <= functionCount s < INT_MAX
  /\ INT_MIN <= unitCount s < INT_MAX /\ INT_MIN <= classCount s < INT_MAX
  /\ INT_MIN <= depth s < INT_MAX.

(* the counter that a start tag with local name [name] raises *)
Definition counted (name localName : string_view) : Z :=
  if sv_eqb localName name then 1 else 0.

(** ** The closing bracket of a DOCTYPE *)

(* the index of the first > outside quotes at which the count of angle
   brackets, [d] at index [i], comes back to zero *)
Fixpoint closing_bracket (view : string_view) (i d : Z)
    (inSingleQuote inDoubleQuote : bool) : option Z :=
  match view with
  | [] => None
  | c :: rest =>
      let free := negb inSingleQuote && negb inDoubleQuote in
      if Ascii.eqb c "<" && free then
        closing_bracket rest (i + 1) (d + 1) inSingleQuote inDoubleQuote
      else if Ascii.eqb c ">" && free then
        if d - 1 =? 0 then Some i
        else closing_bracket rest (i + 1) (d - 1) inSingleQuote inDoubleQuote
      else if Ascii.eqb c SQUOTE then
        closing_bracket rest (i + 1) d (negb inSingleQuote) inDoubleQuote
      else if Ascii.eqb c DQUOTE then
        closing_bracket rest (i + 1) d inSingleQuote (negb inDoubleQuote)
      else closing_bracket rest (i + 1) d inSingleQuote inDoubleQuote
  end.

(* a DOCTYPE with brackets and a quoted > inside its contents *)
Definition doctype_document : string_view :=
  sv "<!DOCTYPE a [<!ENTITY b '>'>]>  <a/>".

(** * Properties *)

(** ** The result monad *)

Lemma bind_Ok {A B : Type} (r : Result A) (k : A -> Result B) (b : B) :
  bind r k = Ok b -> exists a, r = Ok a /\ k a = Ok b.
Proof. destruct r; simpl; intros H; try discriminate. exists a. tauto. Qed.

Ltac inv_ok :=
  repeat match goal with
  | H : Ok _ = Ok _ |- _ => inversion H; subst; clear H
  | H : Fatal _ = Ok _ |- _ => discriminate H
  | H : Undefined _ = Ok _ |- _ => discriminate H
  | H : OutOfFuel = Ok _ |- _ => discriminate H
  | H : bind _ _ = Ok _ |- _ =>
      let a := fresh "a" in let E := fresh "E" in
      apply bind_Ok in H; destruct H as (a & E & H); cbv beta in H
  | H : (if ?b then _ else _) = Ok _ |- _ =>
      let E := fresh "E" in destruct b eqn:E; try discriminate H
  | H : match ?x with (_, _) => _ end = Ok _ |- _ => destruct x
  | H : match ?x with Some _ => _ | None => _ end = Ok _ |- _ =>
      let E := fresh "E" in destruct x eqn:E; try discriminate H
  end.

(* closed statements are settled by running the embedding *)
Ltac evaluate :=
  repeat match goal with |- _ /\ _ => split end; vm_compute; reflexivity.

(** ** Views *)

Lemma size_nonneg (content : string_view) : 0 <= size content.
Proof. unfold size. lia. Qed.

Lemma size_cons (c : ascii) (content : string_view) :
  size (c :: content) = size content + 1.
Proof. unfold size. simpl List.length. lia. Qed.

Lemma size_app (a b : string_view) : size (a ++ b)%list = size a + size b.
Proof. unfold size. rewrite length_app. lia. Qed.

Lemma remove_prefix_Ok (n : Z) (content rest : string_view) :
  remove_prefix n content = Ok rest ->
  0 <= n <= size content /\ rest = skipn (Z.to_nat n) content
  /\ size rest = size content - n.
Proof.
  unfold remove_prefix. intros H.
  destruct ((0 <=? n) && (n <=? size content)) eqn:E; [|discriminate].
  apply andb_true_iff in E. destruct E as [E1 E2].
  apply Z.leb_le in E1, E2. inversion H; subst.
  repeat split; try lia.
  unfold size in *. rewrite length_skipn. lia.
Qed.

Lemma remove_prefix_length (n : Z) (content rest : string_view) :
  remove_prefix n content = Ok rest ->
  (List.length rest = List.length content - Z.to_nat n)%nat
  /\ (Z.to_nat n <= List.length content)%nat.
Proof.
  intros H. apply remove_prefix_Ok in H. destruct H as (H1 & -> & H3).
  rewrite length_skipn. unfold size in *. lia.
Qed.

Lemma skip_whitespace_length (content rest : string_view) :
  skip_whitespace content = Ok rest ->
  (List.length rest <= List.length content)%nat.
Proof.
  unfold skip_whitespace. intros H. apply remove_prefix_length in H. lia.
Qed.

Lemma skip_trailing_whitespace_length (content rest : string_view) :
  skip_trailing_whitespace content = Ok rest ->
  (List.length rest <= List.length content)%nat.
Proof.
  unfold skip_trailing_whitespace. intros H. apply remove_prefix_length in H. lia.
Qed.

Lemma at_Ok (content : string_view) (pos : Z) (c : ascii) :
  at_ content pos = Ok c ->
  0 <= pos < size content /\ nth_error content (Z.to_nat pos) = Some c.
Proof.
  unfold at_. intros H.
  destruct ((0 <=? pos) && (pos <? size content)) eqn:E; [|discriminate].
  apply andb_true_iff in E. destruct E as [E1 E2].
  apply Z.leb_le in E1. apply Z.ltb_lt in E2.
  destruct (nth_error content (Z.to_nat pos)) eqn:N; [|discriminate].
  inversion H; subst. split; [lia|reflexivity].
Qed.

Lemma at_nonempty (content : string_view) (pos : Z) (c : ascii) :
  at_ content pos = Ok c -> (1 <= List.length content)%nat.
Proof. intros H. apply at_Ok in H. unfold size in H. lia. Qed.

Lemma substr_size (content : string_view) (pos n : Z) (r : string_view) :
  substr content pos n = Ok r -> size r <= size content.
Proof.
  unfold substr. intros H.
  destruct ((0 <=? pos) && (pos <=? size content)) eqn:E; [|discriminate].
  inversion H; subst; clear H.
  unfold size. destruct (n <? _).
  - rewrite length_firstn, length_skipn. lia.
  - rewrite length_skipn. lia.
Qed.

Lemma count_bounds (c : ascii) (characters : string_view) :
  0 <= count c characters <= size characters.
Proof.
  induction characters as [|x rest IH]; simpl count.
  - unfold size; simpl; lia.
  - rewrite size_cons. destruct (Ascii.eqb x c); lia.
Qed.

Lemma static_cast_int_small (n : Z) :
  0 <= n <= INT_MAX -> static_cast_int n = n.
Proof.
  unfold static_cast_int, INT_MAX. intros H.
  rewrite Z.mod_small by lia. lia.
Qed.

Lemma add_int_Ok (a b r : Z) :
  add_int a b = Ok r -> r = a + b /\ INT_MIN <= r <= INT_MAX.
Proof.
  unfold add_int, in_int. intros H.
  destruct ((INT_MIN <=? a + b) && (a + b <=? INT_MAX)) eqn:E; [|discriminate].
  inversion H; subst. apply andb_true_iff in E. destruct E as [E1 E2].
  apply Z.leb_le in E1, E2. lia.
Qed.

(** ** The byte source and the refill *)

Lemma archive_read_data_spec (a a' : Archive) (s status : Z) (bytes : string_view) :
  0 <= s ->
  archive_read_data a s = (status, bytes, a') ->
  (status = ARCHIVE_FATAL /\ bytes = []
   \/ status = size bytes /\ status <= s
      /\ (List.length bytes + pending (reads a') = pending (reads a))%nat)
  /\ handle a' = handle a.
Proof.
  unfold archive_read_data. intros Hs H.
  destruct (reads a) as [|[data|] rest] eqn:R.
  - inversion H; subst. split; [right|reflexivity].
    rewrite R. unfold size; simpl. repeat split; lia.
  - destruct (size data <=? s) eqn:E; inversion H; subst; clear H.
    + apply Z.leb_le in E. split; [right|reflexivity].
      simpl. repeat split; lia.
    + apply Z.leb_gt in E. split; [right|reflexivity]. simpl.
      unfold size in *. rewrite length_firstn, length_skipn.
      repeat split; lia.
  - inversion H; subst. split; [left; split; reflexivity|reflexivity].
Qed.

Lemma refillContent_Ok (buffer : list ascii) (content : string_view)
    (a : Archive) (r : Refilled) :
  refillContent buffer content a = Ok r ->
  0 <= bytesRead r ->
  size (new_content r) <= size content + bytesRead r
  /\ size content + bytesRead r <= BUFFER_SIZE
  /\ bytesRead r <= BUFFER_SIZE - BLOCK_SIZE
  /\ (Z.to_nat (bytesRead r) + pending (reads (new_archive r))
      = pending (reads a))%nat.
Proof.
  unfold refillContent. intros H Hpos.
  set (setup := match handle a with Null => _ | _ => _ end) in H.
  assert (Hsetup : forall b, setup = inr b -> reads b = reads a).
  { subst setup. intros b. destruct (handle a).
    - destruct (negb _); [discriminate|].
      destruct (negb _); [discriminate|].
      intros E; inversion E; reflexivity.
    - intros E; inversion E; reflexivity.
    - intros E; inversion E; reflexivity. }
  destruct setup as [[a1 msg]|a1].
  { inversion H; subst; simpl in Hpos. lia. }
  specialize (Hsetup a1 eq_refl).
  assert (Hread : forall x, match handle a1 with
            | Freed => Undefined UseAfterFree | _ => x end = Ok r -> x = Ok r).
  { intros x. destruct (handle a1); [tauto|tauto|discriminate]. }
  apply Hread in H. clear Hread.
  destruct (archive_read_data a1 (BUFFER_SIZE - BLOCK_SIZE))
    as [[status bytes] a2] eqn:R.
  apply archive_read_data_spec in R; [|unfold BUFFER_SIZE, BLOCK_SIZE; lia].
  destruct R as [R _].
  destruct (BUFFER_SIZE <? size content + size bytes) eqn:O; [discriminate|].
  apply Z.ltb_ge in O.
  destruct (status <? 0) eqn:N.
  { inversion H; subst; simpl in Hpos. lia. }
  apply Z.ltb_ge in N. inversion H; subst; clear H. simpl in *.
  destruct R as [[R _]|(R1 & R2 & R3)].
  { unfold ARCHIVE_FATAL in R. lia. }
  assert (Hr : reads (if status =? 0 then with_handle Freed a2 else a2)
               = reads a2) by (destruct (_ =? _); reflexivity).
  rewrite Hr, <- Hsetup. subst status.
  unfold BUFFER_SIZE, BLOCK_SIZE in *.
  repeat split; try lia.
  - unfold size in *. rewrite length_firstn. lia.
  - unfold size in *. lia.
Qed.

Lemma refill_Ok (s s' : State) :
  refill s = Ok s' ->
  size (content s') <= BUFFER_SIZE
  /\ (unparsed s' <= unparsed s)%nat
  /\ counters s' = counters s /\ depth s' = depth s /\ trace s' = trace s.
Proof.
  unfold refill. intros H. inv_ok.
  match goal with H : (bytesRead _ <? 0) = false |- _ => apply Z.ltb_ge in H end.
  match goal with H : refillContent _ _ _ = Ok _ |- _ =>
    apply refillContent_Ok in H; [|assumption]; destruct H as (R1 & R2 & R3 & R4)
  end.
  unfold unparsed, counters. simpl.
  pose proof (size_nonneg (content s)). unfold size in *.
  repeat split; try reflexivity; lia.
Qed.

(** ** What each branch of the element loop does to the variables *)

Ltac facts :=
  repeat match goal with
  | H : remove_prefix _ _ = Ok _ |- _ => apply remove_prefix_length in H
  | H : skip_whitespace _ = Ok _ |- _ => apply skip_whitespace_length in H
  | H : skip_trailing_whitespace _ = Ok _ |- _ =>
      apply skip_trailing_whitespace_length in H
  | H : at_ _ _ = Ok _ |- _ => apply at_nonempty in H
  | H : add_int _ _ = Ok _ |- _ => apply add_int_Ok in H
  | H : (_ =? _) = true |- _ => apply Z.eqb_eq in H
  | H : (_ =? _) = false |- _ => apply Z.eqb_neq in H
  | H : (_ <? _) = true |- _ => apply Z.ltb_lt in H
  | H : (_ <? _) = false |- _ => apply Z.ltb_ge in H
  end.

Ltac finish :=
  facts; unfold unparsed, counters, size in *; simpl in *;
  repeat split; try reflexivity; try lia.

Lemma parseCharacterEntity_effect (s s' : State) :
  parseCharacterEntity s = Ok s' ->
  Inv s ->
  Inv s' /\ (unparsed s' < unparsed s)%nat /\ depth s' = depth s
  /\ unitCount s' = unitCount s.
Proof.
  unfold parseCharacterEntity, Inv. intros H (I1 & I2 & I3). inv_ok; finish.
Qed.

Lemma first_of_from_bounds (set content : string_view) (i : Z) :
  first_of_from set content i = npos
  \/ i <= first_of_from set content i < i + size content.
Proof.
  revert i. induction content as [|c rest IH]; intros i; simpl.
  - left; reflexivity.
  - rewrite size_cons. pose proof (size_nonneg rest).
    destruct (mem c set); [right; lia|].
    destruct (IH (i + 1)) as [->|IH']; [left; reflexivity|right; lia].
Qed.

Lemma find_first_of_bounds (content set : string_view) (pos : Z) :
  find_first_of content set pos = npos
  \/ pos <= find_first_of content set pos < size content.
Proof.
  unfold find_first_of.
  destruct ((0 <=? pos) && (pos <? size content)) eqn:E; [|left; reflexivity].
  apply andb_true_iff in E. destruct E as [E1 E2].
  apply Z.leb_le in E1. apply Z.ltb_lt in E2.
  destruct (first_of_from_bounds set (skipn (Z.to_nat pos) content) pos)
    as [->|B]; [left; reflexivity|right].
  unfold size in *. rewrite length_skipn in B. lia.
Qed.

Lemma find_first_of_skips (content set : string_view) (c : ascii) :
  at_ content 0 = Ok c -> mem c set = false ->
  find_first_of content set 0 = npos \/ 1 <= find_first_of content set 0.
Proof.
  intros A M. apply at_Ok in A. destruct A as [_ A].
  destruct content as [|x rest]; [discriminate|].
  simpl in A. inversion A; subst x.
  unfold find_first_of. rewrite size_cons. pose proof (size_nonneg rest).
  replace ((0 <=? 0) && (0 <? size rest + 1)) with true
    by (symmetry; apply andb_true_iff; split; [apply Z.leb_le|apply Z.ltb_lt]; lia).
  change (Z.to_nat 0) with 0%nat. cbn [skipn first_of_from]. rewrite M.
  match goal with |- context [first_of_from set rest ?i] =>
    destruct (first_of_from_bounds set rest i) as [->|B]
  end; [left; reflexivity|right; lia].
Qed.

Lemma substr_front (content r : string_view) (n : Z) :
  substr content 0 n = Ok r ->
  r = if n <? size content then firstn (Z.to_nat n) content else content.
Proof.
  unfold substr. pose proof (size_nonneg content).
  replace ((0 <=? 0) && (0 <=? size content)) with true
    by (symmetry; apply andb_true_iff; split; apply Z.leb_le; lia).
  intros E. inversion E. rewrite Z.sub_0_r. reflexivity.
Qed.

Lemma substr_front_size (content r : string_view) (n : Z) :
  substr content 0 n = Ok r -> 0 <= n ->
  size r = Z.min n (size content).
Proof.
  intros E Hn. apply substr_front in E. subst r.
  destruct (n <? size content) eqn:L.
  - apply Z.ltb_lt in L. unfold size in *. rewrite length_firstn. lia.
  - apply Z.ltb_ge in L. lia.
Qed.

Lemma npos_large : BUFFER_SIZE < npos.
Proof. reflexivity. Qed.

Lemma branch_AtCharacters (content : string_view) :
  branch content = Ok AtCharacters ->
  exists c, at_ content 0 = Ok c /\ mem c (sv "<&") = false.
Proof.
  unfold branch. intros H.
  destruct (at_ content 0) as [c| | |] eqn:A; simpl in H; try discriminate.
  exists c. split; [reflexivity|].
  destruct (Ascii.eqb c "&") eqn:E1; [discriminate|].
  destruct (Ascii.eqb c "<") eqn:E2; simpl in H.
  - inv_ok.
  - simpl. rewrite E1, E2. reflexivity.
Qed.

Lemma parseCharacters_effect (s s' : State) :
  parseCharacters s = Ok s' ->
  branch (content s) = Ok AtCharacters ->
  Inv s ->
  Inv s' /\ (unparsed s' < unparsed s)%nat /\ depth s' = depth s
  /\ unitCount s' = unitCount s.
Proof.
  unfold parseCharacters, Inv. intros H B (I1 & I2 & I3).
  apply branch_AtCharacters in B. destruct B as (c & A & M).
  pose proof (find_first_of_skips _ _ _ A M) as P.
  pose proof npos_large as NL. inv_ok.
  match goal with H : substr _ 0 _ = Ok ?r |- _ =>
    rename r into characters; pose proof (substr_size _ _ _ _ H) as SZ;
    assert (SP : 1 <= size characters)
  end.
  { apply at_Ok in A.
    destruct P as [P|P].
    - rewrite P in *. apply substr_front in E. subst characters.
      destruct (npos <? size (content s)); [|lia].
      unfold size. rewrite length_firstn. unfold npos, size in *. lia.
    - apply substr_front_size in E; lia. }
  pose proof (count_bounds LF characters) as CB.
  unfold BUFFER_SIZE, BLOCK_SIZE in *.
  rewrite static_cast_int_small in * by (unfold INT_MAX; lia).
  finish.
Qed.

Lemma findEnd_effect (mark : string_view) (msg : string) (s s' : State) (p : Z) :
  findEnd mark msg s = Ok (s', p) ->
  size (content s) <= BUFFER_SIZE ->
  size (content s') <= BUFFER_SIZE
  /\ (unparsed s' <= unparsed s)%nat
  /\ counters s' = counters s /\ depth s' = depth s /\ trace s' = trace s.
Proof.
  unfold findEnd. intros H I. inv_ok.
  - match goal with H : refill _ = Ok _ |- _ => apply refill_Ok in H end. tauto.
  - repeat split; try reflexivity; try lia.
Qed.

Ltac use_findEnd :=
  match goal with
  | H : findEnd _ _ (with_content ?v ?s) = Ok _, R : remove_prefix _ (content ?s) = Ok ?v,
    I : size (content ?s) <= BUFFER_SIZE |- _ =>
      let F1 := fresh "F" in let F2 := fresh "F" in let F3 := fresh "F" in
      let F4 := fresh "F" in let F5 := fresh "F" in
      apply findEnd_effect in H;
      [ destruct H as (F1 & F2 & F3 & F4 & F5)
      | apply remove_prefix_Ok in R; simpl; lia ]
  end.

Lemma parseComment_effect (s s' : State) :
  parseComment s = Ok s' ->
  Inv s ->
  Inv s' /\ (unparsed s' < unparsed s)%nat /\ depth s' = depth s
  /\ unitCount s' = unitCount s.
Proof.
  unfold parseComment, Inv. intros H (I1 & I2 & I3). inv_ok.
  use_findEnd. unfold counters in *. simpl in *. inversion F1.
  rewrite ?F3 in *. finish.
Qed.

Lemma parseCDATA_effect (s s' : State) :
  parseCDATA s = Ok s' ->
  Inv s ->
  Inv s' /\ (unparsed s' < unparsed s)%nat /\ depth s' = depth s
  /\ unitCount s' = unitCount s.
Proof.
  unfold parseCDATA, Inv. intros H (I1 & I2 & I3). inv_ok.
  use_findEnd. unfold counters in *. simpl in *. inversion F1.
  match goal with H : substr _ 0 _ = Ok ?r |- _ =>
    pose proof (substr_size _ _ _ _ H) as SZ;
    pose proof (count_bounds LF r) as CB
  end.
  unfold BUFFER_SIZE, BLOCK_SIZE in *.
  rewrite static_cast_int_small in * by (unfold INT_MAX; lia).
  rewrite ?F3 in *. finish.
Qed.

Lemma parsePI_effect (s s' : State) :
  parsePI s = Ok s' ->
  Inv s ->
  Inv s' /\ (unparsed s' < unparsed s)%nat /\ depth s' = depth s
  /\ unitCount s' = unitCount s.
Proof.
  unfold parsePI, Inv. intros H (I1 & I2 & I3). inv_ok. finish.
Qed.

Lemma parseEndTag_effect (s s' : State) (c : Control) :
  parseEndTag s = Ok (c, s') ->
  Inv s ->
  Inv s' /\ (unparsed s' < unparsed s)%nat /\ depth s' = depth s - 1
  /\ unitCount s' = unitCount s /\ (c = Break <-> depth s' = 0).
Proof.
  unfold parseEndTag, Inv. intros H (I1 & I2 & I3). inv_ok.
  finish;
    match goal with H : ?d = depth s + -1 /\ _ |- _ =>
      destruct (Z.eqb_spec d 0); intros; (congruence || lia)
    end.
Qed.

Lemma parseNamespace_effect (s s' : State) :
  parseNamespace s = Ok s' ->
  Inv s ->
  Inv s' /\ (unparsed s' < unparsed s)%nat /\ depth s' = depth s
  /\ unitCount s' = unitCount s.
Proof.
  unfold parseNamespace, Inv. intros H (I1 & I2 & I3). inv_ok; finish.
Qed.

Lemma parseAttribute_effect (inEscape : bool) (s s' : State) :
  parseAttribute inEscape s = Ok s' ->
  Inv s ->
  Inv s' /\ (unparsed s' < unparsed s)%nat /\ depth s' = depth s
  /\ unitCount s' = unitCount s.
Proof.
  unfold parseAttribute, Inv. intros H (I1 & I2 & I3). inv_ok;
    match goal with |- context [if ?b then _ else _] => destruct b end; finish.
Qed.

Lemma attributeLoop_effect (fuel : nat) (inEscape : bool) (s s' : State) :
  attributeLoop fuel inEscape s = Ok s' ->
  Inv s ->
  Inv s' /\ (unparsed s' <= unparsed s)%nat /\ depth s' = depth s
  /\ unitCount s' = unitCount s.
Proof.
  revert s. induction fuel as [|fuel IH]; intros s H I; [discriminate|].
  simpl in H. inv_ok.
  all: try match goal with
    | H : parseNamespace _ = Ok _ |- _ =>
        apply parseNamespace_effect in H; [|assumption];
        destruct H as (J & U & D & N)
    | H : parseAttribute _ _ = Ok _ |- _ =>
        apply parseAttribute_effect in H; [|assumption];
        destruct H as (J & U & D & N)
    end.
  all: try match goal with
    | H : attributeLoop _ _ _ = Ok _ |- _ =>
        apply IH in H; [|assumption]; destruct H as (J' & U' & D' & N')
    end.
  all: unfold Inv in *; intuition lia.
Qed.

Lemma countElement_effect (localName : string_view) (s s' : State) :
  countElement localName s = Ok s' ->
  content s' = content s /\ inputArchive s' = inputArchive s
  /\ loc s' = loc s /\ trace s' = trace s /\ depth s' = depth s
  /\ unitCount s <= unitCount s' <= unitCount s + 1
  /\ (unitCount s <= INT_MAX -> unitCount s' <= INT_MAX).
Proof.
  unfold countElement. intros H. inv_ok; facts; simpl; repeat split; lia.
Qed.

Lemma openStartTag_effect (s s' : State) (qName prefix localName : string_view) :
  openStartTag s = Ok (qName, prefix, localName, s') ->
  Inv s ->
  Inv s' /\ (unparsed s' < unparsed s)%nat /\ depth s' = depth s
  /\ unitCount s <= unitCount s' <= unitCount s + 1.
Proof.
  unfold openStartTag, Inv. intros H (I1 & I2 & I3). inv_ok.
  match goal with H : countElement _ _ = Ok _ |- _ =>
    apply countElement_effect in H; simpl in H;
    destruct H as (C1 & C2 & C3 & C4 & C5 & C6 & C7)
  end.
  match goal with H : attributeLoop _ _ _ = Ok _ |- _ =>
    apply attributeLoop_effect in H;
    [ destruct H as ((J1 & J2 & J3) & U & D & N) | ]
  end.
  - unfold unparsed in *. simpl in *. rewrite C2 in *. finish.
  - unfold Inv. simpl. rewrite C3, C4. finish.
Qed.

Lemma closeStartTag_effect (qName prefix localName : string_view)
    (s s' : State) (c : Control) :
  closeStartTag qName prefix localName s = Ok (c, s') ->
  Inv s ->
  Inv s' /\ (unparsed s' <= unparsed s)%nat
  /\ depth s <= depth s' <= depth s + 1
  /\ unitCount s' = unitCount s.
Proof.
  unfold closeStartTag, Inv. intros H (I1 & I2 & I3). inv_ok; finish.
Qed.

Lemma parseStartTag_effect (s s' : State) (c : Control) :
  parseStartTag s = Ok (c, s') ->
  Inv s ->
  Inv s' /\ (unparsed s' < unparsed s)%nat
  /\ depth s <= depth s' <= depth s + 1
  /\ unitCount s <= unitCount s' <= unitCount s + 1.
Proof.
  unfold parseStartTag. intros H I. inv_ok.
  match goal with H : openStartTag _ = Ok _ |- _ =>
    apply openStartTag_effect in H; [|assumption];
    destruct H as (J & U & D & N)
  end.
  apply closeStartTag_effect in H; [|assumption].
  destruct H as (J' & U' & D' & N').
  unfold Inv in *; intuition lia.
Qed.

Lemma dispatch_effect (s s' : State) (c : Control) :
  dispatch s = Ok (c, s') ->
  Inv s ->
  Inv s' /\ (unparsed s' < unparsed s)%nat
  /\ depth s - 1 <= depth s' <= depth s + 1
  /\ unitCount s <= unitCount s'.
Proof.
  unfold dispatch. intros H I.
  destruct (branch (content s)) as [b| | |] eqn:B; simpl in H; try discriminate.
  destruct b; inv_ok.
  - apply parseCharacterEntity_effect in E; [|assumption].
    unfold Inv in *; intuition lia.
  - apply parseCharacters_effect in E; [|assumption|assumption].
    unfold Inv in *; intuition lia.
  - apply parseComment_effect in E; [|assumption].
    unfold Inv in *; intuition lia.
  - apply parseCDATA_effect in E; [|assumption].
    unfold Inv in *; intuition lia.
  - apply parsePI_effect in E; [|assumption].
    unfold Inv in *; intuition lia.
  - apply parseEndTag_effect in H; [|assumption].
    unfold Inv in *; intuition lia.
  - apply parseStartTag_effect in H; [|assumption].
    unfold Inv in *; intuition lia.
Qed.

Lemma iteration_effect (s s' : State) (c : Control) :
  iteration s = Ok (c, s') ->
  Inv s ->
  Inv s'
  /\ (unparsed s' <= unparsed s)%nat
  /\ (c = Continue -> (unparsed s' < unparsed s)%nat)
  /\ depth s - 1 <= depth s' <= depth s + 1
  /\ unitCount s <= unitCount s'.
Proof.
  unfold iteration. intros H I.
  assert (D : forall s0, dispatch s0 = Ok (c, s') -> Inv s0 ->
              (unparsed s0 <= unparsed s)%nat -> depth s0 = depth s ->
              unitCount s0 = unitCount s ->
              Inv s' /\ (unparsed s' <= unparsed s)%nat
              /\ (c = Continue -> (unparsed s' < unparsed s)%nat)
              /\ depth s - 1 <= depth s' <= depth s + 1
              /\ unitCount s <= unitCount s').
  { intros s0 H0 I0 U0 D0 N0. apply dispatch_effect in H0; [|assumption].
    unfold Inv in *; intuition lia. }
  destruct (doneReading s).
  - destruct (empty (content s)).
    + inv_ok. unfold Inv in *; intuition (try lia; try discriminate).
    + apply (D s); auto.
  - destruct (size (content s) <? BLOCK_SIZE).
    + inv_ok.
      match goal with H : refill _ = Ok _ |- _ =>
        apply refill_Ok in H; destruct H as (R1 & R2 & R3 & R4 & R5)
      end.
      unfold counters in R3.
      apply (D a); auto; [|congruence].
      destruct I as (I1 & I2 & I3). unfold Inv.
      rewrite R5. replace (loc a) with (loc s) by congruence.
      replace (unitCount a) with (unitCount s) by congruence. tauto.
    + apply (D s); auto.
Qed.

Lemma elementLoop_effect (fuel : nat) (s s' : State) :
  elementLoop fuel s = Ok s' ->
  Inv s ->
  Inv s' /\ (unparsed s' <= unparsed s)%nat /\ unitCount s <= unitCount s'.
Proof.
  revert s. induction fuel as [|fuel IH]; intros s H I; [discriminate|].
  simpl in H. apply bind_Ok in H. destruct H as ([c s1] & E & H).
  apply iteration_effect in E; [|assumption].
  destruct E as (J & U & U' & D & N).
  destruct c.
  - apply IH in H; [|assumption]. unfold Inv in *; intuition lia.
  - inv_ok. unfold Inv in *; intuition lia.
Qed.

Lemma trailingComments_effect (fuel : nat) (s s' : State) :
  trailingComments fuel s = Ok s' ->
  Inv s ->
  Inv s' /\ unitCount s' = unitCount s /\ depth s' = depth s.
Proof.
  revert s. induction fuel as [|fuel IH]; intros s H I; [discriminate|].
  simpl in H. apply bind_Ok in H. destruct H as (isComment & E & H).
  destruct isComment.
  - clear E. inv_ok.
    match goal with H : parseComment _ = Ok _ |- _ =>
      apply parseComment_effect in H; [|assumption];
      destruct H as ((J1 & J2 & J3) & U & D & N)
    end.
    apply IH in H.
    + simpl in H. intuition congruence.
    + unfold Inv. simpl. facts. unfold size in *. intuition lia.
  - clear E. inv_ok. tauto.
Qed.

(** ** The prologue *)

Lemma parseDeclarationAttribute2_length (content rest : string_view)
    (encoding standalone : option string_view) :
  parseDeclarationAttribute2 content = Ok (encoding, standalone, rest) ->
  (List.length rest <= List.length content)%nat.
Proof.
  unfold parseDeclarationAttribute2. intros H. inv_ok; facts; lia.
Qed.

Lemma parseDeclarationAttribute3_length (content rest : string_view)
    (standalone standalone' : option string_view) :
  parseDeclarationAttribute3 standalone content = Ok (standalone', rest) ->
  (List.length rest <= List.length content)%nat.
Proof.
  unfold parseDeclarationAttribute3. intros H. inv_ok; facts; lia.
Qed.

Lemma parseXMLDeclaration_effect (s s' : State) :
  parseXMLDeclaration s = Ok s' ->
  Inv s ->
  Inv s' /\ depth s' = depth s /\ doneReading s' = doneReading s.
Proof.
  unfold parseXMLDeclaration, Inv. intros H (I1 & I2 & I3). inv_ok.
  all: repeat match goal with
    | H : parseDeclarationAttribute2 _ = Ok _ |- _ =>
        apply parseDeclarationAttribute2_length in H
    | H : parseDeclarationAttribute3 _ _ = Ok _ |- _ =>
        apply parseDeclarationAttribute3_length in H
    end.
  all: finish.
Qed.

Lemma parseDOCTYPE_effect (s s' : State) :
  parseDOCTYPE s = Ok s' ->
  Inv s ->
  Inv s' /\ depth s' = depth s /\ doneReading s' = doneReading s.
Proof.
  unfold parseDOCTYPE, Inv. intros H (I1 & I2 & I3). inv_ok. finish.
Qed.

Lemma prologue_effect (a : Archive) (s : State) :
  prologue a = Ok s ->
  Inv s /\ depth s = 0 /\ doneReading s = false.
Proof.
  unfold prologue. intros H.
  apply bind_Ok in H. destruct H as (r & R & H).
  destruct (bytesRead r <? 0) eqn:N; [discriminate|]. apply Z.ltb_ge in N.
  destruct (bytesRead r =? 0); [discriminate|].
  apply refillContent_Ok in R; [|assumption]. destruct R as (R1 & R2 & R3 & R4).
  apply bind_Ok in H. destruct H as (total & T & H).
  apply bind_Ok in H. destruct H as (view & V & H).
  apply skip_whitespace_length in V. simpl in V.
  match type of H with context [with_content view ?s0] =>
    set (s1 := with_content view s0) in *;
    assert (I1 : Inv s1 /\ depth s1 = 0 /\ doneReading s1 = false)
      by (unfold Inv, size in *; simpl in *; repeat split;
          try reflexivity; unfold INT_MAX; lia)
  end.
  clearbody s1.
  apply bind_Ok in H. destruct H as (isDeclaration & _ & H).
  apply bind_Ok in H. destruct H as (s2 & D & H).
  assert (I2 : Inv s2 /\ depth s2 = 0 /\ doneReading s2 = false).
  { destruct isDeclaration.
    - apply parseXMLDeclaration_effect in D; [|tauto]. intuition congruence.
    - inversion D; subst. assumption. }
  apply bind_Ok in H. destruct H as (isDoctype & _ & H).
  destruct isDoctype.
  - apply parseDOCTYPE_effect in H; [|tauto]. intuition congruence.
  - inversion H; subst. assumption.
Qed.

Lemma document_effect (s s' : State) :
  document s = Ok s' ->
  Inv s ->
  loc s' = newlines (trace s') /\ 0 <= unitCount s' <= INT_MAX.
Proof.
  unfold document. intros H I. inv_ok.
  match goal with H : elementLoop _ _ = Ok _ |- _ =>
    apply elementLoop_effect in H; [|assumption];
    destruct H as ((J1 & J2 & J3) & U & N)
  end.
  match goal with H : trailingComments _ _ = Ok _ |- _ =>
    apply trailingComments_effect in H;
    [ destruct H as ((K1 & K2 & K3) & _)
    | unfold Inv; simpl; facts; unfold size in *; intuition lia ]
  end.
  simpl. tauto.
Qed.

Lemma parse_effect (a : Archive) (s : State) :
  parse a = Ok s ->
  loc s = newlines (trace s) /\ 0 <= unitCount s <= INT_MAX.
Proof.
  unfold parse. intros H. inv_ok.
  match goal with H : prologue _ = Ok _ |- _ => apply prologue_effect in H end.
  eapply document_effect; [eassumption|tauto].
Qed.

(** ** Termination: the fuel given to each loop is enough *)

Lemma bind_OutOfFuel {A B : Type} (r : Result A) (k : A -> Result B) :
  bind r k = OutOfFuel ->
  r = OutOfFuel \/ exists a, r = Ok a /\ k a = OutOfFuel.
Proof.
  destruct r; simpl; intros H; try discriminate.
  - right. exists a. tauto.
  - left. reflexivity.
Qed.

Create HintDb fuel.

Ltac inv_oof :=
  repeat match goal with
  | H : Ok _ = OutOfFuel |- _ => discriminate H
  | H : Fatal _ = OutOfFuel |- _ => discriminate H
  | H : Undefined _ = OutOfFuel |- _ => discriminate H
  | H : bind _ _ = OutOfFuel |- _ =>
      let a := fresh "a" in let E := fresh "E" in
      apply bind_OutOfFuel in H; destruct H as [H | (a & E & H)];
      [ | cbv beta in H ]
  | H : (if ?b then _ else _) = OutOfFuel |- _ =>
      let E := fresh "E" in destruct b eqn:E
  | H : match ?x with (_, _) => _ end = OutOfFuel |- _ => destruct x
  | H : match ?x with Some _ => _ | None => _ end = OutOfFuel |- _ =>
      let E := fresh "E" in destruct x eqn:E
  | H : ?e = OutOfFuel |- _ =>
      solve [exfalso; apply (fun p : e <> OutOfFuel => p H); auto with fuel]
  end.

Lemma remove_prefix_fuel n content : remove_prefix n content <> OutOfFuel.
Proof. unfold remove_prefix. destruct (_ && _); discriminate. Qed.

Lemma at_fuel content pos : at_ content pos <> OutOfFuel.
Proof.
  unfold at_. destruct (_ && _); [|discriminate].
  destruct (nth_error _ _); discriminate.
Qed.

Lemma substr_fuel content pos n : substr content pos n <> OutOfFuel.
Proof. unfold substr. destruct (_ && _); discriminate. Qed.

Lemma add_int_fuel a b : add_int a b <> OutOfFuel.
Proof. unfold add_int. destruct (in_int _); discriminate. Qed.

Lemma add_long_fuel a b : add_long a b <> OutOfFuel.
Proof. unfold add_long. destruct (_ && _); discriminate. Qed.

Lemma skip_whitespace_fuel content : skip_whitespace content <> OutOfFuel.
Proof. apply remove_prefix_fuel. Qed.

Lemma skip_trailing_whitespace_fuel content :
  skip_trailing_whitespace content <> OutOfFuel.
Proof. apply remove_prefix_fuel. Qed.

Lemma xmlNameMask_fuel c : xmlNameMask c <> OutOfFuel.
Proof.
  unfold xmlNameMask. destruct (_ <? _); [|discriminate].
  destruct (nth_error _ _); discriminate.
Qed.

#[local] Hint Resolve remove_prefix_fuel at_fuel substr_fuel add_int_fuel
  add_long_fuel skip_whitespace_fuel skip_trailing_whitespace_fuel
  xmlNameMask_fuel : fuel.

Lemma all_at_fuel content tests : all_at content tests <> OutOfFuel.
Proof.
  induction tests as [|[i c] rest IH]; simpl; [discriminate|].
  intros H. inv_oof.
Qed.

Lemma refillContent_fuel buffer content a :
  refillContent buffer content a <> OutOfFuel.
Proof.
  unfold refillContent.
  match goal with |- context [match ?x with inl _ => _ | inr _ => _ end] =>
    destruct x as [[a1 msg]|a1]
  end; [discriminate|].
  destruct (handle a1); try discriminate;
    destruct (archive_read_data a1 _) as [[status bytes] a2];
    destruct (BUFFER_SIZE <? _); try discriminate;
    destruct (status <? 0); discriminate.
Qed.

#[local] Hint Resolve all_at_fuel refillContent_fuel : fuel.

Lemma refill_fuel s : refill s <> OutOfFuel.
Proof. unfold refill. intros H. inv_oof. Qed.

#[local] Hint Resolve refill_fuel : fuel.

Lemma findEnd_fuel mark msg s : findEnd mark msg s <> OutOfFuel.
Proof. unfold findEnd. intros H. inv_oof. Qed.

Lemma scanName_fuel content n : scanName content n <> OutOfFuel.
Proof. unfold scanName. intros H. inv_oof. Qed.

Lemma countElement_fuel localName s : countElement localName s <> OutOfFuel.
Proof. unfold countElement. intros H. inv_oof. Qed.

#[local] Hint Resolve findEnd_fuel scanName_fuel countElement_fuel : fuel.

Lemma parseCharacterEntity_fuel s : parseCharacterEntity s <> OutOfFuel.
Proof. unfold parseCharacterEntity. intros H. inv_oof. Qed.

Lemma parseCharacters_fuel s : parseCharacters s <> OutOfFuel.
Proof. unfold parseCharacters. intros H. inv_oof. Qed.

Lemma parseComment_fuel s : parseComment s <> OutOfFuel.
Proof. unfold parseComment. intros H. inv_oof. Qed.

Lemma parseCDATA_fuel s : parseCDATA s <> OutOfFuel.
Proof. unfold parseCDATA. intros H. inv_oof. Qed.

Lemma parsePI_fuel s : parsePI s <> OutOfFuel.
Proof. unfold parsePI. intros H. inv_oof. Qed.

Lemma parseEndTag_fuel s : parseEndTag s <> OutOfFuel.
Proof. unfold parseEndTag. intros H. inv_oof. Qed.

Lemma parseNamespace_fuel s : parseNamespace s <> OutOfFuel.
Proof. unfold parseNamespace. intros H. inv_oof. Qed.

Lemma parseAttribute_fuel inEscape s : parseAttribute inEscape s <> OutOfFuel.
Proof. unfold parseAttribute. intros H. inv_oof. Qed.

Lemma branch_fuel content : branch content <> OutOfFuel.
Proof. unfold branch. intros H. inv_oof. Qed.

#[local] Hint Resolve parseCharacterEntity_fuel parseCharacters_fuel
  parseComment_fuel parseCDATA_fuel parsePI_fuel parseEndTag_fuel
  parseNamespace_fuel parseAttribute_fuel branch_fuel : fuel.

Lemma parseNamespace_length (s s' : State) :
  parseNamespace s = Ok s' ->
  (List.length (content s') < List.length (content s))%nat.
Proof. unfold parseNamespace. intros H. inv_ok; finish. Qed.

Lemma parseAttribute_length (inEscape : bool) (s s' : State) :
  parseAttribute inEscape s = Ok s' ->
  (List.length (content s') < List.length (content s))%nat.
Proof.
  unfold parseAttribute. intros H. inv_ok;
    match goal with |- context [if ?b then _ else _] => destruct b end; finish.
Qed.

Lemma attributeLoop_fuel (fuel : nat) (inEscape : bool) (s : State) :
  (List.length (content s) < fuel)%nat ->
  attributeLoop fuel inEscape s <> OutOfFuel.
Proof.
  revert s. induction fuel as [|fuel IH]; intros s L; [lia|].
  simpl. intros H.
  apply bind_OutOfFuel in H. destruct H as [H|(c0 & _ & H)]; [inv_oof|].
  apply bind_OutOfFuel in H. destruct H as [H|(isName & _ & H)]; [inv_oof|].
  destruct isName; [|discriminate].
  apply bind_OutOfFuel in H. destruct H as [H|(xmlns & _ & H)]; [inv_oof|].
  apply bind_OutOfFuel in H. destruct H as [H|(isNamespace & _ & H)]; [inv_oof|].
  apply bind_OutOfFuel in H. destruct H as [H|(s1 & E & H)].
  - destruct isNamespace; inv_oof.
  - revert H. apply IH.
    destruct isNamespace;
      [apply parseNamespace_length in E|apply parseAttribute_length in E]; lia.
Qed.

Lemma openStartTag_fuel s : openStartTag s <> OutOfFuel.
Proof.
  unfold openStartTag. intros H. inv_oof.
  revert H. apply attributeLoop_fuel. simpl. lia.
Qed.

Lemma closeStartTag_fuel q p l s : closeStartTag q p l s <> OutOfFuel.
Proof. unfold closeStartTag. intros H. inv_oof. Qed.

#[local] Hint Resolve openStartTag_fuel closeStartTag_fuel : fuel.

Lemma parseStartTag_fuel s : parseStartTag s <> OutOfFuel.
Proof. unfold parseStartTag. intros H. inv_oof. Qed.

#[local] Hint Resolve parseStartTag_fuel : fuel.

Lemma dispatch_fuel s : dispatch s <> OutOfFuel.
Proof.
  unfold dispatch. intros H.
  apply bind_OutOfFuel in H. destruct H as [H|(b & _ & H)]; [inv_oof|].
  destruct b; inv_oof.
Qed.

#[local] Hint Resolve dispatch_fuel : fuel.

Lemma iteration_fuel s : iteration s <> OutOfFuel.
Proof. unfold iteration. intros H. inv_oof. Qed.

Lemma elementLoop_fuel (fuel : nat) (s : State) :
  Inv s -> (unparsed s < fuel)%nat -> elementLoop fuel s <> OutOfFuel.
Proof.
  revert s. induction fuel as [|fuel IH]; intros s I L; [lia|].
  simpl. intros H.
  apply bind_OutOfFuel in H. destruct H as [H|([c s1] & E & H)].
  - revert H. apply iteration_fuel.
  - destruct c; [|discriminate].
    apply iteration_effect in E; [|assumption].
    destruct E as (J & _ & U & _). specialize (U eq_refl).
    revert H. apply IH; [assumption|lia].
Qed.

Lemma trailingComments_fuel (fuel : nat) (s : State) :
  Inv s -> (unparsed s < fuel)%nat -> trailingComments fuel s <> OutOfFuel.
Proof.
  revert s. induction fuel as [|fuel IH]; intros s I L; [lia|].
  simpl. intros H.
  apply bind_OutOfFuel in H. destruct H as [H|(isComment & _ & H)].
  - destruct (empty (content s)); inv_oof.
  - destruct isComment; [|discriminate].
    apply bind_OutOfFuel in H. destruct H as [H|(s1 & E & H)]; [inv_oof|].
    apply bind_OutOfFuel in H. destruct H as [H|(view & V & H)]; [inv_oof|].
    apply parseComment_effect in E; [|assumption].
    destruct E as ((J1 & J2 & J3) & U & _).
    apply skip_trailing_whitespace_length in V.
    revert H. apply IH.
    + unfold Inv, size in *. simpl. intuition lia.
    + unfold unparsed in *. simpl. lia.
Qed.

Lemma document_fuel (s : State) : Inv s -> document s <> OutOfFuel.
Proof.
  unfold document. intros I H.
  apply bind_OutOfFuel in H. destruct H as [H|(s1 & E & H)].
  - revert H. apply elementLoop_fuel; [assumption|lia].
  - apply elementLoop_effect in E; [|assumption]. destruct E as ((J1 & J2 & J3) & _).
    apply bind_OutOfFuel in H. destruct H as [H|(view & V & H)]; [inv_oof|].
    apply skip_trailing_whitespace_length in V.
    apply bind_OutOfFuel in H. destruct H as [H|(s2 & _ & H)].
    + revert H. apply trailingComments_fuel; [|lia].
      unfold Inv, size in *. simpl. intuition lia.
    + destruct (negb _); discriminate.
Qed.

Lemma doctypeLoop_fuel (fuel : nat) (content : string_view) (p d : Z)
    (sq dq com : bool) :
  0 <= p -> size content - p < Z.of_nat fuel -> (1 <= fuel)%nat ->
  doctypeLoop fuel content p d sq dq com <> OutOfFuel.
Proof.
  revert p d sq dq com.
  induction fuel as [|fuel IH]; intros p d sq dq com P L F; [lia|].
  simpl.
  set (p1 := find_first_of content _ p).
  destruct (Z.eqb_spec p1 npos) as [|N]; [discriminate|].
  assert (B : p <= p1 < size content).
  { subst p1.
    match goal with |- context [find_first_of content ?set p] =>
      destruct (find_first_of_bounds content set p) as [B|B]
    end; [contradiction|assumption]. }
  assert (R : forall k d sq dq com, 1 <= k ->
            doctypeLoop fuel content (p1 + k) d sq dq com <> OutOfFuel).
  { intros k d' sq' dq' com' K. apply IH; lia. }
  destruct (compare_eq content p1 _); [apply R; lia|].
  destruct (compare_eq content p1 _); [apply R; lia|].
  destruct com; [apply R; lia|].
  intros H. inv_oof; revert H; apply R; lia.
Qed.

Lemma parseDOCTYPE_fuel s : parseDOCTYPE s <> OutOfFuel.
Proof.
  unfold parseDOCTYPE. intros H. inv_oof.
  revert H. apply doctypeLoop_fuel; unfold size; lia.
Qed.

Lemma parseDeclarationAttribute2_fuel content :
  parseDeclarationAttribute2 content <> OutOfFuel.
Proof. unfold parseDeclarationAttribute2. intros H. inv_oof. Qed.

Lemma parseDeclarationAttribute3_fuel standalone content :
  parseDeclarationAttribute3 standalone content <> OutOfFuel.
Proof.
  unfold parseDeclarationAttribute3. intros H. inv_oof.
  all: destruct standalone; inv_oof.
Qed.

#[local] Hint Resolve parseDOCTYPE_fuel parseDeclarationAttribute2_fuel
  parseDeclarationAttribute3_fuel : fuel.

Lemma parseXMLDeclaration_fuel s : parseXMLDeclaration s <> OutOfFuel.
Proof. unfold parseXMLDeclaration. intros H. inv_oof. Qed.

#[local] Hint Resolve parseXMLDeclaration_fuel : fuel.

Lemma prologue_fuel a : prologue a <> OutOfFuel.
Proof. unfold prologue. intros H. inv_oof. Qed.

(** Every run of the parser ends: the fuel of the loops never runs out. *)
Lemma parse_terminates (a : Archive) : parse a <> OutOfFuel.
Proof.
  unfold parse. intros H.
  apply bind_OutOfFuel in H. destruct H as [H|(s & E & H)].
  - revert H. apply prologue_fuel.
  - apply prologue_effect in E. revert H. apply document_fuel. tauto.
Qed.

Lemma files_fuel n : files n <> OutOfFuel.
Proof. unfold files. intros H. inv_oof. Qed.

Lemma main_terminates (a : Archive) : main a <> Unfinished.
Proof.
  unfold main. intros H.
  destruct (bind (parse a) _) eqn:E; try discriminate.
  apply bind_OutOfFuel in E. destruct E as [E|(s & _ & E)].
  - revert E. apply parse_terminates.
  - unfold report in E. apply bind_OutOfFuel in E.
    destruct E as [E|(f & _ & E)]; [revert E; apply files_fuel|discriminate].
Qed.

(** ** Views given by their first bytes *)

Lemma at_0 (c : ascii) (rest : string_view) : at_ (c :: rest) 0 = Ok c.
Proof.
  unfold at_. rewrite size_cons. pose proof (size_nonneg rest).
  replace ((0 <=? 0) && (0 <? size rest + 1)) with true; [reflexivity|].
  symmetry. apply andb_true_iff. split; [apply Z.leb_le|apply Z.ltb_lt]; lia.
Qed.

Lemma at_1 (a b : ascii) (rest : string_view) : at_ (a :: b :: rest) 1 = Ok b.
Proof.
  unfold at_. rewrite !size_cons. pose proof (size_nonneg rest).
  replace ((0 <=? 1) && (1 <? size rest + 1 + 1)) with true; [reflexivity|].
  symmetry. apply andb_true_iff. split; [apply Z.leb_le|apply Z.ltb_lt]; lia.
Qed.

Lemma remove_prefix_app (p rest : string_view) :
  remove_prefix (size p) (p ++ rest)%list = Ok rest.
Proof.
  unfold remove_prefix. rewrite size_app.
  pose proof (size_nonneg p). pose proof (size_nonneg rest).
  replace ((0 <=? size p) && (size p <=? size p + size rest)) with true.
  - unfold size. rewrite Nat2Z.id, skipn_app, skipn_all, Nat.sub_diag.
    reflexivity.
  - symmetry. apply andb_true_iff. split; apply Z.leb_le; lia.
Qed.

Lemma substr_app (p rest : string_view) :
  substr (p ++ rest)%list 0 (size p) = Ok p.
Proof.
  unfold substr. rewrite size_app.
  pose proof (size_nonneg p). pose proof (size_nonneg rest).
  replace ((0 <=? 0) && (0 <=? size p + size rest)) with true
    by (symmetry; apply andb_true_iff; split; apply Z.leb_le; lia).
  f_equal. change (Z.to_nat 0) with 0%nat. simpl skipn.
  destruct (size p <? size p + size rest - 0) eqn:E.
  - unfold size. rewrite Nat2Z.id, firstn_app, firstn_all, Nat.sub_diag.
    simpl. apply app_nil_r.
  - apply Z.ltb_ge in E. assert (R : rest = []).
    { destruct rest as [|x rest]; [reflexivity|].
      pose proof (size_nonneg rest). rewrite size_cons in E. lia. }
    subst rest. apply app_nil_r.
Qed.

Lemma first_of_from_app (set p rest : string_view) (d : ascii) (i : Z) :
  (forall c, In c p -> mem c set = false) -> mem d set = true ->
  first_of_from set (p ++ d :: rest)%list i = i + size p.
Proof.
  revert i. induction p as [|c p IH]; intros i F M; simpl.
  - rewrite M. unfold size. simpl. lia.
  - rewrite (F c) by (left; reflexivity).
    rewrite IH by (intros; try apply F; try right; assumption).
    rewrite size_cons. lia.
Qed.

Lemma find_first_of_app (set p rest : string_view) (d : ascii) :
  (forall c, In c p -> mem c set = false) -> mem d set = true ->
  find_first_of (p ++ d :: rest)%list set 0 = size p.
Proof.
  intros F M. unfold find_first_of. rewrite size_app, size_cons.
  pose proof (size_nonneg p). pose proof (size_nonneg rest).
  replace ((0 <=? 0) && (0 <? size p + (size rest + 1))) with true
    by (symmetry; apply andb_true_iff; split;
        [apply Z.leb_le|apply Z.ltb_lt]; lia).
  change (Z.to_nat 0) with 0%nat. simpl skipn.
  rewrite first_of_from_app by assumption. lia.
Qed.

Lemma at_app (p rest : string_view) (d : ascii) :
  at_ (p ++ d :: rest)%list (size p) = Ok d.
Proof.
  unfold at_. rewrite size_app, size_cons.
  pose proof (size_nonneg p). pose proof (size_nonneg rest).
  replace ((0 <=? size p) && (size p <? size p + (size rest + 1))) with true
    by (symmetry; apply andb_true_iff; split;
        [apply Z.leb_le|apply Z.ltb_lt]; lia).
  unfold size. rewrite Nat2Z.id, nth_error_app2, Nat.sub_diag by lia.
  reflexivity.
Qed.

Lemma skip_whitespace_none (c : ascii) (rest : string_view) :
  mem c WHITESPACE = false -> skip_whitespace (c :: rest) = Ok (c :: rest).
Proof.
  intros M. unfold skip_whitespace, find_first_not_of.
  cbn [first_not_of_from]. rewrite M. apply (remove_prefix_app [] (c :: rest)).
Qed.

Lemma find_first_of_from (set p q rest : string_view) (d : ascii) :
  (forall c, In c q -> mem c set = false) -> mem d set = true ->
  find_first_of (p ++ q ++ d :: rest)%list set (size p) = size p + size q.
Proof.
  intros F M. unfold find_first_of. rewrite !size_app, size_cons.
  pose proof (size_nonneg p). pose proof (size_nonneg q).
  pose proof (size_nonneg rest).
  replace ((0 <=? size p) && (size p <? size p + (size q + (size rest + 1))))
    with true
    by (symmetry; apply andb_true_iff; split;
        [apply Z.leb_le|apply Z.ltb_lt]; lia).
  unfold size at 1. rewrite Nat2Z.id, skipn_app, skipn_all, Nat.sub_diag.
  simpl. apply first_of_from_app; assumption.
Qed.

Lemma substr_middle (p q : string_view) :
  size (p ++ q)%list < npos ->
  substr (p ++ q)%list (size p) npos = Ok q.
Proof.
  intros L. unfold substr. rewrite size_app in *.
  pose proof (size_nonneg p). pose proof (size_nonneg q).
  replace ((0 <=? size p) && (size p <=? size p + size q)) with true
    by (symmetry; apply andb_true_iff; split; apply Z.leb_le; lia).
  replace (npos <? size p + size q - size p) with false
    by (symmetry; apply Z.ltb_ge; lia).
  unfold size. rewrite Nat2Z.id, skipn_app, skipn_all, Nat.sub_diag.
  reflexivity.
Qed.

Lemma mem_colon_NAMEEND (c : ascii) :
  mem c NAMEEND = false -> Ascii.eqb c ":" = false.
Proof.
  unfold NAMEEND. simpl. intros F.
  repeat (apply orb_false_iff in F; destruct F as [? F]). assumption.
Qed.

(** ** Tests on the first bytes and prefixes *)

Lemma nth_error_skipn (content : string_view) (n : nat) (y : ascii) :
  nth_error content n = Some y ->
  skipn n content = y :: skipn (S n) content.
Proof.
  revert content. induction n as [|n IH]; intros [|c content] H;
    try discriminate; simpl in *.
  - inversion H. reflexivity.
  - apply IH. assumption.
Qed.

Lemma all_at_indexed (content needle : string_view) (i : Z) (b : bool) :
  0 <= i ->
  all_at content (indexed i needle) = Ok b ->
  b = starts_with needle (skipn (Z.to_nat i) content).
Proof.
  revert i b. induction needle as [|x needle IH]; intros i b I H; simpl in H.
  - inversion H. reflexivity.
  - apply bind_Ok in H. destruct H as (y & A & H).
    apply at_Ok in A. destruct A as [_ A].
    rewrite (nth_error_skipn _ _ _ A). simpl.
    rewrite (Ascii.eqb_sym x y).
    destruct (Ascii.eqb y x); simpl.
    + apply IH in H; [|lia].
      replace (Z.to_nat (i + 1)) with (S (Z.to_nat i)) in H by lia. assumption.
    + inversion H. reflexivity.
Qed.

Lemma starts_with_app (p content : string_view) :
  starts_with p content = true ->
  content = (p ++ skipn (List.length p) content)%list.
Proof.
  revert content. induction p as [|x p IH]; intros content H; simpl in *.
  - reflexivity.
  - destruct content as [|y content]; [discriminate|].
    apply andb_true_iff in H. destruct H as [E H].
    apply Ascii.eqb_eq in E. subst y. simpl. f_equal. apply IH. assumption.
Qed.

Lemma branch_AtEntity (content : string_view) :
  branch content = Ok AtEntity -> exists rest, content = "&"%char :: rest.
Proof.
  unfold branch. intros H.
  apply bind_Ok in H. destruct H as (c0 & A & H).
  apply at_Ok in A. destruct A as [_ A].
  destruct content as [|c rest]; [discriminate|]. simpl in A. inversion A; subst.
  destruct (Ascii.eqb_spec c0 "&"); [subst; eexists; reflexivity|].
  inv_ok.
Qed.

Lemma parseCharacterEntity_spec (s s' : State) :
  branch (content s) = Ok AtEntity ->
  parseCharacterEntity s = Ok s' ->
  textSize s' = textSize s + 1 /\ loc s' = loc s
  /\ content s = (escaped_at (content s) ++ content s')%list
  /\ exists unescaped,
       In unescaped [sv "<"; sv ">"; sv "&"]
       /\ trace s' = CHARACTERS unescaped :: trace s.
Proof.
  intros B H. apply branch_AtEntity in B. destruct B as (rest & C).
  unfold parseCharacterEntity in H. rewrite C in H.
  apply bind_Ok in H. destruct H as (lt & L & H).
  apply (all_at_indexed _ (sv "lt;") 1) in L; [|lia].
  apply bind_Ok in H. destruct H as ([unescaped escaped] & E & H).
  change (skipn (Z.to_nat 1) ("&"%char :: rest)) with rest in L.
  assert (EE : escaped = escaped_at (content s)
               /\ starts_with escaped (content s) = true
               /\ In unescaped [sv "<"; sv ">"; sv "&"]).
  { rewrite C. unfold escaped_at.
    change (starts_with (sv "&lt;") ("&"%char :: rest))
      with (starts_with (sv "lt;") rest).
    change (starts_with (sv "&gt;") ("&"%char :: rest))
      with (starts_with (sv "gt;") rest).
    change (starts_with (sv "&amp;") ("&"%char :: rest))
      with (starts_with (sv "amp;") rest).
    rewrite <- L. destruct lt.
    - inversion E; subst. repeat split; [|simpl; tauto].
      simpl. symmetry. exact L.
    - apply bind_Ok in E. destruct E as (gt & G & E).
      apply (all_at_indexed _ (sv "gt;") 1) in G; [|lia].
      change (skipn (Z.to_nat 1) ("&"%char :: rest)) with rest in G.
      rewrite <- G. destruct gt.
      + inversion E; subst. repeat split; [|simpl; tauto].
        simpl. symmetry. exact G.
      + apply bind_Ok in E. destruct E as (amp & A & E).
        apply (all_at_indexed _ (sv "amp;") 1) in A; [|lia].
        change (skipn (Z.to_nat 1) ("&"%char :: rest)) with rest in A.
        rewrite <- A.
        destruct amp; inversion E; subst; repeat split; try (simpl; tauto).
        simpl. symmetry. exact A. }
  destruct EE as (E1 & E2 & E3). rewrite <- C in H.
  apply bind_Ok in H. destruct H as (view & R & H).
  apply bind_Ok in H. destruct H as (n & N & H).
  inversion H; subst s'; clear H. apply add_int_Ok in N. simpl in N.
  apply remove_prefix_Ok in R. destruct R as (_ & R & _).
  apply starts_with_app in E2. simpl.
  repeat split; try tauto.
  - rewrite <- E1. rewrite R. unfold size. rewrite Nat2Z.id. exact E2.
  - exists unescaped. split; [assumption|reflexivity].
Qed.

(** ** The nesting depth *)

Lemma findEnd_depth (mark : string_view) (msg : string) (s s' : State) (p : Z) :
  findEnd mark msg s = Ok (s', p) -> depth s' = depth s.
Proof.
  unfold findEnd. intros H. inv_ok; [|reflexivity].
  match goal with H : refill _ = Ok _ |- _ => apply refill_Ok in H end. tauto.
Qed.

Ltac depth_of_findEnd :=
  match goal with H : findEnd _ _ _ = Ok _ |- _ =>
    apply findEnd_depth in H; simpl in H
  end.

Lemma parseCharacterEntity_depth (s s' : State) :
  parseCharacterEntity s = Ok s' -> depth s' = depth s.
Proof. unfold parseCharacterEntity. intros H. inv_ok; reflexivity. Qed.

Lemma parseCharacters_depth (s s' : State) :
  parseCharacters s = Ok s' -> depth s' = depth s.
Proof. unfold parseCharacters. intros H. inv_ok; reflexivity. Qed.

Lemma parseComment_depth (s s' : State) :
  parseComment s = Ok s' -> depth s' = depth s.
Proof. unfold parseComment. intros H. inv_ok. depth_of_findEnd. assumption. Qed.

Lemma parseCDATA_depth (s s' : State) :
  parseCDATA s = Ok s' -> depth s' = depth s.
Proof. unfold parseCDATA. intros H. inv_ok. depth_of_findEnd. assumption. Qed.

Lemma parsePI_depth (s s' : State) :
  parsePI s = Ok s' -> depth s' = depth s.
Proof. unfold parsePI. intros H. inv_ok; reflexivity. Qed.

Lemma parseEndTag_depth (s s' : State) (c : Control) :
  parseEndTag s = Ok (c, s') -> depth s' = depth s - 1.
Proof. unfold parseEndTag. intros H. inv_ok; facts; simpl in *; lia. Qed.

Lemma parseNamespace_depth (s s' : State) :
  parseNamespace s = Ok s' -> depth s' = depth s.
Proof. unfold parseNamespace. intros H. inv_ok; reflexivity. Qed.

Lemma parseAttribute_depth (inEscape : bool) (s s' : State) :
  parseAttribute inEscape s = Ok s' -> depth s' = depth s.
Proof.
  unfold parseAttribute. intros H. inv_ok;
    match goal with |- context [if ?b then _ else _] => destruct b end;
    reflexivity.
Qed.

Lemma attributeLoop_depth (fuel : nat) (inEscape : bool) (s s' : State) :
  attributeLoop fuel inEscape s = Ok s' -> depth s' = depth s.
Proof.
  revert s. induction fuel as [|fuel IH]; intros s H; [discriminate|].
  simpl in H.
  apply bind_Ok in H. destruct H as (c0 & _ & H).
  apply bind_Ok in H. destruct H as (isName & _ & H).
  destruct isName; [|inversion H; reflexivity].
  apply bind_Ok in H. destruct H as (xmlns & _ & H).
  apply bind_Ok in H. destruct H as (isNamespace & _ & H).
  apply bind_Ok in H. destruct H as (s1 & E & H).
  apply IH in H. rewrite H.
  destruct isNamespace;
    [apply parseNamespace_depth in E|apply parseAttribute_depth in E];
    assumption.
Qed.

Lemma openStartTag_depth (s s' : State) (q p l : string_view) :
  openStartTag s = Ok (q, p, l, s') -> depth s' = depth s.
Proof.
  unfold openStartTag. intros H. inv_ok.
  match goal with H : attributeLoop _ _ _ = Ok _ |- _ =>
    apply attributeLoop_depth in H; simpl in H
  end.
  match goal with H : countElement _ _ = Ok _ |- _ =>
    apply countElement_effect in H; simpl in H
  end.
  intuition congruence.
Qed.

Lemma closeStartTag_depth (q p l : string_view) (s s' : State) (c : Control) :
  closeStartTag q p l s = Ok (c, s') ->
  depth s' = if starts_with (sv ">") (content s) then depth s + 1 else depth s.
Proof.
  unfold closeStartTag. intros H.
  apply bind_Ok in H. destruct H as (c0 & A & H).
  apply at_Ok in A. destruct A as [_ A].
  destruct (content s) as [|y rest] eqn:C; [discriminate|].
  simpl in A. inversion A; subst y.
  change (starts_with (sv ">") (c0 :: rest)) with (Ascii.eqb ">" c0 && true).
  rewrite (Ascii.eqb_sym ">" c0), andb_true_r.
  destruct (Ascii.eqb c0 ">"); inv_ok; facts; simpl in *; lia.
Qed.


(** ** The window *)

Lemma store_at_start (buffer : list ascii) (content : string_view) :
  store buffer 0 content
  = (content ++ skipn (List.length content) buffer)%list.
Proof.
  unfold store. change (Z.to_nat 0) with 0%nat. simpl.
  unfold size. rewrite Nat2Z.id. reflexivity.
Qed.

Lemma store_behind (content tail bytes : string_view) :
  store (content ++ tail)%list (size content) bytes
  = (content ++ bytes ++ skipn (List.length bytes) tail)%list.
Proof.
  unfold store, size. rewrite <- Nat2Z.inj_add, !Nat2Z.id.
  rewrite firstn_app, firstn_all, Nat.sub_diag. simpl firstn.
  rewrite app_nil_r, length_app.
  replace (List.length content - (List.length content + List.length tail))%nat
    with 0%nat by lia.
  simpl repeat. simpl app.
  rewrite skipn_app, skipn_all2 by lia.
  replace (List.length content + List.length bytes - List.length content)%nat
    with (List.length bytes) by lia.
  reflexivity.
Qed.

Lemma array_length (buffer : list ascii) :
  size buffer <= BUFFER_SIZE -> size (array buffer) = BUFFER_SIZE.
Proof.
  unfold array, size. rewrite length_app, repeat_length.
  unfold BUFFER_SIZE, BLOCK_SIZE. lia.
Qed.

(** When [refillContent] returns a byte count, the unconsumed bytes have
    been moved to the start of the buffer, the new bytes follow them, the
    view covers both, and neither the request nor the window exceeds its
    bound. *)
Lemma refillContent_moves_the_view (buffer : list ascii) (content : string_view)
    (a : Archive) (r : Refilled) :
  refillContent buffer content a = Ok r ->
  0 <= bytesRead r ->
  exists bytes,
    size bytes = bytesRead r
    /\ firstn (List.length content) (new_buffer r) = content
    /\ new_content r = (content ++ bytes)%list
    /\ bytesRead r <= BUFFER_SIZE - BLOCK_SIZE
    /\ size (new_content r) <= BUFFER_SIZE.
Proof.
  unfold refillContent. intros H Hpos.
  match type of H with context [match ?x with inl _ => _ | inr _ => _ end] =>
    destruct x as [[a1 msg]|a1]
  end.
  { inversion H; subst; simpl in Hpos. lia. }
  assert (Hread : forall x, match handle a1 with
            | Freed => Undefined UseAfterFree | _ => x end = Ok r -> x = Ok r).
  { intros x. destruct (handle a1); [tauto|tauto|discriminate]. }
  apply Hread in H. clear Hread.
  destruct (archive_read_data a1 (BUFFER_SIZE - BLOCK_SIZE))
    as [[status bytes] a2] eqn:R.
  apply archive_read_data_spec in R; [|unfold BUFFER_SIZE, BLOCK_SIZE; lia].
  destruct R as [R _].
  destruct (BUFFER_SIZE <? size content + size bytes) eqn:O; [discriminate|].
  apply Z.ltb_ge in O.
  destruct (status <? 0) eqn:N.
  { inversion H; subst; simpl in Hpos. lia. }
  apply Z.ltb_ge in N. inversion H; subst; clear H.
  cbn [bytesRead new_buffer new_content] in *.
  destruct R as [[R _]|(R1 & R2 & R3)]; [unfold ARCHIVE_FATAL in R; lia|].
  subst status. exists bytes.
  rewrite store_at_start, store_behind.
  split; [reflexivity|]. split.
  { rewrite firstn_app, firstn_all, Nat.sub_diag. simpl. apply app_nil_r. }
  assert (V : firstn (Z.to_nat (size content + size bytes))
                (content ++ bytes
                   ++ skipn (List.length bytes)
                        (skipn (List.length content) buffer))%list
              = (content ++ bytes)%list).
  { rewrite app_assoc. unfold size. rewrite <- Nat2Z.inj_add, Nat2Z.id.
    rewrite <- length_app, firstn_app, firstn_all, Nat.sub_diag. simpl.
    apply app_nil_r. }
  split; [exact V|]. split; [exact R2|].
  rewrite V, size_app. exact O.
Qed.

(** With more than BLOCK_SIZE bytes unconsumed and a source that fills
    the request, the read does not fit behind them. *)
Lemma refillContent_overflows (buffer : list ascii) (content bytes : string_view)
    (rest : list ReadResult) :
  BLOCK_SIZE < size content ->
  BUFFER_SIZE - BLOCK_SIZE <= size bytes ->
  refillContent buffer content
    {| handle := Live; open_ok := true; header_ok := true;
       reads := Data bytes :: rest |}
  = Undefined BufferOverflow.
Proof.
  intros C B. unfold refillContent, archive_read_data.
  cbn [handle reads open_ok header_ok with_reads with_handle].
  unfold BUFFER_SIZE, BLOCK_SIZE in *.
  destruct (size bytes <=? 16 * 16 * 4096 - 4096) eqn:E.
  - apply Z.leb_le in E.
    replace (16 * 16 * 4096 <? size content + size bytes) with true;
      [reflexivity|symmetry; apply Z.ltb_lt; lia].
  - replace (16 * 16 * 4096 <? size content
               + size (firstn (Z.to_nat (16 * 16 * 4096 - 4096)) bytes))
      with true; [reflexivity|].
    symmetry. apply Z.ltb_lt. apply Z.leb_gt in E.
    unfold size in *. rewrite length_firstn. lia.
Qed.

(** ** The report *)

(** The table is printed by a run that ends with status 0 and by no
    other: a run that ends through a diagnostic has status 1 and prints
    nothing. *)
Lemma report_only_after_success (a : Archive) (status : Z)
    (cout : option Report) (cerr : list string) :
  main a = Exited status cout cerr ->
  (status = 1 /\ cout = None)
  \/ (status = 0 /\ cerr = []
      /\ exists s r, parse a = Ok s /\ report s = Ok r /\ cout = Some r).
Proof.
  unfold main. intros H.
  destruct (parse a) as [s| | |] eqn:P; simpl in H.
  - destruct (report s) as [r| | |] eqn:R; inversion H; subst.
    + right. repeat split. exists s, r. tauto.
    + left. tauto.
  - inversion H; subst. left. tauto.
  - discriminate.
  - discriminate.
Qed.

(** The four erroneous inputs that the specification names end with
    status 1 and no table when the parser reaches its diagnostic; for the
    comment this takes a document of at least a block, so that the end of
    the data has not been seen before the comment. *)
Lemma named_errors_exit_with_status_1 :
  main (stdin (sv "<a><!--" ++ xs 4096)%list)
  = Exited 1 None ["parser error : Unterminated XML comment"]
  /\ main (stdin (sv "<a b='c></a>"))
     = Exited 1 None ["parser error : attribute b missing delimiter"]
  /\ main (stdin (sv "<a></>"))
     = Exited 1 None ["parser error: EndTag: invalid element name"]
  /\ main (stdin []) = Exited 1 None ["parser error : Empty file"].
Proof. evaluate. Qed.

(** ** Text runs and CDATA sections *)

Lemma first_of_from_found (set content : string_view) (c : ascii) (i : Z) :
  In c content -> mem c set = true ->
  i <= first_of_from set content i < i + size content.
Proof.
  revert i. induction content as [|x content IH]; intros i I M; [contradiction|].
  simpl. rewrite size_cons. pose proof (size_nonneg content) as N.
  destruct (mem x set) eqn:X; [lia|].
  destruct I as [-> | I]; [congruence|].
  specialize (IH (i + 1) I M). lia.
Qed.

Lemma first_of_from_spec (set content : string_view) (i : Z) :
  i + size content <= npos ->
  first_of_from set content i <> npos ->
  exists d rest,
    content = (firstn (Z.to_nat (first_of_from set content i - i)) content
                 ++ d :: rest)%list
    /\ mem d set = true
    /\ (forall c, In c (firstn (Z.to_nat (first_of_from set content i - i)) content)
                  -> mem c set = false)
    /\ i <= first_of_from set content i < i + size content.
Proof.
  revert i. induction content as [|x content IH]; intros i B N;
    [simpl in N; congruence|].
  rewrite size_cons in B. pose proof (size_nonneg content) as SN.
  cbn [first_of_from] in *. destruct (mem x set) eqn:X.
  - exists x, content. rewrite Z.sub_diag. change (Z.to_nat 0) with 0%nat.
    cbn [firstn app]. rewrite size_cons.
    repeat split; try assumption; try lia. intros c [].
  - destruct (IH (i + 1)) as (d & rest & C & M & F & R); [lia|assumption|].
    exists d, rest.
    replace (Z.to_nat (first_of_from set content (i + 1) - i))
      with (S (Z.to_nat (first_of_from set content (i + 1) - (i + 1)))) by lia.
    cbn [firstn app]. rewrite size_cons.
    repeat split; try assumption; try lia.
    + f_equal. exact C.
    + intros c [<- | I]; [assumption|apply F; assumption].
Qed.

Lemma first_of_from_none (set content : string_view) (i : Z) :
  i + size content <= npos ->
  first_of_from set content i = npos ->
  forall c, In c content -> mem c set = false.
Proof.
  intros B N c I. destruct (mem c set) eqn:M; [|reflexivity].
  pose proof (first_of_from_found set content c i I M). lia.
Qed.

Lemma parseCharacters_run (s s' : State) :
  parseCharacters s = Ok s' ->
  size (content s) <= BUFFER_SIZE ->
  exists characters,
    content s = (characters ++ content s')%list
    /\ (forall c, In c characters -> c <> "<"%char /\ c <> "&"%char)
    /\ (content s' = []
        \/ exists c rest, content s' = c :: rest /\ (c = "<"%char \/ c = "&"%char))
    /\ textSize s' = textSize s + size characters
    /\ loc s' = loc s + count LF characters
    /\ trace s' = CHARACTERS characters :: trace s.
Proof.
  unfold parseCharacters. intros H B.
  change (sv "<&") with ["<"; "&"]%char in H.
  set (set := ["<"; "&"]%char) in *. inv_ok.
  match goal with H : substr _ 0 _ = Ok ?r |- _ => rename r into characters;
    pose proof (substr_size _ _ _ _ H) as SZ; rename H into S end.
  pose proof (size_nonneg characters) as SN. pose proof npos_large as NL.
  assert (CB := count_bounds LF characters).
  unfold BUFFER_SIZE, BLOCK_SIZE in *.
  rewrite !static_cast_int_small in * by (unfold INT_MAX; lia).
  match goal with H : remove_prefix _ _ = Ok ?r |- _ =>
    apply remove_prefix_Ok in H; destruct H as (_ & -> & _) end.
  facts. exists characters. cbn [content textSize loc trace with_content
    with_textSize with_loc TRACE].
  assert (NM : forall c, mem c set = false -> c <> "<"%char /\ c <> "&"%char).
  { intros c M. split; intros ->; discriminate M. }
  assert (MM : forall c, mem c set = true -> c = "<"%char \/ c = "&"%char).
  { intros c M. unfold mem, set in M. cbn [existsb] in M.
    apply orb_true_iff in M. destruct M as [M | M];
      [left; apply Ascii.eqb_eq; exact M|].
    apply orb_true_iff in M. destruct M as [M | M]; [|discriminate M].
    right. apply Ascii.eqb_eq. exact M. }
  replace (Z.to_nat (size characters)) with (List.length characters)
    by (unfold size; lia).
  unfold substr, find_first_of in S.
  change (0 <=? 0) with true in S. cbn [andb] in S.
  replace (0 <=? size (content s)) with true in S
    by (symmetry; apply Z.leb_le; apply size_nonneg).
  change (Z.to_nat 0) with 0%nat in S. cbn [skipn] in S.
  rewrite Z.sub_0_r in S.
  destruct (0 <? size (content s)) eqn:P.
  - destruct (Z.eq_dec (first_of_from set (content s) 0) npos) as [N | N].
    + rewrite N in S.
      replace (npos <? size (content s)) with false in S
        by (symmetry; apply Z.ltb_ge; lia).
      inversion S; subst characters; clear S.
      rewrite skipn_all, app_nil_r.
      repeat split; try tauto; try lia.
      * apply NM. eapply first_of_from_none; [|exact N|assumption]. lia.
      * apply NM. eapply first_of_from_none; [|exact N|assumption]. lia.
    + destruct (first_of_from_spec set (content s) 0) as (d & rest & C & M & F & R);
        [lia|exact N|].
      rewrite Z.sub_0_r in C, F.
      replace (first_of_from set (content s) 0 <? size (content s))
        with true in S by (symmetry; apply Z.ltb_lt; lia).
      assert (S' : firstn (Z.to_nat (first_of_from set (content s) 0)) (content s)
                   = characters) by (injection S; tauto).
      clear S. rewrite S' in C, F.
      assert (K : skipn (List.length characters) (content s) = d :: rest).
      { rewrite C at 1. rewrite skipn_app, Nat.sub_diag, skipn_all. reflexivity. }
      rewrite K.
      repeat split; try tauto; try lia; try (apply NM, F; assumption).
      right. exists d, rest. split; [reflexivity|apply MM; exact M].
  - apply Z.ltb_ge in P.
    assert (content s = []) as EC
      by (destruct (content s) as [|x0 l0]; [reflexivity|rewrite size_cons in P;
          pose proof (size_nonneg l0); lia]).
    rewrite EC in *. cbn in S.
    inversion S; subst characters. cbn.
    repeat split; try tauto; try lia.
Qed.
Lemma find_from_spec (needle content : string_view) (i : Z) :
  needle <> [] ->
  find_from needle content i <> npos ->
  exists pre post,
    content = (pre ++ needle ++ post)%list
    /\ find_from needle content i = i + size pre.
Proof.
  intros NE. revert i. induction content as [|x content IH]; intros i H.
  - destruct needle; [contradiction|]. simpl in H. contradiction.
  - cbn [find_from] in *.
    destruct (starts_with needle (x :: content)) eqn:S.
    + exists [], (skipn (List.length needle) (x :: content)).
      split; [apply starts_with_app; exact S|].
      change (size []) with 0. lia.
    + destruct (IH (i + 1) H) as (pre & post & C & F).
      exists (x :: pre), post. split; [rewrite C; reflexivity|].
      rewrite F, size_cons. lia.
Qed.

Lemma branch_AtCDATA (content : string_view) :
  branch content = Ok AtCDATA ->
  exists rest, content = (sv "<![CDATA[" ++ rest)%list.
Proof.
  unfold branch. intros H.
  apply bind_Ok in H. destruct H as (c0 & A & H).
  apply at_Ok in A. destruct A as [_ A].
  destruct content as [|c rest]; [discriminate|].
  change (nth_error (c :: rest) (Z.to_nat 0)) with (Some c) in A.
  inversion A; subst c0; clear A.
  destruct (Ascii.eqb c "&"); [discriminate|].
  destruct (Ascii.eqb_spec c "<") as [-> | N]; [|discriminate].
  cbn [negb] in H.
  apply bind_Ok in H. destruct H as (isComment & _ & H).
  destruct isComment; [discriminate|].
  apply bind_Ok in H. destruct H as (isCDATA & T & H).
  destruct isCDATA.
  - apply (all_at_indexed _ (sv "![CDATA[") 1) in T; [|lia].
    change (skipn (Z.to_nat 1) ("<"%char :: rest)) with rest in T.
    symmetry in T. apply starts_with_app in T.
    exists (skipn (List.length (sv "![CDATA[")) rest).
    rewrite T at 1. reflexivity.
  - inv_ok.
Qed.

(* the view of the CDATA branch when it looks for the closing mark *)
Lemma findEnd_window (mark : string_view) (msg : string) (s s' : State) (p : Z) :
  findEnd mark msg s = Ok (s', p) ->
  p = find (content s') mark /\ p <> npos
  /\ loc s' = loc s /\ textSize s' = textSize s /\ trace s' = trace s
  /\ (s' = s \/ refill s = Ok s').
Proof.
  unfold findEnd. intros H. inv_ok.
  - match goal with H : refill _ = Ok _ |- _ =>
      pose proof (refill_Ok _ _ H) as (_ & _ & R3 & _ & R5)
    end.
    unfold counters in R3. inversion R3.
    match goal with H : (_ =? npos) = false |- _ => apply Z.eqb_neq in H end.
    repeat split; try assumption; try reflexivity. right. assumption.
  - match goal with H : (_ =? npos) = false |- _ => apply Z.eqb_neq in H end.
    repeat split; try assumption; try reflexivity. left. reflexivity.
Qed.

Lemma parseCDATA_section (s s' : State) :
  parseCDATA s = Ok s' ->
  branch (content s) = Ok AtCDATA ->
  size (content s) <= BUFFER_SIZE ->
  exists window characters,
    (window = content s
     \/ exists s1,
          refill (with_content (skipn 9 (content s)) s) = Ok s1
          /\ window = (sv "<![CDATA[" ++ content s1)%list)
    /\ window = (sv "<![CDATA[" ++ characters ++ sv "]]>" ++ content s')%list
    /\ find (characters ++ sv "]]>" ++ content s')%list (sv "]]>") = size characters
    /\ loc s' = loc s + count LF characters
    /\ textSize s' = textSize s + size characters
    /\ trace s' = CDATA characters :: trace s.
Proof.
  intros H B W. apply branch_AtCDATA in B. destruct B as (rest & C).
  unfold parseCDATA in H. rewrite C in H.
  rewrite remove_prefix_app in H. cbn [bind] in H.
  apply bind_Ok in H. destruct H as ([s1 p] & F & H).
  pose proof (findEnd_effect _ _ _ _ _ F) as FE.
  apply findEnd_window in F. destruct F as (P & N & L & T & R & D).
  cbn [loc textSize trace with_content] in L, T, R.
  assert (W1 : size (content s1) <= BUFFER_SIZE).
  { apply FE. cbn [content with_content]. rewrite C, size_app in W.
    pose proof (size_nonneg (sv "<![CDATA[")). lia. }
  clear FE.
  destruct (find_from_spec (sv "]]>") (content s1) 0) as (pre & post & V & Q);
    [discriminate|unfold find in P; congruence|].
  unfold find in P. rewrite Q, Z.add_0_l in P. subst p.
  apply bind_Ok in H. destruct H as (characters & S & H).
  rewrite V in S. rewrite substr_app in S. inversion S; subst characters; clear S.
  apply bind_Ok in H. destruct H as (n & A1 & H).
  apply bind_Ok in H. destruct H as (l & A2 & H).
  apply bind_Ok in H. destruct H as (v2 & R1 & H).
  apply bind_Ok in H. destruct H as (v3 & R2 & H).
  inversion H; subst s'; clear H.
  cbn [content TRACE with_textSize with_loc] in R1.
  rewrite V, remove_prefix_app in R1.
  assert (v2 = (sv "]]>" ++ post)%list) as -> by congruence. clear R1.
  rewrite remove_prefix_app in R2.
  assert (v3 = post) as -> by congruence. clear R2.
  assert (SP : size pre <= BUFFER_SIZE).
  { rewrite V, size_app in W1. pose proof (size_nonneg (sv "]]>" ++ post)%list). lia. }
  pose proof (size_nonneg pre) as SN. assert (CB := count_bounds LF pre).
  unfold BUFFER_SIZE, BLOCK_SIZE in *.
  rewrite !static_cast_int_small in * by (unfold INT_MAX; lia).
  apply add_int_Ok in A1, A2.
  cbn [loc textSize trace TRACE with_textSize] in A1, A2.
  exists (sv "<![CDATA[" ++ content s1)%list, pre.
  cbn [content loc textSize trace with_content with_loc with_textSize TRACE].
  split.
  { destruct D as [-> | D].
    - left. cbn [content with_content]. symmetry. exact C.
    - right. exists s1. split; [|reflexivity].
      rewrite C.
      replace (skipn 9 (sv "<![CDATA[" ++ rest)%list) with rest by reflexivity.
      exact D. }
  split; [rewrite V; reflexivity|].
  split.
  { rewrite <- V. unfold find. rewrite Q. lia. }
  repeat split; try lia. rewrite R. reflexivity.
Qed.

(** ** What changes LOC *)

Lemma parseCharacterEntity_loc (s s' : State) :
  parseCharacterEntity s = Ok s' -> loc s' = loc s.
Proof. unfold parseCharacterEntity. intros H. inv_ok; reflexivity. Qed.

Lemma findEnd_loc (mark : string_view) (msg : string) (s s' : State) (p : Z) :
  findEnd mark msg s = Ok (s', p) -> loc s' = loc s.
Proof. intros H. apply findEnd_window in H. tauto. Qed.

Lemma parseComment_loc (s s' : State) :
  parseComment s = Ok s' -> loc s' = loc s.
Proof.
  unfold parseComment. intros H. inv_ok.
  match goal with H : findEnd _ _ _ = Ok _ |- _ => apply findEnd_loc in H end.
  assumption.
Qed.

Lemma parsePI_loc (s s' : State) : parsePI s = Ok s' -> loc s' = loc s.
Proof. unfold parsePI. intros H. inv_ok; reflexivity. Qed.

Lemma parseEndTag_loc (s s' : State) (c : Control) :
  parseEndTag s = Ok (c, s') -> loc s' = loc s.
Proof. unfold parseEndTag. intros H. inv_ok; reflexivity. Qed.

Lemma parseNamespace_loc (s s' : State) :
  parseNamespace s = Ok s' -> loc s' = loc s.
Proof. unfold parseNamespace. intros H. inv_ok; reflexivity. Qed.

Lemma parseAttribute_loc (inEscape : bool) (s s' : State) :
  parseAttribute inEscape s = Ok s' -> loc s' = loc s.
Proof.
  unfold parseAttribute. intros H. inv_ok;
    match goal with |- context [if ?b then _ else _] => destruct b end;
    reflexivity.
Qed.

Lemma attributeLoop_loc (fuel : nat) (inEscape : bool) (s s' : State) :
  attributeLoop fuel inEscape s = Ok s' -> loc s' = loc s.
Proof.
  revert s. induction fuel as [|fuel IH]; intros s H; [discriminate|].
  cbn [attributeLoop] in H.
  apply bind_Ok in H. destruct H as (c0 & _ & H).
  apply bind_Ok in H. destruct H as (isName & _ & H).
  destruct isName; [|inversion H; reflexivity].
  apply bind_Ok in H. destruct H as (xmlns & _ & H).
  apply bind_Ok in H. destruct H as (isNamespace & _ & H).
  apply bind_Ok in H. destruct H as (s1 & E & H).
  apply IH in H. rewrite H.
  destruct isNamespace;
    [apply parseNamespace_loc in E|apply parseAttribute_loc in E];
    assumption.
Qed.

Lemma parseStartTag_loc (s s' : State) (c : Control) :
  parseStartTag s = Ok (c, s') -> loc s' = loc s.
Proof.
  unfold parseStartTag. intros H.
  apply bind_Ok in H. destruct H as ([[[q p] l] s1] & O & H).
  assert (L1 : loc s1 = loc s).
  { unfold openStartTag in O. inv_ok.
    match goal with H : attributeLoop _ _ _ = Ok _ |- _ =>
      apply attributeLoop_loc in H; cbn [loc with_content] in H
    end.
    match goal with H : countElement _ _ = Ok _ |- _ =>
      apply countElement_effect in H; cbn [loc TRACE] in H
    end.
    intuition congruence. }
  rewrite <- L1. unfold closeStartTag in H. inv_ok; reflexivity.
Qed.

Lemma trailingComments_loc (fuel : nat) (s s' : State) :
  trailingComments fuel s = Ok s' -> loc s' = loc s.
Proof.
  revert s. induction fuel as [|fuel IH]; intros s H; [discriminate|].
  cbn [trailingComments] in H.
  apply bind_Ok in H. destruct H as (isComment & _ & H).
  destruct isComment; [|inversion H; reflexivity].
  apply bind_Ok in H. destruct H as (s1 & E & H).
  apply bind_Ok in H. destruct H as (view & _ & H).
  apply IH in H. apply parseComment_loc in E.
  cbn [loc with_content] in H. congruence.
Qed.

Lemma prologue_loc (a : Archive) (s : State) : prologue a = Ok s -> loc s = 0.
Proof.
  unfold prologue. intros H.
  apply bind_Ok in H. destruct H as (r & _ & H).
  destruct (bytesRead r <? 0); [discriminate|].
  destruct (bytesRead r =? 0); [discriminate|].
  apply bind_Ok in H. destruct H as (total & _ & H).
  apply bind_Ok in H. destruct H as (view & _ & H).
  apply bind_Ok in H. destruct H as (isDeclaration & _ & H).
  apply bind_Ok in H. destruct H as (s2 & D & H).
  assert (L2 : loc s2 = 0).
  { destruct isDeclaration; [|inversion D; reflexivity].
    unfold parseXMLDeclaration in D. inv_ok; reflexivity. }
  apply bind_Ok in H. destruct H as (isDoctype & _ & H).
  destruct isDoctype; [|inversion H; subst; assumption].
  unfold parseDOCTYPE in H. inv_ok; first [assumption|reflexivity].
Qed.

(** ** The bytes a pass consumes *)

(* [rest] is what is left of [view] after some first bytes *)
Lemma remove_prefix_consumes (n : Z) (view rest : string_view) :
  remove_prefix n view = Ok rest -> exists consumed, view = (consumed ++ rest)%list.
Proof.
  intros H. apply remove_prefix_Ok in H. destruct H as (_ & -> & _).
  exists (firstn (Z.to_nat n) view). symmetry. apply firstn_skipn.
Qed.

Lemma skip_whitespace_consumes (view rest : string_view) :
  skip_whitespace view = Ok rest -> exists consumed, view = (consumed ++ rest)%list.
Proof. apply remove_prefix_consumes. Qed.

Lemma consumes_trans (a b c : string_view) :
  (exists x, a = (x ++ b)%list) -> (exists y, b = (y ++ c)%list) ->
  exists z, a = (z ++ c)%list.
Proof.
  intros (x & ->) (y & ->). exists (x ++ y)%list. apply app_assoc.
Qed.

Lemma consumes_refl (a : string_view) : exists x, a = (x ++ a)%list.
Proof. exists []. reflexivity. Qed.

Ltac consumed :=
  repeat match goal with
  | H : remove_prefix _ _ = Ok _ |- _ => apply remove_prefix_consumes in H
  | H : skip_whitespace _ = Ok _ |- _ => apply skip_whitespace_consumes in H
  end;
  cbn [content with_content with_depth with_url TRACE] in *;
  repeat first
    [ assumption
    | apply consumes_refl
    | match goal with
      | H : exists x, ?a = (x ++ ?b)%list |- exists z, ?a = (z ++ _)%list =>
          apply (consumes_trans a b); [exact H|]; clear H
      end ].

Lemma parseCharacterEntity_consumes (s s' : State) :
  parseCharacterEntity s = Ok s' ->
  exists consumed, content s = (consumed ++ content s')%list.
Proof. unfold parseCharacterEntity. intros H. inv_ok; consumed. Qed.

Lemma parsePI_consumes (s s' : State) :
  parsePI s = Ok s' -> exists consumed, content s = (consumed ++ content s')%list.
Proof. unfold parsePI. intros H. inv_ok; consumed. Qed.

Lemma parseEndTag_consumes (s s' : State) (c : Control) :
  parseEndTag s = Ok (c, s') ->
  exists consumed, content s = (consumed ++ content s')%list.
Proof. unfold parseEndTag. intros H. inv_ok; consumed. Qed.

Lemma parseNamespace_consumes (s s' : State) :
  parseNamespace s = Ok s' ->
  exists consumed, content s = (consumed ++ content s')%list.
Proof. unfold parseNamespace. intros H. inv_ok; consumed. Qed.

Lemma parseAttribute_consumes (inEscape : bool) (s s' : State) :
  parseAttribute inEscape s = Ok s' ->
  exists consumed, content s = (consumed ++ content s')%list.
Proof.
  unfold parseAttribute. intros H. inv_ok;
    match goal with |- context [if ?b then _ else _] => destruct b end;
    consumed.
Qed.

Lemma attributeLoop_consumes (fuel : nat) (inEscape : bool) (s s' : State) :
  attributeLoop fuel inEscape s = Ok s' ->
  exists consumed, content s = (consumed ++ content s')%list.
Proof.
  revert s. induction fuel as [|fuel IH]; intros s H; [discriminate|].
  cbn [attributeLoop] in H.
  apply bind_Ok in H. destruct H as (c0 & _ & H).
  apply bind_Ok in H. destruct H as (isName & _ & H).
  destruct isName; [|inversion H; apply consumes_refl].
  apply bind_Ok in H. destruct H as (xmlns & _ & H).
  apply bind_Ok in H. destruct H as (isNamespace & _ & H).
  apply bind_Ok in H. destruct H as (s1 & E & H).
  apply IH in H. apply (consumes_trans _ (content s1)); [|exact H].
  destruct isNamespace;
    [apply parseNamespace_consumes in E|apply parseAttribute_consumes in E];
    assumption.
Qed.

Lemma parseStartTag_consumes (s s' : State) (c : Control) :
  parseStartTag s = Ok (c, s') ->
  exists consumed, content s = (consumed ++ content s')%list.
Proof.
  unfold parseStartTag. intros H.
  apply bind_Ok in H. destruct H as ([[[q p] l] s1] & O & H).
  apply (consumes_trans _ (content s1)).
  - unfold openStartTag in O. inv_ok.
    match goal with H : attributeLoop _ _ _ = Ok _ |- _ =>
      apply attributeLoop_consumes in H
    end.
    consumed.
  - unfold closeStartTag in H. inv_ok; consumed.
Qed.

Lemma branch_AtComment (content : string_view) :
  branch content = Ok AtComment ->
  exists rest, content = (sv "<!--" ++ rest)%list.
Proof.
  unfold branch. intros H.
  apply bind_Ok in H. destruct H as (c0 & A & H).
  apply at_Ok in A. destruct A as [_ A].
  destruct content as [|c rest]; [discriminate|].
  change (nth_error (c :: rest) (Z.to_nat 0)) with (Some c) in A.
  inversion A; subst c0; clear A.
  destruct (Ascii.eqb c "&"); [discriminate|].
  destruct (Ascii.eqb_spec c "<") as [-> | N]; [|discriminate].
  cbn [negb] in H.
  apply bind_Ok in H. destruct H as (isComment & T & H).
  destruct isComment.
  - apply (all_at_indexed _ (sv "!--") 1) in T; [|lia].
    change (skipn (Z.to_nat 1) ("<"%char :: rest)) with rest in T.
    symmetry in T. apply starts_with_app in T.
    exists (skipn (List.length (sv "!--")) rest).
    rewrite T at 1. reflexivity.
  - inv_ok.
Qed.

Lemma parseComment_section (s s' : State) :
  parseComment s = Ok s' ->
  branch (content s) = Ok AtComment ->
  exists window comment,
    (window = content s
     \/ exists s1,
          refill (with_content (skipn 4 (content s)) s) = Ok s1
          /\ window = (sv "<!--" ++ content s1)%list)
    /\ window = (sv "<!--" ++ comment ++ sv "-->" ++ content s')%list
    /\ find (comment ++ sv "-->" ++ content s')%list (sv "-->") = size comment
    /\ loc s' = loc s
    /\ trace s' = COMMENT comment :: trace s.
Proof.
  intros H B. apply branch_AtComment in B. destruct B as (rest & C).
  unfold parseComment in H. rewrite C in H.
  rewrite remove_prefix_app in H. cbn [bind] in H.
  apply bind_Ok in H. destruct H as ([s1 p] & F & H).
  apply findEnd_window in F. destruct F as (P & N & L & T & R & D).
  cbn [loc textSize trace with_content] in L, T, R.
  destruct (find_from_spec (sv "-->") (content s1) 0) as (pre & post & V & Q);
    [discriminate|unfold find in P; congruence|].
  unfold find in P. rewrite Q, Z.add_0_l in P. subst p.
  apply bind_Ok in H. destruct H as (comment & S & H).
  rewrite V in S. rewrite substr_app in S.
  assert (comment = pre) as -> by congruence. clear S.
  apply bind_Ok in H. destruct H as (v2 & R1 & H).
  apply bind_Ok in H. destruct H as (v3 & R2 & H).
  inversion H; subst s'; clear H.
  cbn [content TRACE] in R1.
  rewrite V, remove_prefix_app in R1.
  assert (v2 = (sv "-->" ++ post)%list) as -> by congruence. clear R1.
  rewrite remove_prefix_app in R2.
  assert (v3 = post) as -> by congruence. clear R2.
  exists (sv "<!--" ++ content s1)%list, pre.
  cbn [content loc trace with_content TRACE].
  split.
  { destruct D as [-> | D].
    - left. cbn [content with_content]. symmetry. exact C.
    - right. exists s1. split; [|reflexivity].
      rewrite C.
      replace (skipn 4 (sv "<!--" ++ rest)%list) with rest by reflexivity.
      exact D. }
  split; [rewrite V; reflexivity|].
  split.
  { rewrite <- V. unfold find. rewrite Q. lia. }
  split; [exact L|]. rewrite R. reflexivity.
Qed.

(** * The statements of the specification *)

(** C1, boundary independence, does not hold of the code.  A document
    that is parsed when standard input delivers it in one block is
    rejected, or leaves the defined behaviour of [std::string_view], when
    the same bytes arrive in smaller reads: with reads of 4096 bytes a
    processing instruction that runs past the window is fatal (the branch
    has no refill, the comment and CDATA branches have one); with reads of
    7 bytes the single refill of the comment branch is not enough; with
    reads of 1 byte the first look at [content[1]] is outside the view.
    In the other direction, text after the root element is an error in
    one block and goes unread with reads of 2 bytes.  The place where a
    read ends also decides the outcome on standard input itself: a
    processing instruction that starts with BLOCK_SIZE bytes left of the
    first read is fatal, and is parsed when one more byte of text
    precedes it. *)
Theorem chunked_delivery_changes_the_outcome :
  main (stdin pi_document) = Exited 0 (Some (table 4000 0 1)) []
  /\ main (chunked 4096 pi_document)
     = Exited 1 None ["parser error: Incomplete XML declaration"]
  /\ main (stdin comment_document) = Exited 0 (Some (table 0 0 1)) []
  /\ main (chunked 7 comment_document)
     = Exited 1 None ["parser error : Unterminated XML comment"]
  /\ main (stdin self_closing_root) = Exited 0 (Some (table 0 0 1)) []
  /\ main (chunked 1 self_closing_root) = Crashed OutOfView
  /\ main (stdin trailing_text_document)
     = Exited 1 None ["parser error : extra content at end of document"]
  /\ main (chunked 2 trailing_text_document) = Exited 0 (Some (table 0 0 1)) []
  /\ main (stdin straddling_pi_document)
     = Exited 1 None ["parser error: Incomplete XML declaration"]
  /\ main (stdin shifted_pi_document) = Exited 0 (Some (table 1040382 0 1)) [].
Proof. evaluate. Qed.

(** C2 as stated fails: the text of the example adds 8 to the text size,
    not 4. *)
Lemma entity_example_is_not_four :
  exists s, parse (stdin entity_document) = Ok s
            /\ textSize s = 8 /\ textSize s <> 4.
Proof.
  eexists. split; [vm_compute; reflexivity|]. split; [reflexivity|discriminate].
Qed.

(** C2 amended: every ampersand is one token that adds 1 to the text size
    and nothing to LOC; the token is the reference [&lt;], [&gt;] or
    [&amp;] when the view starts with one, and the ampersand alone
    otherwise, the bytes after it being read on as ordinary text.  So the
    example adds 8: one for each of the three references, one for the
    lone ampersand, and four for the text run [zzz;] that follows it;
    it adds 0 to LOC. *)
Theorem ampersand_is_one_character :
  (forall (s s' : State),
      branch (content s) = Ok AtEntity ->
      parseCharacterEntity s = Ok s' ->
      textSize s' = textSize s + 1 /\ loc s' = loc s
      /\ content s = (escaped_at (content s) ++ content s')%list)
  /\ measures (parse (stdin entity_document)) = Ok (8, 0, 0, 0, 0, 0, 0, 0, [])
  /\ events (parse (stdin entity_document))
     = Ok [START_DOCUMENT; START_TAG (sv "a") [] (sv "a");
           CHARACTERS (sv "<"); CHARACTERS (sv ">"); CHARACTERS (sv "&");
           CHARACTERS (sv "&"); CHARACTERS (sv "zzz;");
           END_TAG (sv "a") [] (sv "a"); END_DOCUMENT].
Proof.
  split; [|evaluate].
  intros s s' B H. pose proof (parseCharacterEntity_spec s s' B H). tauto.
Qed.

Lemma ampersand_is_one_character_witness :
  exists s',
    branch (content (looking_at (sv "&zzz;</a>") (opened []) true)) = Ok AtEntity
    /\ parseCharacterEntity (looking_at (sv "&zzz;</a>") (opened []) true) = Ok s'
    /\ (textSize s' = textSize (looking_at (sv "&zzz;</a>") (opened []) true) + 1
        /\ loc s' = loc (looking_at (sv "&zzz;</a>") (opened []) true)
        /\ content (looking_at (sv "&zzz;</a>") (opened []) true)
           = (escaped_at (content (looking_at (sv "&zzz;</a>") (opened []) true))
                ++ content s')%list).
Proof.
  eexists. split; [vm_compute; reflexivity|].
  split; [vm_compute; reflexivity|].
  apply (proj1 ampersand_is_one_character
           (looking_at (sv "&zzz;</a>") (opened []) true));
    vm_compute; reflexivity.
Defined.

(** C3, the bound on the window, does not hold of the code.  The refill
    of the comment branch is called with all of the window still
    unconsumed: [refillContent] then asks for BUFFER_SIZE - BLOCK_SIZE
    bytes behind a prefix of more than BLOCK_SIZE bytes, and the read
    runs past the end of [buffer]. *)
Theorem comment_retry_overflows_the_buffer :
  main (stdin megabyte_comment) = Crashed BufferOverflow.
Proof. vm_compute. reflexivity. Qed.


(** C4 as stated fails: an end tag with no element open takes the depth
    below zero, and a self-closing tag does not lower it.  The loop ends
    at depth -1 on [</a>]; after [<a><b/>] the depth is 1, that of [<a>]. *)
Lemma depth_goes_negative :
  final_depth (parse (stdin (sv "</a>"))) = Ok (-1)
  /\ main (stdin (sv "</a>")) = Exited 0 (Some (table 0 0 1)) []
  /\ final_depth (parse (stdin (sv "<a><b/>"))) = Ok 1
  /\ final_depth (parse (stdin (sv "<a>"))) = Ok 1.
Proof. evaluate. Qed.

(** C4 amended: the depth is an integer that is 0 when the element loop
    is entered; a pass of the loop lowers it by one when it parses an end
    tag, raises it by one when it parses a start tag that a [>] closes,
    and leaves it unchanged otherwise, in particular on a self-closing
    tag and when the loop refills the window.  Nothing keeps it from
    going below zero. *)
Theorem depth_follows_the_tags :
  (forall (a : Archive) (s : State), prologue a = Ok s -> depth s = 0)
  /\ (forall (s s' : State), refill s = Ok s' -> depth s' = depth s)
  /\ (forall (s s' : State) (c : Control),
        dispatch s = Ok (c, s') ->
        exists b,
          branch (content s) = Ok b
          /\ match b with
             | AtEndTag => depth s' = depth s - 1
             | AtStartTag =>
                 exists qName prefix localName s1,
                   openStartTag s = Ok (qName, prefix, localName, s1)
                   /\ closeStartTag qName prefix localName s1 = Ok (c, s')
                   /\ depth s1 = depth s
                   /\ depth s' = if starts_with (sv ">") (content s1)
                                 then depth s + 1 else depth s
             | _ => depth s' = depth s
             end).
Proof.
  split; [|split].
  - intros a s H. apply prologue_effect in H. tauto.
  - intros s s' H. apply refill_Ok in H. tauto.
  - intros s s' c H. unfold dispatch in H.
    apply bind_Ok in H. destruct H as (b & B & H).
    exists b. split; [assumption|].
    destruct b.
    + inv_ok. apply parseCharacterEntity_depth. assumption.
    + inv_ok. apply parseCharacters_depth. assumption.
    + inv_ok. apply parseComment_depth. assumption.
    + inv_ok. apply parseCDATA_depth. assumption.
    + inv_ok. apply parsePI_depth. assumption.
    + eapply parseEndTag_depth. eassumption.
    + unfold parseStartTag in H.
      apply bind_Ok in H. destruct H as ([[[q p] l] s1] & O & H).
      exists q, p, l, s1. split; [assumption|]. split; [assumption|].
      pose proof (openStartTag_depth _ _ _ _ _ O) as D.
      split; [assumption|].
      apply closeStartTag_depth in H. rewrite D in H. assumption.
    + discriminate.
Qed.

Lemma depth_follows_the_tags_witness :
  exists s',
    dispatch (looking_at (sv "</a>") (opened []) true) = Ok (Break, s')
    /\ exists b,
         branch (content (looking_at (sv "</a>") (opened []) true)) = Ok b
         /\ match b with
            | AtEndTag =>
                depth s' = depth (looking_at (sv "</a>") (opened []) true) - 1
            | AtStartTag =>
                exists qName prefix localName s1,
                  openStartTag (looking_at (sv "</a>") (opened []) true)
                  = Ok (qName, prefix, localName, s1)
                  /\ closeStartTag qName prefix localName s1 = Ok (Break, s')
                  /\ depth s1 = depth (looking_at (sv "</a>") (opened []) true)
                  /\ depth s' = if starts_with (sv ">") (content s1)
                                then depth (looking_at (sv "</a>") (opened []) true) + 1
                                else depth (looking_at (sv "</a>") (opened []) true)
            | _ => depth s' = depth (looking_at (sv "</a>") (opened []) true)
            end.
Proof.
  eexists. split; [vm_compute; reflexivity|].
  apply (proj2 (proj2 depth_follows_the_tags)
           (looking_at (sv "</a>") (opened []) true)).
  vm_compute. reflexivity.
Defined.




(** C6: when the parse succeeds, the table is printed and its Files row
    is max(unitCount - 1, 1), computed without overflow; unit counts 0, 1
    and 5 give 1, 1 and 4 files. *)
Theorem files_is_units_less_the_wrapper :
  (forall (a : Archive) (s : State),
      parse a = Ok s ->
      exists r, main a = Exited 0 (Some r) []
                /\ Files r = Z.max (unitCount s - 1) 1)
  /\ files 0 = Ok 1 /\ files 1 = Ok 1 /\ files 5 = Ok 4
  /\ measures (parse (stdin (sv "<a/>"))) = Ok (0, 0, 0, 0, 0, 0, 0, 0, [])
  /\ main (stdin (sv "<a/>")) = Exited 0 (Some (table 0 0 1)) []
  /\ measures (parse (stdin self_closing_root)) = Ok (0, 0, 0, 0, 0, 0, 1, 0, [])
  /\ main (stdin self_closing_root) = Exited 0 (Some (table 0 0 1)) []
  /\ measures (parse (stdin five_units)) = Ok (0, 0, 0, 0, 0, 0, 5, 0, [])
  /\ main (stdin five_units) = Exited 0 (Some (table 0 0 4)) [].
Proof.
  split; [|evaluate].
  intros a s H. pose proof (parse_effect _ _ H) as (_ & U).
  assert (F : files (unitCount s) = Ok (Z.max (unitCount s - 1) 1)).
  { unfold files, add_int, in_int.
    replace ((INT_MIN <=? unitCount s + -1) && (unitCount s + -1 <=? INT_MAX))
      with true; [reflexivity|].
    symmetry. apply andb_true_iff. unfold INT_MIN, INT_MAX in *.
    split; apply Z.leb_le; lia. }
  unfold main. rewrite H. simpl. unfold report. rewrite F. simpl.
  eexists. split; reflexivity.
Qed.

Lemma files_is_units_less_the_wrapper_witness :
  exists s, parse (stdin five_units) = Ok s
            /\ exists r, main (stdin five_units) = Exited 0 (Some r) []
                         /\ Files r = Z.max (unitCount s - 1) 1.
Proof.
  eexists. split.
  - vm_compute. reflexivity.
  - apply (proj1 files_is_units_less_the_wrapper (stdin five_units)).
    vm_compute. reflexivity.
Defined.

(** C7: the document [<unit/>] is parsed with one unit and every other
    measure at zero, the table shows one file, and the element loop is
    left in its first pass, at the [/>], with nothing of the view
    consumed after it: followed by a second [<unit/>], the loop leaves
    that one in the view, still counts one unit, and [main] reports the
    extra content. *)
Theorem self_closing_root_is_one_unit :
  main (stdin self_closing_root) = Exited 0 (Some (table 0 0 1)) []
  /\ measures (parse (stdin self_closing_root)) = Ok (0, 0, 0, 0, 0, 0, 1, 0, [])
  /\ (s <- prologue (stdin self_closing_root) ;;
      ' (control, s) <- iteration s ;;
      Ok (control, content s, depth s, counters s))
     = Ok (Break, [], 0, (0, 0, 0, 0, 0, 0, 1, 0, []))
  /\ (s <- prologue (stdin two_roots) ;;
      ' (control, s) <- iteration s ;;
      Ok (control, content s, depth s, counters s))
     = Ok (Break, self_closing_root, 0, (0, 0, 0, 0, 0, 0, 1, 0, []))
  /\ main (stdin two_roots)
     = Exited 1 None ["parser error : extra content at end of document"].
Proof. evaluate. Qed.

(** C8: a processing instruction whose [?>] is not in the view is fatal
    at once, whatever the byte source still holds: the branch never
    calls the refill.  In the same window and with the same source, the
    comment and the CDATA branches refill once and find their closing
    mark in the bytes that arrive. *)
Theorem processing_instruction_is_not_retried :
  (forall (s : State) (rest : string_view),
      content s = ("<" :: "?" :: rest)%char ->
      find rest (sv "?>") = npos ->
      dispatch s = Fatal ["parser error: Incomplete XML declaration"])
  /\ dispatch (looking_at (sv "<?pi x") (opened (sv "?>-->]]></a>")) false)
     = Fatal ["parser error: Incomplete XML declaration"]
  /\ (r <- dispatch (looking_at (sv "<!-- x") (opened (sv "?>-->]]></a>")) false) ;;
      Ok (fst r, content (snd r), totalBytes (snd r)))
     = Ok (Continue, sv "]]></a>", 18)
  /\ (r <- dispatch (looking_at (sv "<![CDATA[x") (opened (sv "?>-->]]></a>")) false) ;;
      Ok (fst r, content (snd r), totalBytes (snd r)))
     = Ok (Continue, sv "</a>", 22).
Proof.
  split; [|evaluate].
  intros s rest C F.
  assert (B : branch (content s) = Ok AtPI).
  { rewrite C. unfold branch. rewrite at_0. simpl. rewrite at_1. reflexivity. }
  unfold dispatch. rewrite B. cbn [bind]. unfold parsePI. rewrite C.
  change ("<" :: "?" :: rest)%char with (sv "<?" ++ rest)%list.
  rewrite remove_prefix_app. cbn [bind]. rewrite F. reflexivity.
Qed.

Lemma processing_instruction_is_not_retried_witness :
  content (looking_at (sv "<?pi x") (opened (sv "?>-->]]></a>")) false)
  = ("<" :: "?" :: sv "pi x")%char
  /\ find (sv "pi x") (sv "?>") = npos
  /\ dispatch (looking_at (sv "<?pi x") (opened (sv "?>-->]]></a>")) false)
     = Fatal ["parser error: Incomplete XML declaration"].
Proof.
  split; [reflexivity|]. split; [vm_compute; reflexivity|].
  apply (proj1 processing_instruction_is_not_retried _ (sv "pi x"));
    vm_compute; reflexivity.
Defined.

(** C9, exit status 1 for every erroneous input, does not hold of the
    code.  An unterminated comment in a document shorter than a block
    makes the comment branch call [refillContent] after the end of the
    data, on the archive that the previous call has freed; an
    unterminated start tag escapes the test
    [nameEndPosition == content.size()] (the search returns [npos]) and
    [content[npos]] is read; an unterminated DOCTYPE leads to
    [remove_prefix(npos)].  None of the three reaches a diagnostic. *)
Theorem errors_without_diagnostic :
  main (stdin (sv "<a><!-- x")) = Crashed UseAfterFree
  /\ main (stdin (sv "<unit")) = Crashed OutOfView
  /\ main (stdin (sv "<!DOCTYPE a")) = Crashed PrefixTooLong.
Proof. evaluate. Qed.

(** C10: an end tag is accepted whatever its name.  With [</name>] at
    the start of the view, for any non-empty [name] free of the bytes
    that end a name, and likewise for a prefixed [prefix:local], the loop
    consumes the tag, lowers the depth by one and changes no measure;
    nothing in the variables of [main] records the names of the open
    elements.  The document [<unit></foo>] is accepted with the measures
    of [<unit></unit>]. *)
Theorem end_tag_name_is_not_compared :
  (forall (s : State) (name rest : string_view),
      name <> [] ->
      (forall c, In c name -> mem c NAMEEND = false) ->
      content s = (sv "</" ++ name ++ ">"%char :: rest)%list ->
      size (content s) <= BUFFER_SIZE ->
      INT_MIN < depth s <= INT_MAX ->
      exists s',
        dispatch s = Ok (if depth s =? 1 then Break else Continue, s')
        /\ depth s' = depth s - 1
        /\ content s' = rest
        /\ counters s' = counters s
        /\ trace s' = END_TAG name [] name :: trace s)
  /\ (forall (s : State) (prefix localName rest : string_view),
      prefix <> [] ->
      (forall c, In c prefix -> mem c NAMEEND = false) ->
      (forall c, In c localName -> mem c NAMEEND = false) ->
      content s
      = (sv "</" ++ (prefix ++ ":"%char :: localName) ++ ">"%char :: rest)%list ->
      size (content s) <= BUFFER_SIZE ->
      INT_MIN < depth s <= INT_MAX ->
      exists s',
        dispatch s = Ok (if depth s =? 1 then Break else Continue, s')
        /\ depth s' = depth s - 1
        /\ content s' = rest
        /\ counters s' = counters s
        /\ trace s'
           = END_TAG (prefix ++ ":"%char :: localName)%list prefix localName
               :: trace s)
  /\ main (stdin (sv "<unit></foo>")) = Exited 0 (Some (table 0 0 1)) []
  /\ main (stdin (sv "<unit></unit>")) = Exited 0 (Some (table 0 0 1)) []
  /\ measures (parse (stdin (sv "<unit></foo>")))
     = measures (parse (stdin (sv "<unit></unit>")))
  /\ measures (parse (stdin (sv "<unit><expr></decl></wrong>")))
     = measures (parse (stdin (sv "<unit><expr></expr></unit>"))).
Proof.
  split; [|split; [|evaluate]].
  - intros s name rest N F C W D.
    assert (SW : size name < npos).
    { rewrite C in W. rewrite !size_app, size_cons in W.
      pose proof (size_nonneg rest). pose proof (size_nonneg (sv "</")).
      pose proof npos_large. lia. }
    destruct name as [|n0 name']; [contradiction|]. clear N.
    set (name := n0 :: name') in *.
    assert (F0 : mem n0 NAMEEND = false) by (apply F; left; reflexivity).
    assert (B : branch (content s) = Ok AtEndTag).
    { rewrite C. unfold branch. simpl app. rewrite at_0. simpl.
      rewrite at_1. reflexivity. }
    unfold dispatch. rewrite B. cbn [bind]. unfold parseEndTag. rewrite C.
    rewrite remove_prefix_app. cbn [bind].
    replace (at_ (name ++ ">"%char :: rest)%list 0) with (Ok n0)
      by (symmetry; apply at_0).
    cbn [bind]. rewrite (mem_colon_NAMEEND n0 F0).
    rewrite (find_first_of_app NAMEEND name rest ">")
      by (assumption || reflexivity).
    pose proof (size_nonneg name) as SN. pose proof (size_nonneg rest) as SR.
    replace (size name =? size (name ++ ">"%char :: rest)%list) with false
      by (symmetry; apply Z.eqb_neq; rewrite size_app, size_cons; lia).
    replace (scanName (name ++ ">"%char :: rest)%list (size name))
      with (Ok (size name, 0)) by (unfold scanName; rewrite at_app; reflexivity).
    cbn [bind]. rewrite substr_app. cbn [bind].
    replace (empty name) with false by reflexivity.
    unfold afterColon. simpl (0 =? 0).
    replace (substr name 0 0) with (Ok (@nil ascii))
      by (symmetry; apply (substr_app [] name)).
    cbn [bind].
    replace (substr name 0 npos) with (Ok name)
      by (symmetry; apply (substr_middle [] name); assumption).
    cbn [bind]. rewrite remove_prefix_app. cbn [bind].
    rewrite skip_whitespace_none by reflexivity. cbn [bind].
    change (remove_prefix (size (sv ">")) (">"%char :: rest))
      with (remove_prefix (size (sv ">")) (sv ">" ++ rest)%list).
    rewrite remove_prefix_app. cbn [bind depth TRACE].
    unfold add_int, in_int.
    replace ((INT_MIN <=? depth s + -1) && (depth s + -1 <=? INT_MAX)) with true
      by (symmetry; apply andb_true_iff; unfold INT_MIN, INT_MAX in *;
          split; apply Z.leb_le; lia).
    cbn [bind]. eexists. split.
    + f_equal. f_equal.
      destruct (Z.eqb_spec (depth s + -1) 0), (Z.eqb_spec (depth s) 1);
        try reflexivity; lia.
    + simpl. repeat split; try reflexivity; lia.
  - intros s prefix localName rest N FP FL C W D.
    set (q := (prefix ++ ":"%char :: localName)%list) in *.
    assert (SW : size q < npos).
    { rewrite C in W. rewrite !size_app, size_cons in W.
      pose proof (size_nonneg rest). pose proof (size_nonneg (sv "</")).
      pose proof npos_large. lia. }
    destruct prefix as [|p0 prefix']; [contradiction|]. clear N.
    set (prefix := p0 :: prefix') in *.
    assert (F0 : mem p0 NAMEEND = false) by (apply FP; left; reflexivity).
    assert (B : branch (content s) = Ok AtEndTag).
    { rewrite C. unfold branch. simpl app. rewrite at_0. simpl.
      rewrite at_1. reflexivity. }
    unfold dispatch. rewrite B. cbn [bind]. unfold parseEndTag. rewrite C.
    rewrite remove_prefix_app. cbn [bind].
    replace (at_ (q ++ ">"%char :: rest)%list 0) with (Ok p0)
      by (symmetry; apply at_0).
    cbn [bind]. rewrite (mem_colon_NAMEEND p0 F0).
    assert (V : (q ++ ">"%char :: rest
                 = prefix ++ ":"%char :: localName ++ ">"%char :: rest)%list).
    { subst q. rewrite <- app_assoc. reflexivity. }
    pose proof (size_nonneg prefix) as SP.
    pose proof (size_nonneg localName) as SL.
    pose proof (size_nonneg rest) as SR.
    assert (SQ : size q = size prefix + 1 + size localName).
    { subst q. rewrite size_app, size_cons. lia. }
    replace (find_first_of (q ++ ">"%char :: rest)%list NAMEEND 0)
      with (size prefix)
      by (rewrite V; symmetry; apply find_first_of_app;
          [assumption|reflexivity]).
    replace (size prefix =? size (q ++ ">"%char :: rest)%list) with false
      by (symmetry; apply Z.eqb_neq; rewrite size_app, size_cons; lia).
    replace (scanName (q ++ ">"%char :: rest)%list (size prefix))
      with (Ok (size q, size prefix)).
    2:{ symmetry. unfold scanName. rewrite V at 1. rewrite at_app.
        cbn [bind]. change (Ascii.eqb ":" ":") with true. cbv iota.
        f_equal. f_equal.
        unfold size_t_wrap. rewrite Z.mod_small by (unfold npos in SW; lia).
        replace (q ++ ">"%char :: rest)%list
          with ((prefix ++ [":"%char]) ++ localName ++ ">"%char :: rest)%list
          by (rewrite V, <- app_assoc; reflexivity).
        replace (size prefix + 1) with (size (prefix ++ [":"%char])%list)
          by (rewrite size_app; reflexivity).
        rewrite find_first_of_from by (assumption || reflexivity).
        rewrite size_app. change (size [":"%char]) with 1. lia. }
    cbn [bind]. rewrite substr_app. cbn [bind].
    replace (empty q) with false by reflexivity.
    replace (substr q 0 (size prefix)) with (Ok prefix)
      by (symmetry; apply substr_app).
    cbn [bind].
    replace (afterColon (size prefix)) with (size (prefix ++ [":"%char])%list).
    2:{ unfold afterColon. rewrite size_app. change (size [":"%char]) with 1.
        replace (size prefix =? 0) with false
          by (symmetry; apply Z.eqb_neq; subst prefix; rewrite size_cons;
              pose proof (size_nonneg prefix'); lia).
        unfold size_t_wrap. rewrite Z.mod_small by (unfold npos in SW; lia).
        reflexivity. }
    replace (substr q (size (prefix ++ [":"%char])%list) npos) with (Ok localName).
    2:{ symmetry.
        replace q with ((prefix ++ [":"%char]) ++ localName)%list
          by (subst q; rewrite <- app_assoc; reflexivity).
        apply substr_middle.
        replace ((prefix ++ [":"%char]) ++ localName)%list with q
          by (subst q; rewrite <- app_assoc; reflexivity).
        assumption. }
    cbn [bind]. rewrite remove_prefix_app. cbn [bind].
    rewrite skip_whitespace_none by reflexivity. cbn [bind].
    change (remove_prefix (size (sv ">")) (">"%char :: rest))
      with (remove_prefix (size (sv ">")) (sv ">" ++ rest)%list).
    rewrite remove_prefix_app. cbn [bind depth TRACE].
    unfold add_int, in_int.
    replace ((INT_MIN <=? depth s + -1) && (depth s + -1 <=? INT_MAX)) with true
      by (symmetry; apply andb_true_iff; unfold INT_MIN, INT_MAX in *;
          split; apply Z.leb_le; lia).
    cbn [bind]. eexists. split.
    + f_equal. f_equal.
      destruct (Z.eqb_spec (depth s + -1) 0), (Z.eqb_spec (depth s) 1);
        try reflexivity; lia.
    + simpl. repeat split; try reflexivity; lia.
Qed.

Lemma end_tag_name_is_not_compared_witness :
  exists s',
    dispatch (looking_at (sv "</foo>") (opened []) true) = Ok (Break, s')
    /\ depth s' = 0 /\ content s' = [] /\ trace s' = [END_TAG (sv "foo") [] (sv "foo")].
Proof.
  destruct (proj1 end_tag_name_is_not_compared
              (looking_at (sv "</foo>") (opened []) true) (sv "foo") [])
    as (s' & D & E & C & _ & T).
  - discriminate.
  - intros c I. simpl in I.
    repeat (destruct I as [<-|I]; [reflexivity|]). contradiction.
  - reflexivity.
  - vm_compute. discriminate.
  - vm_compute. split; [reflexivity|discriminate].
  - exists s'. repeat split; assumption.
Defined.

(** * Further properties of the parser *)

(** ** The measures agree with the traced events *)

Lemma sv_eqb_eq (a b : string_view) : sv_eqb a b = true <-> a = b.
Proof.
  revert b. induction a as [|x a IH]; intros [|y b]; simpl;
    try (split; (discriminate || reflexivity)).
  rewrite andb_true_iff, Ascii.eqb_eq, IH.
  split; [intros [-> ->]; reflexivity|intros E; inversion E; tauto].
Qed.

Lemma countElement_counts (localName : string_view) (s s' : State) :
  countElement localName s = Ok s' ->
  exprCount s' = exprCount s + (if sv_eqb localName (sv "expr") then 1 else 0)
  /\ declCount s' = declCount s + (if sv_eqb localName (sv "decl") then 1 else 0)
  /\ commentCount s'
     = commentCount s + (if sv_eqb localName (sv "comment") then 1 else 0)
  /\ functionCount s'
     = functionCount s + (if sv_eqb localName (sv "function") then 1 else 0)
  /\ unitCount s' = unitCount s + (if sv_eqb localName (sv "unit") then 1 else 0)
  /\ classCount s' = classCount s + (if sv_eqb localName (sv "class") then 1 else 0)
  /\ textSize s' = textSize s /\ url s' = url s /\ totalBytes s' = totalBytes s.
Proof.
  unfold countElement. intros H.
  destruct (sv_eqb localName (sv "expr")) eqn:E1;
    [apply sv_eqb_eq in E1; subst localName|];
  [|destruct (sv_eqb localName (sv "decl")) eqn:E2;
    [apply sv_eqb_eq in E2; subst localName|]];
  [| |destruct (sv_eqb localName (sv "comment")) eqn:E3;
    [apply sv_eqb_eq in E3; subst localName|]];
  [| | |destruct (sv_eqb localName (sv "function")) eqn:E4;
    [apply sv_eqb_eq in E4; subst localName|]];
  [| | | |destruct (sv_eqb localName (sv "unit")) eqn:E5;
    [apply sv_eqb_eq in E5; subst localName|]];
  [| | | | |destruct (sv_eqb localName (sv "class")) eqn:E6;
    [apply sv_eqb_eq in E6; subst localName|]].
  all: inv_ok; facts; simpl; repeat split; lia.
Qed.

Lemma refill_measures (s s' : State) :
  refill s = Ok s' ->
  delivered s' = delivered s
  /\ (Measured s -> Measured s').
Proof.
  unfold refill. intros H. inv_ok.
  match goal with H : (bytesRead _ <? 0) = false |- _ => apply Z.ltb_ge in H end.
  match goal with H : refillContent _ _ _ = Ok _ |- _ =>
    apply refillContent_Ok in H; [|assumption]; destruct H as (R1 & R2 & R3 & R4)
  end.
  match goal with H : add_long _ _ = Ok _ |- _ =>
    unfold add_long in H; destruct (_ && _) in H; [|discriminate];
    inversion H; subst; clear H
  end.
  split; [unfold delivered; simpl; lia|].
  unfold Measured. simpl. tauto.
Qed.

Ltac measured :=
  facts; unfold Measured, delivered, size in *;
  cbn -[Z.add Z.of_nat Z.sub sv size] in *;
  unfold size in *; cbn [List.length] in *;
  repeat split; try reflexivity; try tauto; try lia.

Lemma parseCharacterEntity_measures (s s' : State) :
  parseCharacterEntity s = Ok s' ->
  delivered s' = delivered s /\ (Measured s -> Measured s').
Proof.
  unfold parseCharacterEntity. intros H. inv_ok; measured.
Qed.

Lemma parseCharacters_measures (s s' : State) :
  parseCharacters s = Ok s' ->
  size (content s) <= BUFFER_SIZE ->
  delivered s' = delivered s /\ (Measured s -> Measured s').
Proof.
  unfold parseCharacters. intros H I. inv_ok.
  match goal with H : substr _ 0 _ = Ok ?r |- _ =>
    pose proof (substr_size _ _ _ _ H) as SZ;
    pose proof (size_nonneg r) as SN
  end.
  unfold BUFFER_SIZE, BLOCK_SIZE in *.
  rewrite (static_cast_int_small (size _)) in * by (unfold INT_MAX; lia).
  measured.
Qed.

Lemma findEnd_measures (mark : string_view) (msg : string) (s s' : State) (p : Z) :
  findEnd mark msg s = Ok (s', p) ->
  delivered s' = delivered s /\ (Measured s -> Measured s').
Proof.
  unfold findEnd. intros H. inv_ok.
  - match goal with H : refill _ = Ok _ |- _ => apply refill_measures in H end.
    assumption.
  - tauto.
Qed.

Lemma parseComment_measures (s s' : State) :
  parseComment s = Ok s' ->
  delivered s' = delivered s /\ (Measured s -> Measured s').
Proof.
  unfold parseComment. intros H. inv_ok.
  match goal with H : findEnd _ _ _ = Ok _ |- _ =>
    apply findEnd_measures in H; destruct H as (D & M)
  end.
  unfold Measured, delivered in *. simpl in *. tauto.
Qed.

Lemma parseCDATA_measures (s s' : State) :
  parseCDATA s = Ok s' ->
  size (content s) <= BUFFER_SIZE ->
  delivered s' = delivered s /\ (Measured s -> Measured s').
Proof.
  unfold parseCDATA. intros H I. inv_ok.
  match goal with H : findEnd _ _ (with_content ?v ?s) = Ok _ |- _ =>
    pose proof (findEnd_measures _ _ _ _ _ H) as (D & M);
    apply findEnd_effect in H;
    [ destruct H as (F1 & _)
    | match goal with R : remove_prefix _ _ = Ok v |- _ =>
        apply remove_prefix_Ok in R; simpl; lia end ]
  end.
  match goal with H : substr _ 0 _ = Ok ?r |- _ =>
    pose proof (substr_size _ _ _ _ H) as SZ;
    pose proof (size_nonneg r) as SN
  end.
  unfold BUFFER_SIZE, BLOCK_SIZE in *.
  rewrite (static_cast_int_small (size _)) in * by (unfold INT_MAX; lia).
  facts. unfold Measured, delivered in *. simpl in *.
  split; [tauto|]. intros M0. specialize (M M0).
  repeat split; try tauto; lia.
Qed.

Lemma parsePI_measures (s s' : State) :
  parsePI s = Ok s' ->
  delivered s' = delivered s /\ (Measured s -> Measured s').
Proof. unfold parsePI. intros H. inv_ok; measured. Qed.

Lemma parseEndTag_measures (s s' : State) (c : Control) :
  parseEndTag s = Ok (c, s') ->
  delivered s' = delivered s /\ (Measured s -> Measured s').
Proof. unfold parseEndTag. intros H. inv_ok; measured. Qed.

Lemma parseNamespace_measures (s s' : State) :
  parseNamespace s = Ok s' ->
  delivered s' = delivered s /\ (Measured s -> Measured s').
Proof. unfold parseNamespace. intros H. inv_ok; measured. Qed.

Lemma parseAttribute_measures (inEscape : bool) (s s' : State) :
  parseAttribute inEscape s = Ok s' ->
  delivered s' = delivered s /\ (Measured s -> Measured s').
Proof.
  unfold parseAttribute. intros H. inv_ok;
    match goal with |- context [if ?b then _ else _] => destruct b eqn:U end;
    unfold Measured, delivered; simpl; rewrite ?U; tauto.
Qed.

Lemma attributeLoop_measures (fuel : nat) (inEscape : bool) (s s' : State) :
  attributeLoop fuel inEscape s = Ok s' ->
  delivered s' = delivered s /\ (Measured s -> Measured s').
Proof.
  revert s. induction fuel as [|fuel IH]; intros s H; [discriminate|].
  simpl in H.
  apply bind_Ok in H. destruct H as (c0 & _ & H).
  apply bind_Ok in H. destruct H as (isName & _ & H).
  destruct isName; [|inversion H; tauto].
  apply bind_Ok in H. destruct H as (xmlns & _ & H).
  apply bind_Ok in H. destruct H as (isNamespace & _ & H).
  apply bind_Ok in H. destruct H as (s1 & E & H).
  apply IH in H. destruct H as (D & M).
  destruct isNamespace;
    [apply parseNamespace_measures in E|apply parseAttribute_measures in E];
    destruct E as (D1 & M1); split; (congruence || tauto).
Qed.

Lemma openStartTag_measures (s s' : State) (q p l : string_view) :
  openStartTag s = Ok (q, p, l, s') ->
  delivered s' = delivered s /\ (Measured s -> Measured s').
Proof.
  unfold openStartTag. intros H. inv_ok.
  match goal with H : attributeLoop _ _ _ = Ok _ |- _ =>
    apply attributeLoop_measures in H; destruct H as (D & M)
  end.
  match goal with H : countElement _ _ = Ok _ |- _ =>
    pose proof (countElement_counts _ _ _ H) as (C1 & C2 & C3 & C4 & C5 & C6 & C7 & C8 & C9);
    apply countElement_effect in H; destruct H as (K1 & K2 & K3 & K4 & _)
  end.
  unfold delivered in *. simpl in *. rewrite K2 in *.
  split; [lia|]. intros M0. apply M.
  unfold Measured in *. simpl in *. rewrite K4. simpl.
  destruct M0 as (M1 & M2 & M3 & M4 & M5 & M6 & M7 & M8).
  repeat split; try lia; congruence.
Qed.

Lemma closeStartTag_measures (q p l : string_view) (s s' : State) (c : Control) :
  closeStartTag q p l s = Ok (c, s') ->
  delivered s' = delivered s /\ (Measured s -> Measured s').
Proof. unfold closeStartTag. intros H. inv_ok; measured. Qed.

Lemma dispatch_measures (s s' : State) (c : Control) :
  dispatch s = Ok (c, s') ->
  size (content s) <= BUFFER_SIZE ->
  delivered s' = delivered s /\ (Measured s -> Measured s').
Proof.
  unfold dispatch. intros H I.
  apply bind_Ok in H. destruct H as (b & _ & H).
  destruct b; inv_ok.
  - apply parseCharacterEntity_measures. assumption.
  - apply parseCharacters_measures; assumption.
  - apply parseComment_measures. assumption.
  - apply parseCDATA_measures; assumption.
  - apply parsePI_measures. assumption.
  - eapply parseEndTag_measures. eassumption.
  - unfold parseStartTag in H.
    apply bind_Ok in H. destruct H as ([[[q p] l] s1] & O & H).
    apply openStartTag_measures in O. apply closeStartTag_measures in H.
    destruct O, H. split; [congruence|tauto].
Qed.

Lemma iteration_measures (s s' : State) (c : Control) :
  iteration s = Ok (c, s') ->
  Inv s ->
  delivered s' = delivered s /\ (Measured s -> Measured s').
Proof.
  unfold iteration. intros H I.
  destruct (doneReading s).
  - destruct (empty (content s)).
    + inv_ok. tauto.
    + apply dispatch_measures in H; [assumption|apply I].
  - destruct (size (content s) <? BLOCK_SIZE).
    + inv_ok.
      match goal with H : refill _ = Ok _ |- _ =>
        pose proof (refill_measures _ _ H) as (D & M);
        apply refill_Ok in H; destruct H as (R1 & _)
      end.
      apply dispatch_measures in H; [|assumption].
      destruct H. split; [congruence|tauto].
    + apply dispatch_measures in H; [assumption|apply I].
Qed.

Lemma elementLoop_measures (fuel : nat) (s s' : State) :
  elementLoop fuel s = Ok s' ->
  Inv s ->
  delivered s' = delivered s /\ (Measured s -> Measured s').
Proof.
  revert s. induction fuel as [|fuel IH]; intros s H I; [discriminate|].
  simpl in H. apply bind_Ok in H. destruct H as ([c s1] & E & H).
  pose proof (iteration_measures _ _ _ E I) as (D & M).
  apply iteration_effect in E; [|assumption]. destruct E as (J & _).
  destruct c.
  - apply IH in H; [|assumption]. destruct H. split; [congruence|tauto].
  - inv_ok. tauto.
Qed.

Lemma trailingComments_measures (fuel : nat) (s s' : State) :
  trailingComments fuel s = Ok s' ->
  delivered s' = delivered s /\ (Measured s -> Measured s').
Proof.
  revert s. induction fuel as [|fuel IH]; intros s H; [discriminate|].
  simpl in H. apply bind_Ok in H. destruct H as (isComment & _ & H).
  destruct isComment; [|inv_ok; tauto].
  apply bind_Ok in H. destruct H as (s1 & E & H).
  apply bind_Ok in H. destruct H as (view & _ & H).
  apply parseComment_measures in E. apply IH in H.
  unfold Measured, delivered in *. simpl in *.
  destruct E, H. split; [congruence|tauto].
Qed.

Lemma parseXMLDeclaration_measures (s s' : State) :
  parseXMLDeclaration s = Ok s' ->
  delivered s' = delivered s /\ (Measured s -> Measured s').
Proof. unfold parseXMLDeclaration. intros H. inv_ok; measured. Qed.

Lemma parseDOCTYPE_measures (s s' : State) :
  parseDOCTYPE s = Ok s' ->
  delivered s' = delivered s /\ (Measured s -> Measured s').
Proof. unfold parseDOCTYPE. intros H. inv_ok; measured. Qed.

Lemma prologue_measures (a : Archive) (s : State) :
  prologue a = Ok s ->
  delivered s = Z.of_nat (pending (reads a)) /\ Measured s.
Proof.
  unfold prologue. intros H.
  apply bind_Ok in H. destruct H as (r & R & H).
  destruct (bytesRead r <? 0) eqn:N; [discriminate|]. apply Z.ltb_ge in N.
  destruct (bytesRead r =? 0); [discriminate|].
  apply refillContent_Ok in R; [|assumption]. destruct R as (R1 & R2 & R3 & R4).
  apply bind_Ok in H. destruct H as (total & T & H).
  unfold add_long in T. destruct (_ && _) in T; [|discriminate].
  inversion T; subst total; clear T.
  apply bind_Ok in H. destruct H as (view & V & H).
  match type of H with context [with_content view ?s0] =>
    set (s1 := with_content view s0) in *;
    assert (I1 : delivered s1 = Z.of_nat (pending (reads a)) /\ Measured s1)
      by (unfold delivered, Measured; simpl in *; repeat split; lia)
  end.
  clearbody s1.
  apply bind_Ok in H. destruct H as (isDeclaration & _ & H).
  apply bind_Ok in H. destruct H as (s2 & D & H).
  assert (I2 : delivered s2 = Z.of_nat (pending (reads a)) /\ Measured s2).
  { destruct isDeclaration.
    - apply parseXMLDeclaration_measures in D. destruct D, I1.
      split; [congruence|tauto].
    - inversion D; subst. assumption. }
  apply bind_Ok in H. destruct H as (isDoctype & _ & H).
  destruct isDoctype.
  - apply parseDOCTYPE_measures in H. destruct H, I2. split; [congruence|tauto].
  - inversion H; subst. assumption.
Qed.

Lemma parse_measures (a : Archive) (s : State) :
  parse a = Ok s ->
  delivered s = Z.of_nat (pending (reads a)) /\ Measured s.
Proof.
  unfold parse, document. intros H. inv_ok.
  match goal with H : prologue _ = Ok _ |- _ =>
    pose proof (prologue_measures _ _ H) as (D0 & M0);
    apply prologue_effect in H; destruct H as (I0 & _)
  end.
  match goal with H : elementLoop _ _ = Ok _ |- _ =>
    pose proof (elementLoop_measures _ _ _ H I0) as (D1 & M1)
  end.
  match goal with H : trailingComments _ _ = Ok _ |- _ =>
    apply trailingComments_measures in H; destruct H as (D2 & M2)
  end.
  unfold delivered, Measured in *. simpl in *.
  split; [lia|]. tauto.
Qed.

Lemma main_success (a : Archive) (r : Report) (cerr : list string) :
  main a = Exited 0 (Some r) cerr ->
  exists s, parse a = Ok s /\ report s = Ok r.
Proof.
  unfold main. intros H.
  destruct (parse a) as [s| | |] eqn:P; cbn [bind] in H; try discriminate H.
  exists s. split; [reflexivity|].
  destruct (report s); inversion H. reflexivity.
Qed.

Lemma report_Ok (s : State) (r : Report) :
  report s = Ok r ->
  report_url r = url s /\ Characters r = textSize s /\ LOC r = loc s
  /\ Files r = Z.max (unitCount s - 1) 1
  /\ Classes r = classCount s /\ Functions r = functionCount s
  /\ Declarations r = declCount s /\ Expressions r = exprCount s
  /\ Comments r = commentCount s.
Proof.
  unfold report, files. intros H. inv_ok. facts. simpl.
  repeat split; try reflexivity.
  match goal with H : _ = _ /\ _ |- _ => destruct H as (-> & _) end.
  f_equal; lia.
Qed.

(** ** The table and the traced events *)

(** X1: the Characters row of a table that is printed is the number of
    bytes of the character data the parser has reported, over the text
    runs, the entity references (one byte each) and the CDATA sections;
    markup, comments and processing instructions add nothing. *)
Theorem characters_row_is_the_reported_character_data (a : Archive) (r : Report) :
  main a = Exited 0 (Some r) [] ->
  exists s, parse a = Ok s /\ Characters r = characters_total (trace s).
Proof.
  intros H. apply main_success in H. destruct H as (s & P & R).
  exists s. split; [assumption|].
  apply report_Ok in R. apply parse_measures in P.
  destruct P as (_ & M). unfold Measured in M. intuition congruence.
Qed.

Lemma characters_row_is_the_reported_character_data_witness :
  exists s,
    parse (stdin url_document) = Ok s
    /\ Characters {| report_url := sv "second"; Characters := 3; LOC := 0;
                     Files := 1; Classes := 0; Functions := 0;
                     Declarations := 1; Expressions := 1; Comments := 0 |}
       = characters_total (trace s).
Proof.
  apply (characters_row_is_the_reported_character_data (stdin url_document)).
  vm_compute. reflexivity.
Defined.

(** X2: each element row of the table is the number of start tags the
    parser has reported whose local name is the element, whatever the
    prefix; Files is that number for unit, less one, and at least 1. *)
Theorem element_rows_count_start_tags_by_local_name (a : Archive) (r : Report) :
  main a = Exited 0 (Some r) [] ->
  exists s,
    parse a = Ok s
    /\ Expressions r = started (sv "expr") (trace s)
    /\ Declarations r = started (sv "decl") (trace s)
    /\ Comments r = started (sv "comment") (trace s)
    /\ Functions r = started (sv "function") (trace s)
    /\ Classes r = started (sv "class") (trace s)
    /\ Files r = Z.max (started (sv "unit") (trace s) - 1) 1.
Proof.
  intros H. apply main_success in H. destruct H as (s & P & R).
  exists s. split; [assumption|].
  apply report_Ok in R. apply parse_measures in P.
  destruct P as (_ & M). unfold Measured in M.
  destruct R as (_ & _ & _ & -> & -> & -> & -> & -> & ->).
  destruct M as (_ & -> & -> & -> & -> & -> & -> & _).
  repeat split; reflexivity.
Qed.

Lemma element_rows_count_start_tags_by_local_name_witness :
  exists s,
    parse (stdin url_document) = Ok s
    /\ 1 = started (sv "expr") (trace s)
    /\ 1 = started (sv "decl") (trace s)
    /\ 0 = started (sv "comment") (trace s)
    /\ 0 = started (sv "function") (trace s)
    /\ 0 = started (sv "class") (trace s)
    /\ 1 = Z.max (started (sv "unit") (trace s) - 1) 1.
Proof.
  apply (element_rows_count_start_tags_by_local_name (stdin url_document)
           {| report_url := sv "second"; Characters := 3; LOC := 0;
              Files := 1; Classes := 0; Functions := 0;
              Declarations := 1; Expressions := 1; Comments := 0 |}).
  vm_compute. reflexivity.
Defined.

(** X3: the url of the table is the value of the last attribute reported
    whose local name is url, on any element and with any prefix, and is
    empty when there is none. *)
Theorem url_row_is_the_last_url_attribute (a : Archive) (r : Report) :
  main a = Exited 0 (Some r) [] ->
  exists s, parse a = Ok s /\ report_url r = last_url (trace s).
Proof.
  intros H. apply main_success in H. destruct H as (s & P & R).
  exists s. split; [assumption|].
  apply report_Ok in R. apply parse_measures in P.
  destruct P as (_ & M). unfold Measured in M. intuition congruence.
Qed.

Lemma url_row_is_the_last_url_attribute_witness :
  exists s,
    parse (stdin url_document) = Ok s /\ sv "second" = last_url (trace s).
Proof.
  apply (url_row_is_the_last_url_attribute (stdin url_document)
           {| report_url := sv "second"; Characters := 3; LOC := 0;
              Files := 1; Classes := 0; Functions := 0;
              Declarations := 1; Expressions := 1; Comments := 0 |}).
  vm_compute. reflexivity.
Defined.

(** X4: the bytes counted in totalBytes are the bytes taken from the
    source: at the end of a parse, totalBytes and the bytes the source
    still holds add up to the bytes it held at the start. *)
Theorem totalBytes_counts_the_bytes_taken (a : Archive) (s : State) :
  parse a = Ok s ->
  totalBytes s + Z.of_nat (pending (reads (inputArchive s)))
  = Z.of_nat (pending (reads a)).
Proof.
  intros P. apply parse_measures in P. destruct P as (D & _). exact D.
Qed.

Lemma totalBytes_counts_the_bytes_taken_witness :
  exists s,
    parse (chunked 40 url_document) = Ok s
    /\ totalBytes s + Z.of_nat (pending (reads (inputArchive s)))
       = Z.of_nat (pending (reads (chunked 40 url_document))).
Proof.
  eexists. split.
  - vm_compute. reflexivity.
  - apply (totalBytes_counts_the_bytes_taken (chunked 40 url_document)).
    vm_compute. reflexivity.
Defined.

(** ** The end of the input *)

Lemma refillContent_end (buffer : list ascii) (content : string_view)
    (a : Archive) (r : Refilled) :
  refillContent buffer content a = Ok r ->
  bytesRead r = 0 ->
  handle (new_archive r) = Freed.
Proof.
  unfold refillContent. intros H Z0.
  match type of H with context [match ?x with inl _ => _ | inr _ => _ end] =>
    destruct x as [[a1 msg]|a1]
  end.
  { inversion H; subst; simpl in Z0. discriminate Z0. }
  destruct (handle a1); try discriminate H;
    destruct (archive_read_data a1 (BUFFER_SIZE - BLOCK_SIZE))
      as [[status bytes] a2];
    (destruct (BUFFER_SIZE <? size content + size bytes); [discriminate|]);
    (destruct (status <? 0);
     [inversion H; subst; simpl in Z0; discriminate Z0|]);
    inversion H; subst; clear H; cbn [bytesRead new_archive] in *;
    subst status; reflexivity.
Qed.

Lemma refillContent_freed (buffer : list ascii) (content : string_view)
    (a : Archive) :
  handle a = Freed -> refillContent buffer content a = Undefined UseAfterFree.
Proof.
  unfold refillContent. intros F. rewrite F. cbv beta iota zeta.
  rewrite F. reflexivity.
Qed.

Lemma refill_freed (s : State) :
  handle (inputArchive s) = Freed -> refill s = Undefined UseAfterFree.
Proof. unfold refill. intros F. rewrite refillContent_freed by exact F. reflexivity. Qed.

(** ** Views that start with given bytes *)

Lemma at_prefix (p rest : string_view) (i : Z) (c : ascii) :
  at_ p i = Ok c -> at_ (p ++ rest)%list i = Ok c.
Proof.
  unfold at_. rewrite size_app. pose proof (size_nonneg rest) as N.
  destruct ((0 <=? i) && (i <? size p)) eqn:G; [|discriminate].
  apply andb_true_iff in G. destruct G as (G1 & G2).
  apply Z.leb_le in G1. apply Z.ltb_lt in G2.
  replace ((0 <=? i) && (i <? size p + size rest)) with true
    by (symmetry; apply andb_true_iff; split;
        [apply Z.leb_le|apply Z.ltb_lt]; lia).
  rewrite nth_error_app1 by (unfold size in G2; lia).
  tauto.
Qed.

Lemma all_at_prefix (p rest : string_view) (tests : list (Z * ascii)) (b : bool) :
  all_at p tests = Ok b -> all_at (p ++ rest)%list tests = Ok b.
Proof.
  induction tests as [|[i c] tests IH]; [tauto|].
  simpl. intros H. apply bind_Ok in H. destruct H as (x & E & H).
  rewrite (at_prefix _ _ _ _ E). cbn [bind].
  destruct (Ascii.eqb x c); [apply IH|]; assumption.
Qed.

Lemma branch_prefix (p rest : string_view) (b : Branch) :
  branch p = Ok b -> branch (p ++ rest)%list = Ok b.
Proof.
  unfold branch. intros H. apply bind_Ok in H. destruct H as (c0 & E & H).
  rewrite (at_prefix _ _ _ _ E). cbn [bind].
  destruct (Ascii.eqb c0 "&"); [assumption|].
  destruct (negb (Ascii.eqb c0 "<")); [assumption|].
  repeat match type of H with
  | bind (all_at p ?t) _ = Ok _ =>
      let x := fresh "x" in let A := fresh "A" in
      apply bind_Ok in H; destruct H as (x & A & H);
      rewrite (all_at_prefix _ rest _ _ A); cbn [bind];
      destruct x; [assumption|]
  end.
  assumption.
Qed.

(** ** What a read takes from the source *)

Lemma refillContent_takes (buffer : list ascii) (content : string_view)
    (a : Archive) (r : Refilled) :
  refillContent buffer content a = Ok r ->
  0 <= bytesRead r ->
  exists bytes,
    match reads a with
    | [] => bytes = [] /\ reads (new_archive r) = []
    | Data d :: rest =>
        bytes = firstn (Z.to_nat (BUFFER_SIZE - BLOCK_SIZE)) d
        /\ reads (new_archive r)
           = if size d <=? BUFFER_SIZE - BLOCK_SIZE then rest
             else Data (skipn (Z.to_nat (BUFFER_SIZE - BLOCK_SIZE)) d) :: rest
    | ReadError :: _ => False
    end
    /\ new_content r = (content ++ bytes)%list
    /\ bytesRead r = size bytes.
Proof.
  intros H Hpos.
  destruct (refillContent_moves_the_view _ _ _ _ H Hpos)
    as (bytes & B1 & _ & B3 & _).
  exists bytes. split; [|split; [exact B3|symmetry; exact B1]].
  unfold refillContent in H.
  set (setup := match handle a with Null => _ | _ => _ end) in H.
  assert (Hsetup : forall b, setup = inr b -> reads b = reads a).
  { subst setup. intros b. destruct (handle a).
    - destruct (negb _); [discriminate|].
      destruct (negb _); [discriminate|].
      intros E; inversion E; reflexivity.
    - intros E; inversion E; reflexivity.
    - intros E; inversion E; reflexivity. }
  destruct setup as [[a1 msg]|a1].
  { inversion H; subst; simpl in Hpos. lia. }
  specialize (Hsetup a1 eq_refl).
  assert (Hread : forall x, match handle a1 with
            | Freed => Undefined UseAfterFree | _ => x end = Ok r -> x = Ok r).
  { intros x. destruct (handle a1); [tauto|tauto|discriminate]. }
  apply Hread in H. clear Hread.
  unfold archive_read_data in H. rewrite Hsetup in H.
  assert (A : forall x y : string_view, (content ++ x = content ++ y)%list -> x = y)
    by (intros x y E; eapply app_inv_head; exact E).
  destruct (reads a) as [|[d|] rest].
  - change (size []) with 0 in H.
    destruct (BUFFER_SIZE <? size content + 0); [discriminate|].
    change (0 <? 0) with false in H. cbv iota in H.
    inversion H; subst r; clear H. cbn [new_content new_archive bytesRead] in *.
    change (0 =? 0) with true. cbv iota.
    split; [|cbn [reads with_handle]; exact Hsetup].
    destruct bytes; [reflexivity|]. rewrite size_cons in B1.
    pose proof (size_nonneg bytes). lia.
  - destruct (size d <=? BUFFER_SIZE - BLOCK_SIZE) eqn:L.
    + apply Z.leb_le in L.
      destruct (BUFFER_SIZE <? size content + size d); [discriminate|].
      destruct (size d <? 0) eqn:N;
        [inversion H; subst r; simpl in Hpos; lia|].
      inversion H; subst r; clear H. cbn [new_content new_archive bytesRead] in *.
      rewrite store_at_start, store_behind in B3.
      rewrite app_assoc in B3. unfold size in B3 at 1 2.
      rewrite <- Nat2Z.inj_add, Nat2Z.id, <- length_app in B3.
      rewrite firstn_app, firstn_all, Nat.sub_diag in B3.
      cbn [firstn] in B3. rewrite app_nil_r in B3. apply A in B3. subst bytes.
      split.
      * symmetry. apply firstn_all2. unfold size in L. lia.
      * destruct (size d =? 0); reflexivity.
        
    + apply Z.leb_gt in L.
      set (n := BUFFER_SIZE - BLOCK_SIZE) in *.
      destruct (BUFFER_SIZE <? size content + size (firstn (Z.to_nat n) d));
        [discriminate|].
      assert (P : 0 < n) by (subst n; unfold BUFFER_SIZE, BLOCK_SIZE; lia).
      clearbody n.
      replace (n <? 0) with false in H by (symmetry; apply Z.ltb_ge; lia).
      inversion H; subst r; clear H. cbn [new_content new_archive bytesRead] in *.
      replace (n =? 0) with false by (symmetry; apply Z.eqb_neq; lia).
      assert (LN : size (firstn (Z.to_nat n) d) = n)
        by (unfold size in *; rewrite length_firstn; lia).
      rewrite <- LN in B3 at 1.
      rewrite store_at_start, store_behind in B3.
      rewrite app_assoc in B3. unfold size in B3 at 1 2.
      rewrite <- Nat2Z.inj_add, Nat2Z.id, <- length_app in B3.
      rewrite firstn_app, firstn_all, Nat.sub_diag in B3.
      cbn [firstn] in B3. rewrite app_nil_r in B3. apply A in B3. subst bytes.
      split; reflexivity.
  - change (size []) with 0 in H.
    destruct (BUFFER_SIZE <? size content + 0); [discriminate|].
    change (ARCHIVE_FATAL <? 0) with true in H. cbv iota in H.
    inversion H; subst r. simpl in Hpos. lia.
Qed.

(** ** The refill *)

(** X5: a refill that returns has taken from the source the next bytes
    it holds, at most BUFFER_SIZE - BLOCK_SIZE of them and none when it is
    exhausted, and the source goes on behind them; these bytes are
    appended to the unprocessed bytes of the view and their number is
    added to totalBytes; doneReading is set exactly when there were none;
    no measure, no depth and no event changes. *)
Theorem refill_appends_the_bytes_read (s s' : State) :
  refill s = Ok s' ->
  exists bytes,
    match reads (inputArchive s) with
    | [] => bytes = [] /\ reads (inputArchive s') = []
    | Data d :: rest =>
        bytes = firstn (Z.to_nat (BUFFER_SIZE - BLOCK_SIZE)) d
        /\ reads (inputArchive s')
           = if size d <=? BUFFER_SIZE - BLOCK_SIZE then rest
             else Data (skipn (Z.to_nat (BUFFER_SIZE - BLOCK_SIZE)) d) :: rest
    | ReadError :: _ => False
    end
    /\ content s' = (content s ++ bytes)%list
    /\ size bytes <= BUFFER_SIZE - BLOCK_SIZE
    /\ totalBytes s' = totalBytes s + size bytes
    /\ doneReading s' = (if size bytes =? 0 then true else doneReading s)
    /\ counters s' = counters s /\ depth s' = depth s /\ trace s' = trace s.
Proof.
  unfold refill. intros H. inv_ok.
  match goal with H : (bytesRead _ <? 0) = false |- _ => apply Z.ltb_ge in H end.
  match goal with H : refillContent _ _ _ = Ok _ |- _ =>
    pose proof (refillContent_moves_the_view _ _ _ _ H) as M;
    apply refillContent_takes in H; [|assumption];
    destruct H as (bytes & T & B3 & B1)
  end.
  destruct M as (bytes' & _ & _ & _ & B4 & _); [assumption|].
  match goal with H : add_long _ _ = Ok _ |- _ =>
    unfold add_long in H; destruct (_ && _) in H; [|discriminate];
    inversion H; subst; clear H
  end.
  exists bytes. unfold counters. cbn [content totalBytes doneReading textSize loc
    exprCount declCount commentCount functionCount unitCount classCount url
    depth trace inputArchive].
  rewrite B1 in *. repeat split; try reflexivity; try assumption; lia.
Qed.

Lemma refill_appends_the_bytes_read_witness :
  exists s' bytes,
    refill (looking_at (sv "<a>te") (opened (sv "xt</a>")) false) = Ok s'
    /\ (bytes = firstn (Z.to_nat (BUFFER_SIZE - BLOCK_SIZE)) (sv "xt</a>")
        /\ reads (inputArchive s')
           = if size (sv "xt</a>") <=? BUFFER_SIZE - BLOCK_SIZE then []
             else [Data (skipn (Z.to_nat (BUFFER_SIZE - BLOCK_SIZE)) (sv "xt</a>"))])
    /\ content s' = (sv "<a>te" ++ bytes)%list
    /\ size bytes <= BUFFER_SIZE - BLOCK_SIZE
    /\ totalBytes s' = 5 + size bytes
    /\ doneReading s' = (if size bytes =? 0 then true else false)
    /\ counters s' = (0, 0, 0, 0, 0, 0, 0, 0, [])
    /\ depth s' = 1 /\ trace s' = [].
Proof.
  eexists.
  assert (R : refill (looking_at (sv "<a>te") (opened (sv "xt</a>")) false) = Ok _)
    by (vm_compute; reflexivity).
  destruct (refill_appends_the_bytes_read _ _ R) as (bytes & B).
  exists bytes. split; [exact R|exact B].
Defined.

(** X6: a refill that reads nothing has met the end of the input and
    freed the archive; the next refill hands the freed archive to
    archive_read_data. *)
Theorem refill_after_the_end_of_input_is_undefined (s s' : State) :
  refill s = Ok s' ->
  content s' = content s ->
  doneReading s' = true /\ refill s' = Undefined UseAfterFree.
Proof.
  unfold refill at 1. intros H C. inv_ok.
  match goal with H : (bytesRead _ <? 0) = false |- _ => apply Z.ltb_ge in H end.
  match goal with H : refillContent _ _ _ = Ok _ |- _ =>
    pose proof (refillContent_end _ _ _ _ H) as F;
    apply refillContent_moves_the_view in H; [|assumption];
    destruct H as (bytes & B1 & _ & B3 & _)
  end.
  cbn [content] in C. rewrite B3 in C.
  assert (bytes = []) as ->.
  { apply (f_equal (@List.length ascii)) in C. rewrite length_app in C.
    destruct bytes; [reflexivity|simpl in C; lia]. }
  change (size []) with 0 in B1. symmetry in B1.
  cbn [doneReading]. rewrite B1. split; [reflexivity|].
  apply refill_freed. cbn [inputArchive]. apply F. exact B1.
Qed.

Lemma refill_after_the_end_of_input_is_undefined_witness :
  exists s',
    refill (looking_at (sv "<a><!-- x") (opened []) false) = Ok s'
    /\ content s' = sv "<a><!-- x"
    /\ doneReading s' = true /\ refill s' = Undefined UseAfterFree.
Proof.
  eexists.
  assert (R : refill (looking_at (sv "<a><!-- x") (opened []) false) = Ok _)
    by (vm_compute; reflexivity).
  split; [exact R|]. split; [reflexivity|].
  apply (refill_after_the_end_of_input_is_undefined _ _ R). reflexivity.
Defined.

(** X7: once the archive is freed, a comment or a CDATA section whose
    closing mark is not in the view does not reach its diagnostic: the
    branch refills without looking at doneReading. *)
Theorem unterminated_section_after_the_end_of_input (s : State) (rest : string_view) :
  handle (inputArchive s) = Freed ->
  (content s = (sv "<!--" ++ rest)%list -> find rest (sv "-->") = npos ->
   dispatch s = Undefined UseAfterFree)
  /\ (content s = (sv "<![CDATA[" ++ rest)%list -> find rest (sv "]]>") = npos ->
      dispatch s = Undefined UseAfterFree).
Proof.
  intros F. split; intros C N; unfold dispatch; rewrite C.
  - rewrite (branch_prefix (sv "<!--") rest AtComment) by reflexivity.
    cbn [bind]. unfold parseComment. rewrite C, remove_prefix_app. cbn [bind].
    unfold findEnd. cbn [content with_content]. rewrite N.
    change (npos =? npos) with true. cbv iota.
    rewrite refill_freed by exact F. reflexivity.
  - rewrite (branch_prefix (sv "<![CDATA[") rest AtCDATA) by reflexivity.
    cbn [bind]. unfold parseCDATA. rewrite C, remove_prefix_app. cbn [bind].
    unfold findEnd. cbn [content with_content]. rewrite N.
    change (npos =? npos) with true. cbv iota.
    rewrite refill_freed by exact F. reflexivity.
Qed.

Lemma unterminated_section_after_the_end_of_input_witness :
  handle (inputArchive (looking_at (sv "<!-- x")
            {| handle := Freed; open_ok := true; header_ok := true; reads := [] |}
            true)) = Freed
  /\ dispatch (looking_at (sv "<!-- x")
            {| handle := Freed; open_ok := true; header_ok := true; reads := [] |}
            true) = Undefined UseAfterFree.
Proof.
  split; [reflexivity|].
  apply (proj1 (unterminated_section_after_the_end_of_input
                  (looking_at (sv "<!-- x")
                     {| handle := Freed; open_ok := true; header_ok := true;
                        reads := [] |} true)
                  (sv " x") eq_refl));
    vm_compute; reflexivity.
Defined.

(** ** Input that cannot be read *)

(** X8: when the archive cannot be opened on standard input, or its
    header cannot be read, main prints the diagnostic of refillContent
    and then its own, and exits with status 1 without a table, whatever
    the input holds; when the first read fails it prints File input
    error, when it delivers no byte Empty file.  A read that fails at
    the top of the element loop ends the pass with File input error. *)
Theorem unreadable_input_is_reported :
  (forall (header : bool) (r : list ReadResult),
      main (source false header r)
      = Exited 1 None ["input error: Invalid data in standard input";
                       "parser error : File input error"])
  /\ (forall r : list ReadResult,
         main (source true false r)
         = Exited 1 None ["input error: Invalid data in standard input header";
                          "parser error : File input error"])
  /\ (forall rest : list ReadResult,
         main (source true true (ReadError :: rest))
         = Exited 1 None ["parser error : File input error"])
  /\ main (source true true []) = Exited 1 None ["parser error : Empty file"]
  /\ (forall rest : list ReadResult,
         main (source true true (Data [] :: rest))
         = Exited 1 None ["parser error : Empty file"])
  /\ (forall (s : State) (rest : list ReadResult),
         doneReading s = false ->
         size (content s) < BLOCK_SIZE ->
         handle (inputArchive s) = Live ->
         reads (inputArchive s) = ReadError :: rest ->
         iteration s = Fatal ["parser error : File input error"]).
Proof.
  repeat split; try reflexivity.
  intros s rest D C L R. unfold iteration. rewrite D.
  replace (size (content s) <? BLOCK_SIZE) with true
    by (symmetry; apply Z.ltb_lt; exact C).
  unfold refill, refillContent, archive_read_data. rewrite L.
  cbv beta iota zeta. rewrite L, R. cbv beta iota zeta.
  change (size []) with 0.
  replace (BUFFER_SIZE <? size (content s) + 0) with false; [reflexivity|].
  symmetry. apply Z.ltb_ge. unfold BUFFER_SIZE, BLOCK_SIZE in *. lia.
Qed.

Lemma unreadable_input_is_reported_witness :
  doneReading (looking_at (sv "<a>") (with_reads [ReadError] (opened [])) false)
  = false
  /\ iteration (looking_at (sv "<a>") (with_reads [ReadError] (opened [])) false)
     = Fatal ["parser error : File input error"].
Proof.
  split; [reflexivity|].
  apply (proj2 (proj2 (proj2 (proj2 (proj2 unreadable_input_is_reported))))
           (looking_at (sv "<a>") (with_reads [ReadError] (opened [])) false) []);
    vm_compute; reflexivity.
Defined.

(** ** Blank input *)

Lemma first_not_of_from_blank (set content : string_view) (i : Z) :
  Forall (fun c => mem c set = true) content ->
  first_not_of_from set content i = npos.
Proof.
  intros F. revert i. induction F as [|c content M F IH]; intros i; simpl;
    [reflexivity|]. rewrite M. apply IH.
Qed.

Lemma refillContent_first (bytes : string_view) :
  bytes <> [] ->
  exists r,
    refillContent initial_buffer [] (stdin bytes) = Ok r
    /\ 0 < bytesRead r <= BUFFER_SIZE - BLOCK_SIZE
    /\ new_content r = firstn (Z.to_nat (BUFFER_SIZE - BLOCK_SIZE)) bytes.
Proof.
  intros NE. unfold refillContent, stdin, archive_read_data.
  cbn [handle open_ok header_ok reads with_handle with_reads negb].
  cbv beta iota zeta.
  cbn [handle open_ok header_ok reads with_handle with_reads negb].
  assert (P : 0 < size bytes)
    by (destruct bytes; [congruence|rewrite size_cons; pose proof (size_nonneg bytes); lia]).
  change (size []) with 0.
  unfold initial_buffer. rewrite store_at_start. cbn [List.length skipn app].
  assert (S0 : forall b : string_view, store [] 0 b = b).
  { intros b. rewrite store_at_start, skipn_nil. apply app_nil_r. }
  destruct (size bytes <=? BUFFER_SIZE - BLOCK_SIZE) eqn:E;
    cbv beta iota zeta; rewrite !S0; unfold BUFFER_SIZE, BLOCK_SIZE in *.
  - apply Z.leb_le in E.
    replace (16 * 16 * 4096 <? 0 + size bytes) with false
      by (symmetry; apply Z.ltb_ge; lia).
    replace (size bytes <? 0) with false by (symmetry; apply Z.ltb_ge; lia).
    eexists. split; [reflexivity|]. cbn [bytesRead new_content].
    split; [lia|].
    unfold size in *. rewrite !firstn_all2 by lia. reflexivity.
  - apply Z.leb_gt in E.
    assert (L : size (firstn (Z.to_nat (16 * 16 * 4096 - 4096)) bytes)
                = 16 * 16 * 4096 - 4096)
      by (unfold size in *; rewrite length_firstn; lia).
    rewrite L.
    eexists. split; [reflexivity|]. cbn [bytesRead new_content].
    split; [lia|].
    apply firstn_all2. rewrite length_firstn. lia.
Qed.

(** X9: an input that holds blanks only is not reported as empty: the
    search for the first non-blank byte returns npos and the view is
    asked to drop npos bytes, more than it holds. *)
Theorem blank_input_is_undefined (bytes : string_view) :
  bytes <> [] ->
  Forall (fun c => mem c WHITESPACE = true) bytes ->
  main (stdin bytes) = Crashed PrefixTooLong.
Proof.
  intros NE B. unfold main, parse, prologue.
  destruct (refillContent_first bytes NE) as (r & R & (P1 & P2) & V).
  cbn [TRACE initial_state buffer content inputArchive totalBytes].
  rewrite R. cbn [bind].
  replace (bytesRead r <? 0) with false by (symmetry; apply Z.ltb_ge; lia).
  replace (bytesRead r =? 0) with false by (symmetry; apply Z.eqb_neq; lia).
  unfold add_long.
  replace ((- LONG_MAX - 1 <=? 0 + bytesRead r) && (0 + bytesRead r <=? LONG_MAX))
    with true.
  2:{ symmetry. apply andb_true_iff. unfold LONG_MAX, BUFFER_SIZE, BLOCK_SIZE in *.
      split; apply Z.leb_le; lia. }
  cbn [bind content]. unfold skip_whitespace, find_first_not_of.
  rewrite first_not_of_from_blank.
  2:{ rewrite V.
      rewrite <- (firstn_skipn (Z.to_nat (BUFFER_SIZE - BLOCK_SIZE)) bytes) in B.
      apply Forall_app in B. apply B. }
  unfold remove_prefix.
  replace (npos <=? size (new_content r)) with false; [reflexivity|].
  symmetry. apply Z.leb_gt. rewrite V. unfold size. rewrite length_firstn.
  unfold npos, BUFFER_SIZE, BLOCK_SIZE. lia.
Qed.

Lemma blank_input_is_undefined_witness :
  [" "%char; LF] <> []
  /\ Forall (fun c => mem c WHITESPACE = true) [" "%char; LF]
  /\ main (stdin [" "%char; LF]) = Crashed PrefixTooLong.
Proof.
  split; [discriminate|].
  split; [repeat constructor|].
  apply (blank_input_is_undefined [" "%char; LF]);
    [discriminate|repeat constructor].
Defined.

(** ** The bytes of a name *)

(** X10: the mask decoded: xmlNameMask holds a 1 exactly for the
    letters, the digits, the hyphen, the full stop and the underscore;
    a byte of 128 or more is outside the bitset. *)
Theorem xmlNameMask_is_letters_digits_and_three_marks (c : ascii) :
  xmlNameMask c
  = if Z.of_N (N_of_ascii c) <? 128 then Ok (name_byte c)
    else Undefined BitsetIndex.
Proof.
  destruct c as [[] [] [] [] [] [] [] []]; vm_compute; reflexivity.
Qed.

(** ** The diagnostics of a run *)

Lemma bind_Fatal {A B : Type} (r : Result A) (k : A -> Result B)
    (cerr : list string) :
  bind r k = Fatal cerr ->
  r = Fatal cerr \/ exists a, r = Ok a /\ k a = Fatal cerr.
Proof.
  destruct r; simpl; intros H; try discriminate.
  - right. exists a. tauto.
  - left. inversion H. reflexivity.
Qed.

Create HintDb silent.

Ltac inv_fatal :=
  repeat match goal with
  | H : Ok _ = Fatal _ |- _ => discriminate H
  | H : Undefined _ = Fatal _ |- _ => discriminate H
  | H : OutOfFuel = Fatal _ |- _ => discriminate H
  | H : Fatal _ = Fatal _ |- _ => inversion H; subst; clear H
  | H : bind _ _ = Fatal _ |- _ =>
      let a := fresh "a" in let E := fresh "E" in
      apply bind_Fatal in H; destruct H as [H | (a & E & H)];
      [ | cbv beta in H ]
  | H : (if ?b then _ else _) = Fatal _ |- _ =>
      let E := fresh "E" in destruct b eqn:E
  | H : match ?x with (_, _) => _ end = Fatal _ |- _ => destruct x
  | H : match ?x with Some _ => _ | None => _ end = Fatal _ |- _ =>
      let E := fresh "E" in destruct x eqn:E
  | H : ?e = Fatal ?c |- _ =>
      solve [exfalso; apply (fun p : e <> Fatal c => p H); auto with silent]
  end.

Lemma remove_prefix_silent n content cerr : remove_prefix n content <> Fatal cerr.
Proof. unfold remove_prefix. destruct (_ && _); discriminate. Qed.

Lemma at_silent content pos cerr : at_ content pos <> Fatal cerr.
Proof.
  unfold at_. destruct (_ && _); [|discriminate].
  destruct (nth_error _ _); discriminate.
Qed.

Lemma substr_silent content pos n cerr : substr content pos n <> Fatal cerr.
Proof. unfold substr. destruct (_ && _); discriminate. Qed.

Lemma add_int_silent a b cerr : add_int a b <> Fatal cerr.
Proof. unfold add_int. destruct (in_int _); discriminate. Qed.

Lemma add_long_silent a b cerr : add_long a b <> Fatal cerr.
Proof. unfold add_long. destruct (_ && _); discriminate. Qed.

Lemma skip_whitespace_silent content cerr : skip_whitespace content <> Fatal cerr.
Proof. apply remove_prefix_silent. Qed.

Lemma skip_trailing_whitespace_silent content cerr :
  skip_trailing_whitespace content <> Fatal cerr.
Proof. apply remove_prefix_silent. Qed.

Lemma xmlNameMask_silent c cerr : xmlNameMask c <> Fatal cerr.
Proof.
  unfold xmlNameMask. destruct (_ <? _); [|discriminate].
  destruct (nth_error _ _); discriminate.
Qed.

#[local] Hint Resolve remove_prefix_silent at_silent substr_silent add_int_silent
  add_long_silent skip_whitespace_silent skip_trailing_whitespace_silent
  xmlNameMask_silent : silent.

Lemma all_at_silent content tests cerr : all_at content tests <> Fatal cerr.
Proof.
  induction tests as [|[i c] rest IH]; simpl; [discriminate|].
  intros H. inv_fatal.
Qed.

Lemma refillContent_silent buffer content a cerr :
  refillContent buffer content a <> Fatal cerr.
Proof.
  unfold refillContent.
  match goal with |- context [match ?x with inl _ => _ | inr _ => _ end] =>
    destruct x as [[a1 msg]|a1]
  end; [discriminate|].
  destruct (handle a1); try discriminate;
    destruct (archive_read_data a1 _) as [[status bytes] a2];
    destruct (BUFFER_SIZE <? _); try discriminate;
    destruct (status <? 0); discriminate.
Qed.

#[local] Hint Resolve all_at_silent refillContent_silent : silent.

Lemma scanName_silent content n cerr : scanName content n <> Fatal cerr.
Proof. unfold scanName. intros H. inv_fatal. Qed.

Lemma countElement_silent localName s cerr : countElement localName s <> Fatal cerr.
Proof. unfold countElement. intros H. inv_fatal. Qed.

Lemma branch_silent content cerr : branch content <> Fatal cerr.
Proof. unfold branch. intros H. inv_fatal. Qed.

Lemma parseCharacterEntity_silent s cerr : parseCharacterEntity s <> Fatal cerr.
Proof. unfold parseCharacterEntity. intros H. inv_fatal. Qed.

Lemma parseCharacters_silent s cerr : parseCharacters s <> Fatal cerr.
Proof. unfold parseCharacters. intros H. inv_fatal. Qed.

#[local] Hint Resolve scanName_silent
  countElement_silent branch_silent parseCharacterEntity_silent
  parseCharacters_silent : silent.

Lemma doctypeLoop_silent fuel content p d sq dq c cerr :
  doctypeLoop fuel content p d sq dq c <> Fatal cerr.
Proof.
  revert p d sq dq c. induction fuel as [|fuel IH]; intros p d sq dq c;
    [discriminate|].
  simpl. intros H.
  repeat match type of H with
  | (if ?b then _ else _) = _ => destruct b; try discriminate H;
      try (apply IH in H; exact H)
  end.
  inv_fatal; eapply IH; eassumption.
Qed.

#[local] Hint Resolve doctypeLoop_silent : silent.

Lemma parseDOCTYPE_silent s cerr : parseDOCTYPE s <> Fatal cerr.
Proof. unfold parseDOCTYPE. intros H. inv_fatal. Qed.

#[local] Hint Resolve parseDOCTYPE_silent : silent.

(* what the setup and the read of refillContent have printed *)
Lemma refillContent_cerr (buffer : list ascii) (content : string_view)
    (a : Archive) (r : Refilled) :
  refillContent buffer content a = Ok r ->
  bytesRead r < 0 ->
  Diagnostic (refill_cerr r ++ ["parser error : File input error"]).
Proof.
  unfold refillContent. intros H N.
  set (setup := match handle a with Null => _ | _ => _ end) in H.
  assert (Hs : forall a1 msg, setup = inl (a1, msg) ->
            msg = "input error: Invalid data in standard input"
            \/ msg = "input error: Invalid data in standard input header").
  { subst setup. intros a1 msg. destruct (handle a); try discriminate.
    destruct (negb _); [intros E; inversion E; auto|].
    destruct (negb _); [intros E; inversion E; auto|discriminate]. }
  destruct setup as [[a1 msg]|a1].
  - destruct (Hs _ _ eq_refl) as [-> | ->]; inversion H; constructor.
  - destruct (handle a1); try discriminate;
      destruct (archive_read_data _ _) as [[status bytes] a2];
      (destruct (BUFFER_SIZE <? _); [discriminate|]);
      destruct (status <? 0) eqn:S; inversion H; subst;
      cbn [refill_cerr bytesRead] in *;
      try constructor; apply Z.ltb_ge in S; lia.
Qed.

Lemma refill_prints (s : State) (cerr : list string) :
  refill s = Fatal cerr -> Diagnostic cerr.
Proof.
  unfold refill. intros H. inv_fatal.
  eapply refillContent_cerr; [eassumption|]. apply Z.ltb_lt. assumption.
Qed.

Lemma findEnd_prints (mark : string_view) (msg : string) (s : State)
    (cerr : list string) :
  findEnd mark msg s = Fatal cerr -> Diagnostic cerr \/ cerr = [msg].
Proof.
  unfold findEnd. intros H. inv_fatal.
  - left. eapply refill_prints. eassumption.
  - right. reflexivity.
Qed.

Lemma parseComment_prints (s : State) (cerr : list string) :
  parseComment s = Fatal cerr -> Diagnostic cerr.
Proof.
  unfold parseComment. intros H. inv_fatal.
  match goal with H : findEnd _ _ _ = Fatal _ |- _ =>
    apply findEnd_prints in H; destruct H as [H | ->]; [exact H|constructor]
  end.
Qed.

Lemma parseCDATA_prints (s : State) (cerr : list string) :
  parseCDATA s = Fatal cerr -> Diagnostic cerr.
Proof.
  unfold parseCDATA. intros H. inv_fatal.
  match goal with H : findEnd _ _ _ = Fatal _ |- _ =>
    apply findEnd_prints in H; destruct H as [H | ->]; [exact H|constructor]
  end.
Qed.

(** *** Tests that never hold *)

Lemma find_first_of_not_size (content set : string_view) :
  size content < npos -> find_first_of content set 0 <> size content.
Proof.
  intros B. destruct (find_first_of_bounds content set 0); lia.
Qed.

Lemma find_from_found (content : string_view) (i : Z) :
  find_from (sv "?>") content i <> npos -> In ">"%char content.
Proof.
  change (sv "?>") with ["?"; ">"]%char.
  revert i. induction content as [|x content IH]; intros i H.
  - simpl in H. congruence.
  - cbn [find_from] in H.
    destruct (starts_with ["?"; ">"]%char (x :: content)) eqn:S.
    + destruct content as [|y content];
        [cbn [starts_with] in S; rewrite andb_false_r in S; discriminate|].
      cbn [starts_with] in S. apply andb_true_iff in S. destruct S as (_ & S).
      apply andb_true_iff in S. destruct S as (S & _).
      apply Ascii.eqb_eq in S. subst y. right. left. reflexivity.
    + right. eapply IH. eassumption.
Qed.

Lemma target_ends_in_the_instruction (content : string_view) :
  size content < npos ->
  find content (sv "?>") <> npos ->
  find_first_of content NAMEEND 0 <> npos.
Proof.
  intros B F. apply find_from_found in F.
  unfold find_first_of.
  assert (P : 0 < size content).
  { destruct content as [|x0 view]; [contradiction|]. rewrite size_cons.
    pose proof (size_nonneg view). lia. }
  replace ((0 <=? 0) && (0 <? size content)) with true
    by (symmetry; apply andb_true_iff; split; [reflexivity|apply Z.ltb_lt; lia]).
  change (Z.to_nat 0) with 0%nat. cbn [skipn].
  pose proof (first_of_from_found NAMEEND content ">"%char 0 F eq_refl). lia.
Qed.

Lemma first_not_of_from_bounds (set content : string_view) (i : Z) :
  first_not_of_from set content i = npos
  \/ i <= first_not_of_from set content i < i + size content.
Proof.
  revert i. induction content as [|x content IH]; intros i; [left; reflexivity|].
  simpl. rewrite size_cons. pose proof (size_nonneg content) as N.
  destruct (mem x set); [|right; lia].
  destruct (IH (i + 1)) as [E | E]; [left; exact E|right; lia].
Qed.

Lemma skip_whitespace_nonempty (content rest : string_view) :
  skip_whitespace content = Ok rest ->
  size content < npos ->
  empty rest = false.
Proof.
  unfold skip_whitespace, find_first_not_of. intros H B.
  apply remove_prefix_Ok in H. destruct H as (R & _ & S).
  destruct (first_not_of_from_bounds WHITESPACE content 0) as [E | E];
    [lia|].
  destruct rest; [|reflexivity].
  change (size []) with 0 in S. lia.
Qed.

Lemma branch_is_never_invalid (content : string_view) :
  branch content <> Ok AtInvalid.
Proof.
  unfold branch. intros H. inv_ok.
  match goal with A : negb false = false |- _ => discriminate A end.
Qed.

(** *** The diagnostics of each construct *)

Lemma parsePI_prints (s : State) (cerr : list string) :
  parsePI s = Fatal cerr ->
  size (content s) <= BUFFER_SIZE ->
  Diagnostic cerr.
Proof.
  unfold parsePI. intros H B. inv_fatal; try constructor.
  exfalso.
  match goal with
  | F : (find ?c _ =? npos) = false, G : (find_first_of ?c _ _ =? npos) = true |- _ =>
      apply Z.eqb_neq in F; apply Z.eqb_eq in G;
      apply (target_ends_in_the_instruction c); [|exact F|exact G]
  end.
  match goal with H : remove_prefix _ _ = Ok _ |- _ =>
    apply remove_prefix_length in H end.
  pose proof npos_large. unfold size in *. lia.
Qed.

Lemma parseEndTag_prints (s : State) (cerr : list string) :
  parseEndTag s = Fatal cerr ->
  size (content s) <= BUFFER_SIZE ->
  Diagnostic cerr.
Proof.
  unfold parseEndTag. intros H B. inv_fatal; try constructor.
  exfalso.
  match goal with
  | G : (find_first_of ?c ?set 0 =? size ?c) = true |- _ =>
      apply Z.eqb_eq in G; apply (find_first_of_not_size c set); [|exact G]
  end.
  match goal with H : remove_prefix _ _ = Ok _ |- _ =>
    apply remove_prefix_length in H end.
  pose proof npos_large. unfold size in *. lia.
Qed.

Lemma parseNamespace_prints (s : State) (cerr : list string) :
  parseNamespace s = Fatal cerr -> Diagnostic cerr.
Proof. unfold parseNamespace. intros H. inv_fatal; constructor. Qed.

Lemma parseAttribute_prints (inEscape : bool) (s : State) (cerr : list string) :
  parseAttribute inEscape s = Fatal cerr ->
  size (content s) <= BUFFER_SIZE ->
  Diagnostic cerr.
Proof.
  unfold parseAttribute. intros H B. inv_fatal; try constructor; exfalso.
  - match goal with
    | G : (find_first_of ?c ?set 0 =? size ?c) = true |- _ =>
        apply Z.eqb_eq in G; apply (find_first_of_not_size c set); [|exact G]
    end.
    pose proof npos_large. lia.
  - match goal with
    | S : skip_whitespace ?c = Ok ?r, E : empty ?r = true |- _ =>
        rewrite (skip_whitespace_nonempty c r S) in E; [discriminate E|]
    end.
    match goal with H : remove_prefix _ _ = Ok _ |- _ =>
      apply remove_prefix_length in H end.
    pose proof npos_large. unfold size in *. lia.
Qed.

Lemma attributeLoop_prints (fuel : nat) (inEscape : bool) (s : State)
    (cerr : list string) :
  attributeLoop fuel inEscape s = Fatal cerr ->
  Inv s ->
  Diagnostic cerr.
Proof.
  revert s. induction fuel as [|fuel IH]; intros s H I; [discriminate|].
  cbn [attributeLoop] in H.
  apply bind_Fatal in H. destruct H as [H | (c0 & _ & H)];
    [exfalso; eapply at_silent; eassumption|].
  apply bind_Fatal in H. destruct H as [H | (isName & _ & H)];
    [exfalso; eapply xmlNameMask_silent; eassumption|].
  destruct isName; [|discriminate].
  apply bind_Fatal in H. destruct H as [H | (xmlns & _ & H)];
    [exfalso; eapply all_at_silent; eassumption|].
  apply bind_Fatal in H. destruct H as [H | (isNamespace & _ & H)];
    [inv_fatal|].
  apply bind_Fatal in H. destruct H as [H | (s1 & E & H)].
  - destruct isNamespace.
    + eapply parseNamespace_prints; eassumption.
    + eapply parseAttribute_prints; [eassumption|apply I].
  - apply IH in H; [assumption|].
    destruct isNamespace.
    + apply parseNamespace_effect in E; [apply E|assumption].
    + apply parseAttribute_effect in E; [apply E|assumption].
Qed.

Lemma openStartTag_prints (s : State) (cerr : list string) :
  openStartTag s = Fatal cerr ->
  Inv s ->
  Diagnostic cerr.
Proof.
  unfold openStartTag. intros H I. pose proof I as (B & I2 & I3).
  inv_fatal; try constructor.
  - exfalso.
    match goal with
    | G : (find_first_of ?c ?set 0 =? size ?c) = true |- _ =>
        apply Z.eqb_eq in G; apply (find_first_of_not_size c set); [|exact G]
    end.
    match goal with H : remove_prefix _ _ = Ok _ |- _ =>
      apply remove_prefix_length in H end.
    pose proof npos_large. unfold size in *. lia.
  - match goal with H : attributeLoop _ _ _ = Fatal _ |- _ =>
      apply attributeLoop_prints in H; [exact H|]
    end.
    match goal with H : countElement _ _ = Ok _ |- _ =>
      apply countElement_effect in H;
      destruct H as (K1 & K2 & K3 & K4 & K5 & K6 & K7)
    end.
    facts. unfold Inv in *. cbn [content loc trace unitCount with_content TRACE] in *.
    rewrite K3, K4. cbn [trace TRACE newlines event_newlines] in *.
    unfold size in *. repeat split; try lia.
Qed.

Lemma closeStartTag_silent q p l s cerr : closeStartTag q p l s <> Fatal cerr.
Proof. unfold closeStartTag. intros H. inv_fatal. Qed.

Lemma parseStartTag_prints (s : State) (cerr : list string) :
  parseStartTag s = Fatal cerr ->
  Inv s ->
  Diagnostic cerr.
Proof.
  unfold parseStartTag. intros H I.
  apply bind_Fatal in H. destruct H as [H | ([[[q p] l] s1] & _ & H)].
  - eapply openStartTag_prints; eassumption.
  - exfalso. eapply closeStartTag_silent. eassumption.
Qed.

Lemma dispatch_prints (s : State) (cerr : list string) :
  dispatch s = Fatal cerr ->
  Inv s ->
  Diagnostic cerr.
Proof.
  unfold dispatch. intros H I. pose proof I as (B & _).
  apply bind_Fatal in H. destruct H as [H | (b & E & H)];
    [exfalso; eapply branch_silent; eassumption|].
  destruct b; inv_fatal.
  - eapply parseComment_prints. eassumption.
  - eapply parseCDATA_prints. eassumption.
  - eapply parsePI_prints; eassumption.
  - eapply parseEndTag_prints; eassumption.
  - eapply parseStartTag_prints; eassumption.
  - exfalso. eapply branch_is_never_invalid. eassumption.
Qed.

Lemma iteration_prints (s : State) (cerr : list string) :
  iteration s = Fatal cerr ->
  Inv s ->
  Diagnostic cerr.
Proof.
  unfold iteration. intros H I.
  destruct (doneReading s).
  - destruct (empty (content s)); [discriminate|].
    eapply dispatch_prints; eassumption.
  - destruct (size (content s) <? BLOCK_SIZE).
    + apply bind_Fatal in H. destruct H as [H | (s1 & R & H)].
      * eapply refill_prints. eassumption.
      * eapply dispatch_prints; [eassumption|].
        apply refill_Ok in R. destruct R as (R1 & _ & R3 & _ & R5).
        unfold Inv, counters in *. inversion R3.
        rewrite R5. intuition congruence.
    + eapply dispatch_prints; eassumption.
Qed.

Lemma elementLoop_prints (fuel : nat) (s : State) (cerr : list string) :
  elementLoop fuel s = Fatal cerr ->
  Inv s ->
  Diagnostic cerr.
Proof.
  revert s. induction fuel as [|fuel IH]; intros s H I; [discriminate|].
  cbn [elementLoop] in H. apply bind_Fatal in H. destruct H as [H | ([c s1] & E & H)].
  - eapply iteration_prints; eassumption.
  - destruct c; [|discriminate].
    apply IH in H; [assumption|].
    apply iteration_effect in E; [apply E|assumption].
Qed.

Lemma trailingComments_prints (fuel : nat) (s : State) (cerr : list string) :
  trailingComments fuel s = Fatal cerr ->
  Inv s ->
  Diagnostic cerr.
Proof.
  revert s. induction fuel as [|fuel IH]; intros s H I; [discriminate|].
  cbn [trailingComments] in H. apply bind_Fatal in H. destruct H as [H | (isComment & _ & H)];
    [inv_fatal|].
  destruct isComment; [|discriminate].
  apply bind_Fatal in H. destruct H as [H | (s1 & E & H)];
    [eapply parseComment_prints; eassumption|].
  apply bind_Fatal in H. destruct H as [H | (view & V & H)];
    [exfalso; eapply skip_trailing_whitespace_silent; eassumption|].
  apply IH in H; [assumption|].
  apply parseComment_effect in E; [|assumption]. destruct E as ((J1 & J2 & J3) & _).
  apply skip_trailing_whitespace_length in V.
  unfold Inv, size in *. cbn [content loc trace unitCount with_content].
  repeat split; try tauto; lia.
Qed.

Lemma parseDeclarationAttribute2_prints (content : string_view)
    (cerr : list string) :
  parseDeclarationAttribute2 content = Fatal cerr -> Diagnostic cerr.
Proof. unfold parseDeclarationAttribute2. intros H. inv_fatal; constructor. Qed.

Lemma parseDeclarationAttribute3_prints (standalone : option string_view)
    (content : string_view) (cerr : list string) :
  parseDeclarationAttribute3 standalone content = Fatal cerr -> Diagnostic cerr.
Proof.
  unfold parseDeclarationAttribute3. intros H.
  inv_fatal; try constructor.
  all: destruct standalone; inv_fatal; constructor.
Qed.

Lemma parseXMLDeclaration_prints (s : State) (cerr : list string) :
  parseXMLDeclaration s = Fatal cerr -> Diagnostic cerr.
Proof.
  unfold parseXMLDeclaration. intros H. inv_fatal; try constructor.
  - eapply parseDeclarationAttribute2_prints. eassumption.
  - eapply parseDeclarationAttribute3_prints. eassumption.
Qed.

Lemma prologue_prints (a : Archive) (cerr : list string) :
  prologue a = Fatal cerr -> Diagnostic cerr.
Proof.
  unfold prologue. intros H. inv_fatal; try constructor.
  - eapply refillContent_cerr; [eassumption|]. apply Z.ltb_lt. assumption.
  - eapply parseXMLDeclaration_prints. eassumption.
Qed.

Lemma document_prints (s : State) (cerr : list string) :
  document s = Fatal cerr ->
  Inv s ->
  Diagnostic cerr.
Proof.
  unfold document. intros H I.
  apply bind_Fatal in H. destruct H as [H | (s1 & E & H)];
    [eapply elementLoop_prints; eassumption|].
  apply elementLoop_effect in E; [|assumption]. destruct E as ((J1 & J2 & J3) & _).
  apply bind_Fatal in H. destruct H as [H | (view & V & H)];
    [exfalso; eapply skip_trailing_whitespace_silent; eassumption|].
  apply skip_trailing_whitespace_length in V.
  apply bind_Fatal in H. destruct H as [H | (s2 & E & H)].
  - eapply trailingComments_prints; [eassumption|].
    unfold Inv, size in *. cbn [content loc trace unitCount with_content].
    repeat split; try tauto; lia.
  - destruct (negb _); [|discriminate]. inversion H. constructor.
Qed.

Lemma parse_prints (a : Archive) (cerr : list string) :
  parse a = Fatal cerr -> Diagnostic cerr.
Proof.
  unfold parse. intros H.
  apply bind_Fatal in H. destruct H as [H | (s & E & H)].
  - eapply prologue_prints. eassumption.
  - eapply document_prints; [eassumption|].
    apply prologue_effect in E. apply E.
Qed.

Lemma last_char_app (a b : string) (c : ascii) :
  last_char b = Some c -> last_char (a ++ b) = Some c.
Proof.
  intros B. induction a as [|x a IH]; [exact B|].
  cbn [String.append last_char]. rewrite IH.
  destruct (a ++ b)%string eqn:E; [|reflexivity].
  destruct a; [|discriminate E]. simpl in E. subst b. discriminate B.
Qed.

Lemma report_silent (s : State) (cerr : list string) : report s <> Fatal cerr.
Proof. unfold report, files. intros H. inv_fatal. Qed.

Lemma main_prints (a : Archive) (cerr : list string) :
  main a = Exited 1 None cerr -> Diagnostic cerr.
Proof.
  unfold main. intros H.
  destruct (s <- parse a ;; report s) as [r|c| |] eqn:E; inversion H; subst.
  apply bind_Fatal in E. destruct E as [E | (s & _ & E)].
  - eapply parse_prints. eassumption.
  - exfalso. eapply report_silent. eassumption.
Qed.

(** X11: a run that ends with status 1 has printed one of the
    diagnostics of the list [Diagnostic].  Six diagnostics of the source
    are in no run: Unterminated start tag and Unterminated end tag and
    Empty attribute name, whose test compares the result of
    find_first_of with size(), a value it never returns; incomplete
    attribute, tested after a skip of blanks that leaves a non-empty
    view whenever it is defined; Unterminated processing instruction,
    tested once the closing mark, which ends a name, has been found; and
    invalid XML document, on a branch that the test for text has
    already taken. *)
Theorem failed_run_prints_a_listed_diagnostic (a : Archive) (cerr : list string) :
  main a = Exited 1 None cerr ->
  Diagnostic cerr
  /\ (forall name : string,
         cerr <> ["parser error : Unterminated start tag '" ++ name ++ "'"])
  /\ (forall name : string,
         cerr <> ["parser error : Unterminated end tag '" ++ name ++ "'"])
  /\ cerr <> ["parser error : Empty attribute name"]
  /\ (forall qName : string,
         cerr <> ["parser error : attribute " ++ qName ++ " incomplete attribute"])
  /\ cerr <> ["parser error : Unterminated processing instruction"]
  /\ cerr <> ["parser error : invalid XML document"].
Proof.
  intros H. apply main_prints in H. split; [exact H|].
  repeat split; repeat intro; subst cerr;
    inversion H as [ | | | | | | | | x X | x X | x X | | | | | | | | | x X | x X | ];
    cbn [String.append] in *; try discriminate.
  - apply (f_equal last_char) in X.
    rewrite (last_char_app x _ "="%char) in X by reflexivity.
    rewrite (last_char_app _ _ "e"%char) in X by reflexivity.
    discriminate X.
  - apply (f_equal last_char) in X.
    rewrite (last_char_app x _ "r"%char) in X by reflexivity.
    rewrite (last_char_app _ _ "e"%char) in X by reflexivity.
    discriminate X.
Qed.

Lemma failed_run_prints_a_listed_diagnostic_witness :
  Diagnostic ["parser error : attribute b missing delimiter"]
  /\ (forall name : string,
         ["parser error : attribute b missing delimiter"]
         <> ["parser error : Unterminated start tag '" ++ name ++ "'"])
  /\ (forall name : string,
         ["parser error : attribute b missing delimiter"]
         <> ["parser error : Unterminated end tag '" ++ name ++ "'"])
  /\ ["parser error : attribute b missing delimiter"]
     <> ["parser error : Empty attribute name"]
  /\ (forall qName : string,
         ["parser error : attribute b missing delimiter"]
         <> ["parser error : attribute " ++ qName ++ " incomplete attribute"])
  /\ ["parser error : attribute b missing delimiter"]
     <> ["parser error : Unterminated processing instruction"]
  /\ ["parser error : attribute b missing delimiter"]
     <> ["parser error : invalid XML document"].
Proof.
  apply (failed_run_prints_a_listed_diagnostic (stdin (sv "<a b='c></a>"))).
  vm_compute. reflexivity.
Defined.

(** ** The end of the element loop *)

Lemma parseEndTag_Break (s s' : State) :
  parseEndTag s = Ok (Break, s') -> depth s' = 0.
Proof.
  unfold parseEndTag. intros H. inv_ok.
  match goal with H : (if ?d =? 0 then Break else Continue) = Break |- _ =>
    destruct (Z.eqb_spec d 0); [|discriminate H]
  end.
  cbn [depth with_depth]. assumption.
Qed.

Lemma closeStartTag_Break (q p l : string_view) (s s' : State) :
  closeStartTag q p l s = Ok (Break, s') -> depth s' = 0.
Proof.
  unfold closeStartTag. intros H. inv_ok.
  match goal with H : (if ?d =? 0 then Break else Continue) = Break |- _ =>
    destruct (Z.eqb_spec d 0); [|discriminate H]
  end.
  assumption.
Qed.

Lemma dispatch_Break (s s' : State) :
  dispatch s = Ok (Break, s') -> depth s' = 0.
Proof.
  unfold dispatch, parseStartTag. intros H.
  apply bind_Ok in H. destruct H as (b & _ & H).
  destruct b; inv_ok.
  - eapply parseEndTag_Break. eassumption.
  - eapply closeStartTag_Break. eassumption.
Qed.

(** X12: the element loop is left only at nesting depth 0, after an end
    tag or a self-closing tag, or when the input is exhausted with
    nothing left in the view.  Nothing requires the second exit to be at
    depth 0: a document whose elements are left open is accepted and
    reported. *)
Theorem element_loop_ends_at_depth_0_or_at_the_end_of_input :
  (forall (fuel : nat) (s s' : State),
      elementLoop fuel s = Ok s' ->
      depth s' = 0 \/ (doneReading s' = true /\ content s' = []))
  /\ final_depth (parse (stdin unclosed_document)) = Ok 3
  /\ main (stdin unclosed_document)
     = Exited 0 (Some {| report_url := []; Characters := 0; LOC := 0; Files := 1;
                         Classes := 0; Functions := 0; Declarations := 0;
                         Expressions := 1; Comments := 0 |}) [].
Proof.
  split; [|evaluate].
  induction fuel as [|fuel IH]; intros s s' H; [discriminate|].
  cbn [elementLoop] in H. apply bind_Ok in H. destruct H as ([c s1] & E & H).
  destruct c; [eapply IH; eassumption|].
  inversion H; subst s1; clear H.
  unfold iteration in E.
  destruct (doneReading s) eqn:D.
  - destruct (empty (content s)) eqn:C.
    + inversion E; subst. right. split; [assumption|].
      destruct (content s'); [reflexivity|discriminate].
    + left. eapply dispatch_Break. eassumption.
  - destruct (size (content s) <? BLOCK_SIZE).
    + apply bind_Ok in E. destruct E as (s1 & _ & E).
      left. eapply dispatch_Break. eassumption.
    + left. eapply dispatch_Break. eassumption.
Qed.

Lemma element_loop_ends_at_depth_0_or_at_the_end_of_input_witness :
  exists s',
    elementLoop 9 (looking_at (sv "<b/></a>") (opened []) false) = Ok s'
    /\ (depth s' = 0 \/ (doneReading s' = true /\ content s' = [])).
Proof.
  eexists. split.
  - vm_compute. reflexivity.
  - apply (proj1 element_loop_ends_at_depth_0_or_at_the_end_of_input 9%nat
             (looking_at (sv "<b/></a>") (opened []) false)).
    vm_compute. reflexivity.
Defined.

(** ** Every run ends *)

Lemma Diagnostic_nonempty (cerr : list string) : Diagnostic cerr -> cerr <> [].
Proof. intros D. inversion D; discriminate. Qed.

(** X13: every run of main ends, whatever the source delivers and
    whether or not the locale of the environment is installed: with
    status 0, the table and no diagnostic; in std::terminate, after a
    parse that has succeeded, with no table, when the locale is not
    installed; with status 1, no table and one of the diagnostics; or in
    behaviour the language leaves undefined.  No loop of the parser runs
    on without consuming input.  With the locale installed the run is
    [main]. *)
Theorem every_run_of_main_ends :
  (forall a : Archive, main_in true a = Ends (main a))
  /\ (forall (locale_installed : bool) (a : Archive),
        (locale_installed = true
         /\ exists s r,
              parse a = Ok s /\ report s = Ok r
              /\ main_in locale_installed a = Ends (Exited 0 (Some r) []))
        \/ (locale_installed = false
            /\ (exists s r, parse a = Ok s /\ report s = Ok r)
            /\ main_in locale_installed a = Terminated)
        \/ (exists cerr,
              main_in locale_installed a = Ends (Exited 1 None cerr)
              /\ Diagnostic cerr /\ cerr <> [])
        \/ (exists v, main_in locale_installed a = Ends (Crashed v))).
Proof.
  split.
  - intros a. unfold main_in, main. destruct (s <- parse a ;; report s); reflexivity.
  - intros locale_installed a. pose proof (main_terminates a) as T.
    unfold main in T. unfold main_in.
    destruct (s <- parse a ;; report s) as [r|cerr|v|] eqn:E.
    + apply bind_Ok in E. destruct E as (s & P & R).
      destruct locale_installed.
      * left. split; [reflexivity|]. exists s, r. repeat split; assumption.
      * right. left. split; [reflexivity|]. split; [|reflexivity].
        exists s, r. split; assumption.
    + right. right. left. exists cerr. split; [reflexivity|].
      assert (D : Diagnostic cerr).
      { apply bind_Fatal in E. destruct E as [E | (s & _ & E)].
        - eapply parse_prints. eassumption.
        - exfalso. eapply report_silent. eassumption. }
      split; [exact D|apply Diagnostic_nonempty; exact D].
    + right. right. right. exists v. reflexivity.
    + contradiction.
Qed.

(** ** What the branches measure *)

(** X14: a comment and a processing instruction add to no measure and
    leave the depth alone; the pass reports the one event and goes on. *)
Theorem comments_and_instructions_are_not_measured (s s' : State) (c : Control) :
  branch (content s) = Ok AtComment \/ branch (content s) = Ok AtPI ->
  dispatch s = Ok (c, s') ->
  c = Continue /\ counters s' = counters s /\ depth s' = depth s
  /\ exists e, trace s' = e :: trace s
               /\ ((exists text, e = COMMENT text)
                   \/ (exists target data, e = PI target data)).
Proof.
  unfold dispatch. intros [B | B] H; rewrite B in H; cbn [bind] in H.
  - apply bind_Ok in H. destruct H as (s1 & P & H). inversion H; subst; clear H.
    unfold parseComment, findEnd in P. inv_ok.
    + match goal with H : refill _ = Ok _ |- _ =>
        apply refill_Ok in H; destruct H as (_ & _ & R3 & R4 & R5)
      end.
      unfold counters in *. cbn in *. rewrite R5, R4. inversion R3.
      repeat split; eauto 6.
    + unfold counters. cbn. repeat split; eauto 6.
  - apply bind_Ok in H. destruct H as (s1 & P & H). inversion H; subst; clear H.
    unfold parsePI in P. inv_ok. unfold counters. cbn.
    repeat split; eauto 6.
Qed.

Lemma comments_and_instructions_are_not_measured_witness :
  exists s',
    dispatch (looking_at (sv "<!-- a --><b/>") (opened []) true) = Ok (Continue, s')
    /\ Continue = Continue
    /\ counters s' = counters (looking_at (sv "<!-- a --><b/>") (opened []) true)
    /\ depth s' = depth (looking_at (sv "<!-- a --><b/>") (opened []) true)
    /\ exists e,
         trace s' = e :: trace (looking_at (sv "<!-- a --><b/>") (opened []) true)
         /\ ((exists text, e = COMMENT text)
             \/ (exists target data, e = PI target data)).
Proof.
  eexists. split.
  - vm_compute. reflexivity.
  - apply (comments_and_instructions_are_not_measured
             (looking_at (sv "<!-- a --><b/>") (opened []) true)).
    + left. vm_compute. reflexivity.
    + vm_compute. reflexivity.
Defined.

(** X15: a text run is the bytes of the view up to the first < or &, or
    all of the view when it holds neither; its bytes are added to the
    text size, its line feeds to LOC, and the view goes on at the byte
    that ended it.  Text that continues in bytes not yet read is
    reported by a later pass. *)
Theorem text_run_ends_at_markup_or_with_the_view (s s' : State) :
  parseCharacters s = Ok s' ->
  size (content s) <= BUFFER_SIZE ->
  exists characters,
    content s = (characters ++ content s')%list
    /\ (forall c, In c characters -> c <> "<"%char /\ c <> "&"%char)
    /\ (content s' = []
        \/ exists c rest, content s' = c :: rest /\ (c = "<"%char \/ c = "&"%char))
    /\ textSize s' = textSize s + size characters
    /\ loc s' = loc s + count LF characters
    /\ trace s' = CHARACTERS characters :: trace s.
Proof. apply parseCharacters_run. Qed.

Lemma text_run_ends_at_markup_or_with_the_view_witness :
  exists s' characters,
    parseCharacters (looking_at (sv "a b&amp;c</a>") (opened []) true) = Ok s'
    /\ sv "a b&amp;c</a>" = (characters ++ content s')%list
    /\ (forall c, In c characters -> c <> "<"%char /\ c <> "&"%char)
    /\ (content s' = []
        \/ exists c rest, content s' = c :: rest /\ (c = "<"%char \/ c = "&"%char))
    /\ textSize s' = 0 + size characters
    /\ loc s' = 0 + count LF characters
    /\ trace s' = [CHARACTERS characters].
Proof.
  eexists.
  assert (R : parseCharacters (looking_at (sv "a b&amp;c</a>") (opened []) true)
              = Ok _) by (vm_compute; reflexivity).
  destruct (text_run_ends_at_markup_or_with_the_view _ _ R) as (characters & T).
  - vm_compute. discriminate.
  - exists characters. split; [exact R|exact T].
Defined.

(** ** The scan of a DOCTYPE without comments *)

Lemma closing_bracket_bound (view : string_view) (i d : Z) (sq dq : bool) (r : Z) :
  closing_bracket view i d sq dq = Some r -> i <= r.
Proof.
  revert i d sq dq. induction view as [|c view IH]; intros i d sq dq H;
    [discriminate|].
  cbn [closing_bracket] in H. cbv zeta in H.
  repeat match type of H with
  | (if ?b then _ else _) = _ => destruct b
  end;
  try (inversion H; lia); apply IH in H; lia.
Qed.

Lemma find_first_of_here (set pre tail : string_view) (c : ascii) :
  mem c set = true ->
  find_first_of (pre ++ c :: tail)%list set (size pre) = size pre.
Proof.
  intros M.
  pose proof (find_first_of_from set pre [] tail c) as F.
  cbn [app] in F. rewrite F; [change (size []) with 0; lia| |exact M].
  intros x [].
Qed.

Lemma find_first_of_next (set pre tail : string_view) (c : ascii) :
  mem c set = false ->
  find_first_of (pre ++ c :: tail)%list set (size pre)
  = find_first_of (pre ++ c :: tail)%list set (size pre + 1).
Proof.
  intros M. unfold find_first_of. rewrite size_app, size_cons.
  pose proof (size_nonneg pre). pose proof (size_nonneg tail) as ST.
  replace ((0 <=? size pre) && (size pre <? size pre + (size tail + 1)))
    with true
    by (symmetry; apply andb_true_iff; split;
        [apply Z.leb_le|apply Z.ltb_lt]; lia).
  unfold size at 1. rewrite Nat2Z.id, skipn_app, skipn_all, Nat.sub_diag.
  cbn [app skipn first_of_from]. rewrite M.
  destruct tail as [|t tail].
  - change (size []) with 0.
    replace ((0 <=? size pre + 1) && (size pre + 1 <? size pre + (0 + 1)))
      with false; [reflexivity|].
    symmetry. apply andb_false_iff. right. apply Z.ltb_ge. lia.
  - rewrite size_cons in *. pose proof (size_nonneg tail).
    replace ((0 <=? size pre + 1)
             && (size pre + 1 <? size pre + (size tail + 1 + 1)))
      with true
      by (symmetry; apply andb_true_iff; split;
          [apply Z.leb_le|apply Z.ltb_lt]; lia).
    replace (Z.to_nat (size pre + 1)) with (S (List.length pre))
      by (unfold size; lia).
    replace (pre ++ c :: t :: tail)%list with ((pre ++ [c]) ++ t :: tail)%list
      by (rewrite <- app_assoc; reflexivity).
    replace (S (List.length pre)) with (List.length (pre ++ [c])%list)
      by (rewrite length_app; simpl; lia).
    rewrite skipn_app, skipn_all, Nat.sub_diag. reflexivity.
Qed.

Lemma doctypeLoop_skip (fuel : nat) (pre tail : string_view) (c : ascii)
    (d : Z) (sq dq cm : bool) :
  mem c ["<"; ">"; SQUOTE; DQUOTE; "-"]%char = false ->
  doctypeLoop fuel (pre ++ c :: tail)%list (size pre) d sq dq cm
  = doctypeLoop fuel (pre ++ c :: tail)%list (size pre + 1) d sq dq cm.
Proof.
  intros M. destruct fuel as [|fuel]; [reflexivity|].
  cbn [doctypeLoop]. rewrite (find_first_of_next _ pre tail c M). reflexivity.
Qed.

Lemma no_comment_starts (c : ascii) (seg rest : string_view) :
  (forall x, In x seg -> x <> "-"%char) ->
  starts_with (sv "<!--") (c :: seg ++ ">"%char :: rest)%list = false.
Proof.
  intros F. change (sv "<!--") with ["<"; "!"; "-"; "-"]%char.
  cbn [starts_with].
  destruct (Ascii.eqb "<" c); [|reflexivity]. cbn [andb].
  destruct seg as [|x seg]; [reflexivity|]. cbn [app starts_with].
  destruct (Ascii.eqb "!" x); [|reflexivity]. cbn [andb].
  destruct seg as [|y seg]; [reflexivity|]. cbn [app starts_with].
  destruct (Ascii.eqb_spec "-"%char y) as [E | E]; [|reflexivity].
  exfalso. apply (F y); [right; left; reflexivity|]. symmetry. exact E.
Qed.

Lemma compare_eq_at (pre tail str : string_view) :
  compare_eq (pre ++ tail)%list (size pre) str = starts_with str tail.
Proof.
  unfold compare_eq. rewrite size_app.
  pose proof (size_nonneg pre). pose proof (size_nonneg tail).
  replace ((0 <=? size pre) && (size pre <=? size pre + size tail)) with true
    by (symmetry; apply andb_true_iff; split; apply Z.leb_le; lia).
  unfold size. rewrite Nat2Z.id, skipn_app, skipn_all, Nat.sub_diag.
  reflexivity.
Qed.

Lemma doctypeLoop_closing (seg : string_view) :
  forall (fuel : nat) (pre rest : string_view) (d : Z) (sq dq : bool),
    (forall x, In x seg -> x <> "-"%char) ->
    closing_bracket (seg ++ ">"%char :: rest)%list (size pre) d sq dq
    = Some (size pre + size seg) ->
    1 <= d -> d + size seg < INT_MAX ->
    (List.length seg < fuel)%nat ->
    size (pre ++ seg ++ ">"%char :: rest)%list < npos ->
    doctypeLoop fuel (pre ++ seg ++ ">"%char :: rest)%list (size pre) d sq dq false
    = Ok (size pre + size seg).
Proof.
  induction seg as [|c seg IH]; intros fuel pre rest d sq dq F C D M L W.
  - change (size []) with 0 in *. rewrite Z.add_0_r in *. cbn [app] in *.
    destruct fuel as [|fuel]; [simpl in L; lia|].
    cbn [doctypeLoop]. rewrite find_first_of_here by reflexivity.
    rewrite size_app in W. pose proof (size_nonneg (">"%char :: rest)).
    replace (size pre =? npos) with false by (symmetry; apply Z.eqb_neq; lia).
    rewrite !compare_eq_at.
    replace (starts_with (sv "<!--") (">"%char :: rest)) with false by reflexivity.
    replace (starts_with (sv "-->") (">"%char :: rest)) with false by reflexivity.
    rewrite at_app. cbn [bind].
    cbn [closing_bracket] in C. cbv zeta in C.
    change (Ascii.eqb ">"%char "<"%char) with false in *.
    change (Ascii.eqb ">"%char ">"%char) with true in *.
    change (Ascii.eqb ">"%char SQUOTE) with false in *.
    change (Ascii.eqb ">"%char DQUOTE) with false in *.
    cbn [andb] in *.
    destruct (negb sq && negb dq).
    + destruct (Z.eqb_spec (d - 1) 0) as [Z0 | NZ].
      * unfold add_int, in_int.
        replace ((INT_MIN <=? d + -1) && (d + -1 <=? INT_MAX)) with true
          by (symmetry; apply andb_true_iff; unfold INT_MIN, INT_MAX in *;
              split; apply Z.leb_le; lia).
        cbn [bind]. replace (d + -1 =? 0) with true
          by (symmetry; apply Z.eqb_eq; lia).
        reflexivity.
      * apply closing_bracket_bound in C. lia.
    + apply closing_bracket_bound in C. lia.
  - assert (NH : c <> "-"%char) by (apply F; left; reflexivity).
    assert (F' : forall x, In x seg -> x <> "-"%char)
      by (intros x I; apply F; right; exact I).
    rewrite size_cons in *. pose proof (size_nonneg seg) as SS.
    pose proof (size_nonneg pre) as SP.
    assert (V : (pre ++ (c :: seg) ++ ">"%char :: rest
                 = (pre ++ [c]) ++ seg ++ ">"%char :: rest)%list)
      by (rewrite <- app_assoc; reflexivity).
    assert (SZ : size (pre ++ [c])%list = size pre + 1)
      by (rewrite size_app; reflexivity).
    assert (NEXT : forall d' sq' dq' fuel',
               closing_bracket (seg ++ ">"%char :: rest)%list (size pre + 1) d' sq' dq'
               = Some (size pre + (size seg + 1)) ->
               1 <= d' -> d' <= d + 1 -> (List.length seg < fuel')%nat ->
               doctypeLoop fuel' (pre ++ (c :: seg) ++ ">"%char :: rest)%list
                 (size pre + 1) d' sq' dq' false
               = Ok (size pre + (size seg + 1))).
    { intros d' sq' dq' fuel' C' D1 D2 L'.
      rewrite V, <- SZ.
      replace (size pre + (size seg + 1)) with (size (pre ++ [c])%list + size seg)
        by (rewrite SZ; lia).
      apply IH; try assumption; try lia.
      - rewrite SZ. rewrite C'. f_equal. lia.
      - rewrite <- V. exact W. }
    cbn [app closing_bracket] in C. cbv zeta in C.
    destruct (mem c ["<"; ">"; SQUOTE; DQUOTE; "-"]%char) eqn:MB.
    + destruct fuel as [|fuel]; [simpl in L; lia|]. simpl in L.
      cbn [doctypeLoop]. cbn [app].
      rewrite find_first_of_here by exact MB.
      cbn [app] in W. rewrite size_app in W.
      pose proof (size_nonneg (c :: seg ++ ">"%char :: rest)%list).
      replace (size pre =? npos) with false by (symmetry; apply Z.eqb_neq; lia).
      rewrite !compare_eq_at.
      rewrite (no_comment_starts c seg rest F').
      replace (starts_with (sv "-->") (c :: seg ++ ">"%char :: rest)%list)
        with false.
      2:{ change (sv "-->") with ["-"; "-"; ">"]%char. cbn [starts_with].
          destruct (Ascii.eqb_spec "-"%char c) as [E | E]; [|reflexivity].
          exfalso. apply NH. symmetry. exact E. }
      rewrite at_app. cbn [bind].
      unfold add_int, in_int.
      destruct (Ascii.eqb c "<" && (negb sq && negb dq)).
      { replace ((INT_MIN <=? d + 1) && (d + 1 <=? INT_MAX)) with true
          by (symmetry; apply andb_true_iff; unfold INT_MIN, INT_MAX in *;
              split; apply Z.leb_le; lia).
        cbn [bind]. replace (d + 1 =? 0) with false
          by (symmetry; apply Z.eqb_neq; lia).
        apply NEXT; try assumption; lia. }
      destruct (Ascii.eqb c ">" && (negb sq && negb dq)).
      { replace ((INT_MIN <=? d + -1) && (d + -1 <=? INT_MAX)) with true
          by (symmetry; apply andb_true_iff; unfold INT_MIN, INT_MAX in *;
              split; apply Z.leb_le; lia).
        cbn [bind]. replace (d + -1) with (d - 1) by lia.
        destruct (Z.eqb_spec (d - 1) 0) as [Z0 | NZ];
          [inversion C; lia|].
        apply NEXT; try assumption; lia. }
      destruct (Ascii.eqb c SQUOTE).
      { cbn [bind]. replace (d =? 0) with false
          by (symmetry; apply Z.eqb_neq; lia).
        apply NEXT; try assumption; lia. }
      destruct (Ascii.eqb c DQUOTE).
      { cbn [bind]. replace (d =? 0) with false
          by (symmetry; apply Z.eqb_neq; lia).
        apply NEXT; try assumption; lia. }
      cbn [bind]. replace (d =? 0) with false
        by (symmetry; apply Z.eqb_neq; lia).
      apply NEXT; try assumption; lia.
    + cbn [app]. rewrite doctypeLoop_skip by exact MB.
      unfold mem in MB. cbn [existsb] in MB.
      apply orb_false_iff in MB. destruct MB as (M1 & MB).
      apply orb_false_iff in MB. destruct MB as (M2 & MB).
      apply orb_false_iff in MB. destruct MB as (M3 & MB).
      apply orb_false_iff in MB. destruct MB as (M4 & _).
      rewrite M1, M2, M3, M4 in C. cbn [andb] in C.
      change (pre ++ c :: seg ++ ">"%char :: rest)%list
        with (pre ++ (c :: seg) ++ ">"%char :: rest)%list.
      apply NEXT; try assumption; try lia.
      simpl in L. lia.
Qed.

(** ** The DOCTYPE *)

Lemma doctypeLoop_stops_at_a_bracket (fuel : nat) (content : string_view)
    (p d : Z) (sq dq c : bool) (r : Z) :
  1 <= d ->
  doctypeLoop fuel content p d sq dq c = Ok r ->
  r = npos \/ at_ content r = Ok ">"%char.
Proof.
  revert p d sq dq c. induction fuel as [|fuel IH]; intros p d sq dq c D H;
    [discriminate|].
  cbn [doctypeLoop] in H. cbv zeta in H.
  set (q := find_first_of content _ p) in *. clearbody q.
  destruct (Z.eqb_spec q npos) as [E | N]; [inversion H; left; congruence|].
  destruct (compare_eq content q (sv "<!--")); [eapply IH; eassumption|].
  destruct (compare_eq content q (sv "-->")); [eapply IH; eassumption|].
  destruct c; [eapply IH; eassumption|].
  apply bind_Ok in H. destruct H as (ch & A & H).
  apply bind_Ok in H. destruct H as ([[d1 sq1] dq1] & E & H).
  assert (G : d1 = 0 /\ ch = ">"%char \/ 1 <= d1).
  { destruct (Ascii.eqb ch "<" && (negb sq && negb dq)).
    { apply bind_Ok in E. destruct E as (x & E & E').
      apply add_int_Ok in E. inversion E'; subst. right. lia. }
    destruct (Ascii.eqb ch ">" && (negb sq && negb dq)) eqn:G.
    { apply andb_true_iff in G. destruct G as (G & _).
      apply Ascii.eqb_eq in G.
      apply bind_Ok in E. destruct E as (x & E & E').
      apply add_int_Ok in E. inversion E'; subst.
      destruct (Z.eq_dec d1 0); [left; split; [assumption|reflexivity]|right; lia]. }
    destruct (Ascii.eqb ch SQUOTE); [inversion E; subst; right; lia|].
    destruct (Ascii.eqb ch DQUOTE); inversion E; subst; right; lia. }
  destruct (Z.eqb_spec d1 0) as [Z0 | NZ].
  - inversion H; subst. right. destruct G as [(_ & G) | G]; [|lia].
    rewrite <- G. exact A.
  - eapply IH; [|eassumption]. lia.
Qed.



(** ** Start tags *)

Lemma substr_rest (p q : string_view) (n : Z) :
  size q <= n ->
  substr (p ++ q)%list (size p) n = Ok q.
Proof.
  intros L. unfold substr. rewrite size_app in *.
  pose proof (size_nonneg p). pose proof (size_nonneg q).
  replace ((0 <=? size p) && (size p <=? size p + size q)) with true
    by (symmetry; apply andb_true_iff; split; apply Z.leb_le; lia).
  replace (n <? size p + size q - size p) with false
    by (symmetry; apply Z.ltb_ge; lia).
  unfold size. rewrite Nat2Z.id, skipn_app, skipn_all, Nat.sub_diag.
  reflexivity.
Qed.

Lemma countElement_total (localName : string_view) (s : State) :
  below_INT_MAX s -> exists s', countElement localName s = Ok s'.
Proof.
  unfold below_INT_MAX, countElement, add_int, in_int, INT_MIN, INT_MAX.
  intros B.
  repeat match goal with
  | |- context [if sv_eqb localName ?n then _ else _] =>
      destruct (sv_eqb localName n)
  | |- context [(?a <=? ?b) && (?c <=? ?d)] =>
      replace ((a <=? b) && (c <=? d)) with true
        by (symmetry; apply andb_true_iff; split; apply Z.leb_le; lia)
  end; cbn [bind]; eexists; reflexivity.
Qed.

(* the branch taken at a start tag whose name starts with [c] *)
Lemma branch_AtStartTag (c : ascii) (rest : string_view) :
  c <> "!"%char -> c <> "?"%char -> c <> "/"%char ->
  branch ("<"%char :: c :: rest) = Ok AtStartTag.
Proof.
  intros N1 N2 N3. unfold branch. rewrite at_0. cbn [bind].
  change (Ascii.eqb "<"%char "&"%char) with false.
  change (Ascii.eqb "<"%char "<"%char) with true.
  cbn [negb all_at]. rewrite !at_1. cbn [bind].
  apply Ascii.eqb_neq in N1, N2, N3. rewrite N1, N2, N3. reflexivity.
Qed.

(* no attribute before the > *)
Lemma attributeLoop_none (fuel : nat) (inEscape : bool) (s : State)
    (rest : string_view) :
  content s = ">"%char :: rest ->
  attributeLoop (S fuel) inEscape s = Ok s.
Proof.
  intros C. cbn [attributeLoop]. rewrite C, at_0. cbn [bind].
  replace (xmlNameMask ">"%char) with (@Ok bool false)
    by (vm_compute; reflexivity).
  reflexivity.
Qed.

(* the tag closed by > *)
Lemma closeStartTag_opens (qName prefix localName rest : string_view) (s : State) :
  content s = ">"%char :: rest ->
  INT_MIN <= depth s < INT_MAX ->
  closeStartTag qName prefix localName s
  = Ok (Continue, with_depth (depth s + 1) (with_content rest s)).
Proof.
  intros C D. unfold closeStartTag. rewrite C, at_0. cbn [bind].
  change (Ascii.eqb ">"%char ">"%char) with true. cbv iota.
  change (remove_prefix (size (sv ">")) (">"%char :: rest))
    with (remove_prefix (size (sv ">")) (sv ">" ++ rest)%list).
  rewrite remove_prefix_app. cbn [bind].
  unfold add_int, in_int.
  replace ((INT_MIN <=? depth s + 1) && (depth s + 1 <=? INT_MAX)) with true
    by (symmetry; apply andb_true_iff; unfold INT_MIN, INT_MAX in *;
        split; apply Z.leb_le; lia).
  reflexivity.
Qed.

Ltac count_the_element s0 localName :=
  let s1 := fresh "s1" in let C := fresh "C" in
  destruct (countElement_total localName s0) as (s1 & C);
  [assumption|];
  rewrite C; cbn [bind];
  pose proof (countElement_counts _ _ _ C)
    as (C1 & C2 & C3 & C4 & C5 & C6 & C7 & C8 & C9);
  pose proof (countElement_effect _ _ _ C) as (K1 & K2 & K3 & K4 & K5 & K6).

(** X17: a start tag closed by [>] is counted by its local name: with
    [<name>] or [<prefix:local>] at the start of the view, the name free
    of the bytes that end a name, the pass reports the tag, adds one to
    the counter of the local name if it is one of the six, whatever the
    prefix, raises the depth by one and leaves the view at the byte
    after the [>]. *)
Theorem start_tag_is_counted_by_its_local_name :
  (forall (s : State) (c : ascii) (name rest : string_view),
      c <> "!"%char -> c <> "?"%char ->
      (forall x, In x (c :: name) -> mem x NAMEEND = false) ->
      content s = ("<"%char :: (c :: name) ++ ">"%char :: rest)%list ->
      size (content s) <= BUFFER_SIZE ->
      below_INT_MAX s ->
      exists s',
        dispatch s = Ok (Continue, s')
        /\ content s' = rest /\ depth s' = depth s + 1
        /\ trace s' = START_TAG (c :: name) [] (c :: name) :: trace s
        /\ exprCount s' = exprCount s + counted (sv "expr") (c :: name)
        /\ declCount s' = declCount s + counted (sv "decl") (c :: name)
        /\ commentCount s' = commentCount s + counted (sv "comment") (c :: name)
        /\ functionCount s' = functionCount s + counted (sv "function") (c :: name)
        /\ unitCount s' = unitCount s + counted (sv "unit") (c :: name)
        /\ classCount s' = classCount s + counted (sv "class") (c :: name)
        /\ textSize s' = textSize s /\ loc s' = loc s /\ url s' = url s)
  /\ (forall (s : State) (c : ascii) (prefix localName rest : string_view),
      c <> "!"%char -> c <> "?"%char ->
      (forall x, In x (c :: prefix) -> mem x NAMEEND = false) ->
      (forall x, In x localName -> mem x NAMEEND = false) ->
      content s
      = ("<"%char :: ((c :: prefix) ++ ":"%char :: localName)
           ++ ">"%char :: rest)%list ->
      size (content s) <= BUFFER_SIZE ->
      below_INT_MAX s ->
      exists s',
        dispatch s = Ok (Continue, s')
        /\ content s' = rest /\ depth s' = depth s + 1
        /\ trace s'
           = START_TAG ((c :: prefix) ++ ":"%char :: localName)%list
               (c :: prefix) localName :: trace s
        /\ exprCount s' = exprCount s + counted (sv "expr") localName
        /\ declCount s' = declCount s + counted (sv "decl") localName
        /\ commentCount s' = commentCount s + counted (sv "comment") localName
        /\ functionCount s' = functionCount s + counted (sv "function") localName
        /\ unitCount s' = unitCount s + counted (sv "unit") localName
        /\ classCount s' = classCount s + counted (sv "class") localName
        /\ textSize s' = textSize s /\ loc s' = loc s /\ url s' = url s).
Proof.
  split.
  - intros s c name' rest N1 N2 F C W B.
    set (name := c :: name') in *.
    assert (F0 : mem c NAMEEND = false) by (apply F; left; reflexivity).
    assert (N3 : c <> "/"%char) by (intros ->; discriminate F0).
    assert (SW : size name < npos).
    { rewrite C in W. rewrite size_cons, size_app, size_cons in W.
      pose proof (size_nonneg rest). pose proof npos_large. lia. }
    pose proof (size_nonneg name) as SN. pose proof (size_nonneg rest) as SR.
    unfold dispatch. rewrite C.
    replace (branch ("<"%char :: name ++ ">"%char :: rest)%list)
      with (Ok AtStartTag) by (symmetry; apply branch_AtStartTag; assumption).
    cbn [bind]. unfold parseStartTag, openStartTag. rewrite C.
    change ("<"%char :: name ++ ">"%char :: rest)%list
      with (sv "<" ++ name ++ ">"%char :: rest)%list.
    rewrite remove_prefix_app. cbn [bind].
    replace (at_ (name ++ ">"%char :: rest)%list 0) with (Ok c)
      by (symmetry; apply at_0).
    cbn [bind]. rewrite (mem_colon_NAMEEND c F0).
    rewrite (find_first_of_app NAMEEND name rest ">")
      by (assumption || reflexivity).
    replace (size name =? size (name ++ ">"%char :: rest)%list) with false
      by (symmetry; apply Z.eqb_neq; rewrite size_app, size_cons; lia).
    replace (scanName (name ++ ">"%char :: rest)%list (size name))
      with (Ok (size name, 0)) by (unfold scanName; rewrite at_app; reflexivity).
    cbn [bind]. rewrite substr_app. cbn [bind].
    replace (empty name) with false by reflexivity.
    unfold afterColon. change (0 =? 0) with true. cbv iota.
    replace (substr name 0 0) with (Ok (@nil ascii))
      by (symmetry; apply (substr_app [] name)).
    cbn [bind].
    replace (substr name 0 (size name)) with (Ok name)
      by (symmetry; apply (substr_rest [] name); lia).
    cbn [bind].
    count_the_element (TRACE (START_TAG name [] name) s) name.
    rewrite remove_prefix_app. cbn [bind].
    rewrite skip_whitespace_none by reflexivity. cbn [bind].
    rewrite (attributeLoop_none _ _ _ rest) by reflexivity. cbn [bind].
    rewrite (closeStartTag_opens _ _ _ rest);
      [|reflexivity|cbn [depth with_content]; rewrite K5; apply B].
    eexists. split; [reflexivity|].
    cbn [content depth trace exprCount declCount commentCount functionCount
         unitCount classCount textSize loc url with_depth with_content] in *.
    cbn [TRACE trace exprCount declCount commentCount functionCount unitCount
         classCount textSize loc url depth] in *.
    unfold counted. rewrite K4, K5, K3.
    repeat split; assumption || reflexivity.
  - intros s c prefix' localName rest N1 N2 FP FL C W B.
    set (prefix := c :: prefix') in *.
    set (q := (prefix ++ ":"%char :: localName)%list) in *.
    assert (F0 : mem c NAMEEND = false) by (apply FP; left; reflexivity).
    assert (N3 : c <> "/"%char) by (intros ->; discriminate F0).
    assert (SW : size q < npos).
    { rewrite C in W. rewrite size_cons, size_app, size_cons in W.
      pose proof (size_nonneg rest). pose proof npos_large. lia. }
    pose proof (size_nonneg prefix) as SP.
    pose proof (size_nonneg localName) as SL.
    pose proof (size_nonneg rest) as SR.
    assert (SQ : size q = size prefix + 1 + size localName).
    { subst q. rewrite size_app, size_cons. lia. }
    assert (V : (q ++ ">"%char :: rest
                 = prefix ++ ":"%char :: localName ++ ">"%char :: rest)%list).
    { subst q. rewrite <- app_assoc. reflexivity. }
    unfold dispatch. rewrite C.
    replace (branch ("<"%char :: q ++ ">"%char :: rest)%list)
      with (Ok AtStartTag)
      by (symmetry; apply (branch_AtStartTag c); assumption).
    cbn [bind]. unfold parseStartTag, openStartTag. rewrite C.
    change ("<"%char :: q ++ ">"%char :: rest)%list
      with (sv "<" ++ q ++ ">"%char :: rest)%list.
    rewrite remove_prefix_app. cbn [bind].
    replace (at_ (q ++ ">"%char :: rest)%list 0) with (Ok c)
      by (symmetry; apply at_0).
    cbn [bind]. rewrite (mem_colon_NAMEEND c F0).
    replace (find_first_of (q ++ ">"%char :: rest)%list NAMEEND 0)
      with (size prefix)
      by (rewrite V; symmetry; apply find_first_of_app;
          [assumption|reflexivity]).
    replace (size prefix =? size (q ++ ">"%char :: rest)%list) with false
      by (symmetry; apply Z.eqb_neq; rewrite size_app, size_cons; lia).
    replace (scanName (q ++ ">"%char :: rest)%list (size prefix))
      with (Ok (size q, size prefix)).
    2:{ symmetry. unfold scanName. rewrite V at 1. rewrite at_app.
        cbn [bind]. change (Ascii.eqb ":"%char ":"%char) with true. cbv iota.
        f_equal. f_equal.
        unfold size_t_wrap. rewrite Z.mod_small by (unfold npos in SW; lia).
        replace (q ++ ">"%char :: rest)%list
          with ((prefix ++ [":"%char]) ++ localName ++ ">"%char :: rest)%list
          by (rewrite V, <- app_assoc; reflexivity).
        replace (size prefix + 1) with (size (prefix ++ [":"%char])%list)
          by (rewrite size_app; reflexivity).
        rewrite find_first_of_from by (assumption || reflexivity).
        rewrite size_app. change (size [":"%char]) with 1. lia. }
    cbn [bind]. rewrite substr_app. cbn [bind].
    replace (empty q) with false by reflexivity.
    replace (substr q 0 (size prefix)) with (Ok prefix)
      by (symmetry; apply substr_app).
    cbn [bind].
    replace (afterColon (size prefix)) with (size (prefix ++ [":"%char])%list).
    2:{ unfold afterColon. rewrite size_app. change (size [":"%char]) with 1.
        replace (size prefix =? 0) with false
          by (symmetry; apply Z.eqb_neq; subst prefix; rewrite size_cons;
              pose proof (size_nonneg prefix'); lia).
        unfold size_t_wrap. rewrite Z.mod_small by (unfold npos in SW; lia).
        reflexivity. }
    replace (substr q (size (prefix ++ [":"%char])%list) (size q))
      with (Ok localName).
    2:{ symmetry.
        replace q with ((prefix ++ [":"%char]) ++ localName)%list at 1
          by (subst q; rewrite <- app_assoc; reflexivity).
        apply substr_rest. lia. }
    cbn [bind].
    count_the_element (TRACE (START_TAG q prefix localName) s) localName.
    rewrite remove_prefix_app. cbn [bind].
    rewrite skip_whitespace_none by reflexivity. cbn [bind].
    rewrite (attributeLoop_none _ _ _ rest) by reflexivity. cbn [bind].
    rewrite (closeStartTag_opens _ _ _ rest);
      [|reflexivity|cbn [depth with_content]; rewrite K5; apply B].
    eexists. split; [reflexivity|].
    cbn [content depth trace exprCount declCount commentCount functionCount
         unitCount classCount textSize loc url with_depth with_content] in *.
    cbn [TRACE trace exprCount declCount commentCount functionCount unitCount
         classCount textSize loc url depth] in *.
    unfold counted. rewrite K4, K5, K3.
    repeat split; assumption || reflexivity.
Qed.

Lemma start_tag_is_counted_by_its_local_name_witness :
  exists s',
    dispatch (looking_at (sv "<src:unit>x") (opened []) true) = Ok (Continue, s')
    /\ content s' = sv "x" /\ depth s' = 2
    /\ trace s' = [START_TAG (sv "src:unit") (sv "src") (sv "unit")]
    /\ unitCount s' = 1 /\ exprCount s' = 0.
Proof.
  destruct (proj2 start_tag_is_counted_by_its_local_name
              (looking_at (sv "<src:unit>x") (opened []) true)
              "s"%char (sv "rc") (sv "unit") (sv "x"))
    as (s' & D & C & P & T & E & _ & _ & _ & U & _).
  - discriminate.
  - discriminate.
  - intros x I. simpl in I.
    repeat (destruct I as [<-|I]; [reflexivity|]). contradiction.
  - intros x I. simpl in I.
    repeat (destruct I as [<-|I]; [reflexivity|]). contradiction.
  - reflexivity.
  - vm_compute. discriminate.
  - unfold below_INT_MAX, INT_MIN, INT_MAX. cbn. lia.
  - exists s'. repeat split; assumption.
Defined.

(** ** The window *)

(** X18: the read of a refill fits in the buffer whenever at most
    BLOCK_SIZE bytes are unprocessed, as at the first read and at the top
    of the element loop: the request of BUFFER_SIZE - BLOCK_SIZE bytes
    behind them ends inside buffer[BUFFER_SIZE]. *)
Theorem refill_of_a_short_view_fits (buffer : list ascii) (content : string_view)
    (a : Archive) :
  size content <= BLOCK_SIZE ->
  refillContent buffer content a <> Undefined BufferOverflow.
Proof.
  intros S. unfold refillContent.
  match goal with |- context [match ?x with inl _ => _ | inr _ => _ end] =>
    destruct x as [[a1 msg]|a1]
  end; [discriminate|].
  destruct (handle a1); try discriminate;
    destruct (archive_read_data a1 (BUFFER_SIZE - BLOCK_SIZE))
      as [[status bytes] a2] eqn:R;
    (apply archive_read_data_spec in R; [|unfold BUFFER_SIZE, BLOCK_SIZE; lia]);
    destruct R as [R _];
    (replace (BUFFER_SIZE <? size content + size bytes) with false;
     [destruct (status <? 0); discriminate|]);
    symmetry; apply Z.ltb_ge;
    (destruct R as [(_ & ->) | (R1 & R2 & _)];
     [change (size []) with 0|]);
    unfold BUFFER_SIZE, BLOCK_SIZE in *; lia.
Qed.

Lemma refill_of_a_short_view_fits_witness :
  size (sv "<a>") <= BLOCK_SIZE
  /\ refillContent (sv "<a>") (sv "<a>") (opened (xs BUFFER_SIZE))
     <> Undefined BufferOverflow.
Proof.
  split; [vm_compute; discriminate|].
  apply (refill_of_a_short_view_fits (sv "<a>") (sv "<a>") (opened (xs BUFFER_SIZE))).
  vm_compute. discriminate.
Defined.
